(** * Snipe Checks bot (bot.py): the PnL and leaderboard engine

    A shallow embedding of [bot.py].  Python floats are IEEE-754 binary64
    numbers and are modelled by Rocq's primitive floats; Python strings are
    sequences of Unicode code points; the MongoDB collections are lists in
    insertion order; the handlers run in a small state monad over the two
    collections and a log of the market-data reads. *)

From Stdlib Require Import Floats ZArith NArith List Bool Lia Ascii String.
From Stdlib Require Import Sorted Permutation DecimalString.
Import ListNotations.

Set Warnings "-inexact-float".
Set Implicit Arguments.

(* ================================================================== *)
(** * The Python built-ins the bot uses *)
(* ================================================================== *)

Module Py.

(** A Python [str]: its code points, in order. *)
Definition str := list N.

(** An ASCII literal of the source, as a [str]. *)
Definition lit (s : string) : str :=
  List.map N_of_ascii (list_ascii_of_string s).

Definition chr (c : ascii) : N := N_of_ascii c.

(** [len(s)] *)
Definition len (s : str) : nat := List.length s.

Definition str_eqb (a b : str) : bool :=
  if list_eq_dec N.eq_dec a b then true else false.

(** [str.isspace] for one code point: the characters [str.strip()] removes. *)
Definition isspace (c : N) : bool :=
  (((9 <=? c) && (c <=? 13)) || ((28 <=? c) && (c <=? 32))
   || (c =? 133) || (c =? 160) || (c =? 5760)
   || ((8192 <=? c) && (c <=? 8202))
   || (c =? 8232) || (c =? 8233) || (c =? 8239) || (c =? 8287)
   || (c =? 12288))%N.

Fixpoint lstrip (s : str) : str :=
  match s with
  | c :: s' => if isspace c then lstrip s' else s
  | [] => []
  end.

(** [s.strip()] *)
Definition strip (s : str) : str := rev (lstrip (rev (lstrip s))).

(** [sep.join(parts)] *)
Fixpoint join (sep : str) (parts : list str) : str :=
  match parts with
  | [] => []
  | [p] => p
  | p :: ps => p ++ sep ++ join sep ps
  end.

(** ** The fragment of [re] that the address pattern needs *)

Inductive re_item :=
| Bol                                   (* ^ *)
| Eol                                   (* $ *)
| PlusSet (ranges : list (ascii * ascii)). (* [..]+ *)

Definition in_set (ranges : list (ascii * ascii)) (c : N) : bool :=
  existsb (fun r => (chr (fst r) <=? c) && (c <=? chr (snd r)))%N ranges.

(** [$] without [re.MULTILINE]: at the end of the string, or just before a
    newline that is the last character. *)
Definition at_eol (rest : str) : bool :=
  match rest with
  | [] => true
  | [c] => (c =? 10)%N
  | _ => false
  end.

(** Backtracking match of the items against [rest]; [at_start] tells whether
    [rest] is the whole subject. *)
Fixpoint match_here (items : list re_item) (at_start : bool) (rest : str)
  : bool :=
  match items with
  | [] => true
  | Bol :: items' => at_start && match_here items' at_start rest
  | Eol :: items' => at_eol rest && match_here items' at_start rest
  | PlusSet ranges :: items' =>
      match rest with
      | [] => false
      | c :: rest' =>
          in_set ranges c &&
          (fix more (r : str) : bool :=
             match r with
             | [] => match_here items' false []
             | c' :: r' =>
                 (in_set ranges c' && more r') || match_here items' false r
             end) rest'
      end
  end.

(** [bool(re.match(pattern, s))] *)
Definition re_match (pattern : list re_item) (s : str) : bool :=
  match_here pattern true s.

(** ** Numbers, and what [json] decodes *)

(** A decoded JSON value.  A number keeps the type of its literal: an
    [int], of any size, or a [float] (a literal with a fraction or an
    exponent, [NaN], [Infinity]); [true] and [false] are the [int]s 1 and 0
    in arithmetic.  Any other value, null, a string, an array or an object,
    is not a number. *)
Inductive json :=
| JInt (n : Z)
| JFloat (x : float)
| JBool (b : bool)
| JOther.

(** The operands of the arithmetic operators: an [int] or a [float]. *)
Inductive number :=
| Int (n : Z)
| Float (x : float).

(** [float(n)] for an [int], which is also how [+], [-] and [*] bring an
    [int] to the [float] on their other side: the nearest float, ties to
    even.  [None] stands for the [OverflowError] of an [int] that is too
    large to convert. *)
Definition float_of_int (n : Z) : option float :=
  match binary_normalize prec emax n 0 false with
  | S754_infinity _ => None
  | x => Some (SF2Prim x)
  end.

Definition to_float (a : number) : option float :=
  match a with
  | Int n => float_of_int n
  | Float x => Some x
  end.

Definition number_of (v : json) : option number :=
  match v with
  | JInt n => Some (Int n)
  | JFloat x => Some (Float x)
  | JBool b => Some (Int (if b then 1 else 0))
  | JOther => None
  end.

(** [a * b] on numbers: two [int]s give their exact product, an [int] and a
    [float] the product of two floats. *)
Definition mul_numbers (a b : number) : option number :=
  match a, b with
  | Int m, Int n => Some (Int (m * n))
  | _, _ =>
      match to_float a, to_float b with
      | Some x, Some y => Some (Float (x * y))
      | _, _ => None
      end
  end.

(** [a * b] of two decoded values, as far as a [float] can be added to it.
    [None] stands for an exception: the [OverflowError] above, or the
    [TypeError] of an operand that is not a number.  (The one product that
    Python defines on such an operand, a string or an array repeated an
    [int] number of times, is not a number either, and the addition that
    follows it raises.) *)
Definition mul (a b : json) : option number :=
  match number_of a, number_of b with
  | Some x, Some y => mul_numbers x y
  | _, _ => None
  end.

(** [x + a] for a [float] [x]. *)
Definition add (x : float) (a : number) : option float :=
  match to_float a with
  | Some y => Some (x + y)%float
  | None => None
  end.

(** ** Numbers to text *)

(** [str(n)] for an [int]. *)
Definition str_of_int (n : Z) : str :=
  match n with
  | Zneg p => chr "-" :: lit (NilZero.string_of_uint (Pos.to_uint p))
  | _ => lit (NilZero.string_of_uint (N.to_uint (Z.to_N n)))
  end.

Definition digit (d : Z) : N := Z.to_N (48 + d).

(** The [,] option of the format mini-language: a comma before every group of
    three digits, counted from the right. *)
Fixpoint group_rev (rev_digits : str) (k : nat) : str :=
  match rev_digits with
  | [] => []
  | d :: ds =>
      if Nat.eqb k 3 then chr "," :: d :: group_rev ds 1
      else d :: group_rev ds (S k)
  end.

Definition group_thousands (digits : str) : str :=
  rev (group_rev (rev digits) 0).

(** [n / d] rounded to the nearest integer, ties to even ([0 < d]). *)
Definition round_half_even (n d : Z) : Z :=
  let q := (n / d)%Z in
  match (2 * (n mod d) ?= d)%Z with
  | Lt => q
  | Gt => (q + 1)%Z
  | Eq => if Z.even q then q else (q + 1)%Z
  end.

(** [format(x, ",.2f")] (with [grouped]) and [format(x, ".2f")]: the exact
    binary value of [x], correctly rounded to two decimals. *)
Definition format_2f (grouped : bool) (x : float) : str :=
  match Prim2SF x with
  | S754_nan => lit "nan"
  | S754_infinity s => if s then lit "-inf" else lit "inf"
  | S754_zero s => (if s then lit "-" else []) ++ lit "0.00"
  | S754_finite s m e =>
      let cents :=
        if (0 <=? e)%Z then (Zpos m * 2 ^ e * 100)%Z
        else round_half_even (Zpos m * 100) (2 ^ (- e)) in
      let whole := str_of_int (cents / 100) in
      let frac := (cents mod 100)%Z in
      (if s then lit "-" else [])
        ++ (if grouped then group_thousands whole else whole)
        ++ lit "." ++ [digit (frac / 10); digit (frac mod 10)]
  end.

(** ** [urllib.parse.quote] *)

(** [s.encode('utf-8')] with [errors='strict']: [None] stands for the
    [UnicodeEncodeError] raised on a surrogate code point. *)
Definition utf8_char (c : N) : option (list N) :=
  (if c <? 128 then Some [c]
   else if c <? 2048 then Some [192 + c / 64; 128 + c mod 64]
   else if c <? 65536 then
     if (55296 <=? c) && (c <=? 57343) then None
     else Some [224 + c / 4096; 128 + (c / 64) mod 64; 128 + c mod 64]
   else if c <? 1114112 then
     Some [240 + c / 262144; 128 + (c / 4096) mod 64;
           128 + (c / 64) mod 64; 128 + c mod 64]
   else None)%N.

Fixpoint encode_utf8 (s : str) : option (list N) :=
  match s with
  | [] => Some []
  | c :: s' =>
      match utf8_char c, encode_utf8 s' with
      | Some bs, Some rest => Some (bs ++ rest)
      | _, _ => None
      end
  end.

(** [_ALWAYS_SAFE]: letters, digits and [_.-~] (Python 3.7 and later). *)
Definition always_safe (b : N) : bool :=
  in_set [("A", "Z"); ("a", "z"); ("0", "9")]%char b
  || existsb (N.eqb b) (lit "_.-~").

Definition hex_digit (n : N) : N :=
  (if n <? 10 then 48 + n else 55 + n)%N.

(** One byte of the encoded text: itself when safe, else [%XX]. *)
Definition quoter (safe : str) (b : N) : str :=
  if always_safe b || existsb (N.eqb b) safe then [b]
  else [chr "%"; hex_digit (b / 16); hex_digit (b mod 16)].

(** [quote(s)], with its default [safe='/']. *)
Definition quote (s : str) : option str :=
  match encode_utf8 s with
  | Some bs => Some (flat_map (quoter (lit "/")) bs)
  | None => None
  end.

(** ** [list.sort(key=..., reverse=True)], slices and [enumerate] *)

(** The list sort compares keys with [<] only.  As CPython 3.11 does it, it
    looks for the run the list begins with, binary-inserts the elements
    behind the run into it, one after the other, and, with [reverse=True],
    reverses the list before and after, which keeps equal elements in their
    original order.  (A list of 64 elements or more is cut into several such
    runs, which are merged; on keys that [<] orders, floats without a NaN,
    the result is the same.) *)

(** The elements of [l] that go on a run whose last element is [prev], and
    the rest: the run goes on while no element is less than the one before
    it. *)
Fixpoint ascending_run (A : Type) (lt : A -> A -> bool) (prev : A)
  (l : list A) : list A * list A :=
  match l with
  | [] => ([], [])
  | x :: l' =>
      if lt x prev then ([], l)
      else let (run, rest) := ascending_run lt x l' in (x :: run, rest)
  end.

(** The same for a descending run: every element is less than the one
    before it. *)
Fixpoint descending_run (A : Type) (lt : A -> A -> bool) (prev : A)
  (l : list A) : list A * list A :=
  match l with
  | [] => ([], [])
  | x :: l' =>
      if lt x prev
      then let (run, rest) := descending_run lt x l' in (x :: run, rest)
      else ([], l)
  end.

(** [count_run]: the run at the start of the list, reversed if it
    descends, and the elements behind it. *)
Definition count_run (A : Type) (lt : A -> A -> bool) (l : list A)
  : list A * list A :=
  match l with
  | [] => ([], [])
  | [a] => ([a], [])
  | a :: b :: l' =>
      if lt b a
      then let (run, rest) := descending_run lt b l' in
           (rev (a :: b :: run), rest)
      else let (run, rest) := ascending_run lt b l' in
           (a :: b :: run, rest)
  end.

(** The binary search of [binarysort] for the place of [pivot] between the
    indices [l] and [r] of [sorted]; [fuel] bounds the number of steps. *)
Fixpoint bisect (A : Type) (lt : A -> A -> bool) (pivot : A)
  (sorted : list A) (fuel l r : nat) : nat :=
  match fuel with
  | O => l
  | S fuel' =>
      let p := l + (r - l) / 2 in
      match nth_error sorted p with
      | Some y =>
          let (l', r') := if lt pivot y then (l, p) else (S p, r) in
          if l' <? r' then bisect lt pivot sorted fuel' l' r' else l'
      | None => l
      end
  end.

(** One step of [binarysort]: [pivot] is put at its place in [sorted]. *)
Definition binary_insert (A : Type) (lt : A -> A -> bool) (sorted : list A)
  (pivot : A) : list A :=
  let l := bisect lt pivot sorted (List.length sorted) 0 (List.length sorted) in
  firstn l sorted ++ pivot :: skipn l sorted.

Definition binarysort (A : Type) (lt : A -> A -> bool) (run rest : list A)
  : list A :=
  fold_left (binary_insert lt) rest run.

Definition list_sort (A : Type) (lt : A -> A -> bool) (l : list A) : list A :=
  let (run, rest) := count_run lt l in binarysort lt run rest.

Definition sort_by (A : Type) (key : A -> float) (reverse : bool)
  (l : list A) : list A :=
  let lt := fun a b => (key a <? key b)%float in
  if reverse then rev (list_sort lt (rev l)) else list_sort lt l.

(** [enumerate(l, start)] *)
Definition enumerate (A : Type) (start : nat) (l : list A) : list (nat * A) :=
  combine (seq start (List.length l)) l.

End Py.

(* ================================================================== *)
(** * bot.py *)
(* ================================================================== *)

Module Bot.
Import Py.

(** ** Stored documents and the outside world *)

(** A document of [picks_collection]. *)
Record pick_doc := {
  p_chat_id : Z;
  p_user_id : Z;
  p_username : str;
  mint_address : str;
  cost_basis_usd : float;
  num_tokens : float;
  p_created_at : Z
}.

(** A document of [wallets_collection]. *)
Record wallet_doc := {
  w_chat_id : Z;
  w_user_id : Z;
  w_username : str;
  wallet_address : str;
  start_usd_value : float;
  w_created_at : Z
}.

(** One token object of the balances feed, as [resp.json()] gives it: a key
    may be missing, and what it holds is whatever the answer has there. *)
Record token_info := {
  value : option json;
  balance : option json
}.

(** [d.get(key, 0)] *)
Definition get_or_0 (field : option json) : json :=
  match field with
  | Some x => x
  | None => JInt 0
  end.

(** What the outside returns while one handler runs: the three market-data
    functions of section 4 (each already maps a failure to its sentinel, [0.0]
    or the empty list) and the clock.  A handler reads a trade price or a
    wallet at most once per stored document, so one answer per address is all
    it can see. *)
Record env := {
  sol_price_feed : float;
  close_price_feed : str -> float;
  balances_feed : str -> list token_info;
  utcnow : Z
}.

Inductive read :=
| ReadSolPrice
| ReadClosePrice (mint : str)
| ReadBalances (wallet : str).

(** The two collections, in insertion order, and the market-data reads made
    so far. *)
Record world := {
  picks_collection : list pick_doc;
  wallets_collection : list wallet_doc;
  reads : list read
}.

(** ** The handlers' monad *)

Definition M (A : Type) : Type := world -> A * world.

Definition ret (A : Type) (a : A) : M A := fun w => (a, w).

Definition bind (A B : Type) (c : M A) (k : A -> M B) : M B :=
  fun w => let (a, w') := c w in k a w'.

Notation "x <- c ;; k" := (bind c (fun x => k))
  (at level 61, c at next level, right associativity).

(** [for x in l: acc = body(acc, x)] *)
Fixpoint for_each (A S : Type) (l : list A) (acc : S) (body : S -> A -> M S)
  : M S :=
  match l with
  | [] => ret acc
  | x :: l' => acc' <- body acc x ;; for_each l' acc' body
  end.

(** The same loop when the body may raise: [None] is the exception, which
    ends the loop. *)
Fixpoint for_each_raising (A S : Type) (l : list A) (acc : S)
  (body : S -> A -> M (option S)) : M (option S) :=
  match l with
  | [] => ret (Some acc)
  | x :: l' =>
      r <- body acc x ;;
      match r with
      | Some acc' => for_each_raising l' acc' body
      | None => ret None
      end
  end.

Definition log_read (r : read) : M unit :=
  fun w => (tt, {| picks_collection := picks_collection w;
                   wallets_collection := wallets_collection w;
                   reads := reads w ++ [r] |}).

Definition get_sol_price (e : env) : M float :=
  _ <- log_read ReadSolPrice ;; ret (sol_price_feed e).

Definition get_latest_close_price_in_sol (e : env) (mint : str) : M float :=
  _ <- log_read (ReadClosePrice mint) ;; ret (close_price_feed e mint).

Definition get_wallet_balances (e : env) (wallet : str)
  : M (list token_info) :=
  _ <- log_read (ReadBalances wallet) ;; ret (balances_feed e wallet).

(** [picks_collection.find(query)] and [find_one(query)] *)
Definition picks_find (query : pick_doc -> bool) : M (list pick_doc) :=
  fun w => (filter query (picks_collection w), w).

Definition picks_find_one (query : pick_doc -> bool) : M (option pick_doc) :=
  fun w => (find query (picks_collection w), w).

Definition wallets_find (query : wallet_doc -> bool) : M (list wallet_doc) :=
  fun w => (filter query (wallets_collection w), w).

Definition wallets_find_one (query : wallet_doc -> bool)
  : M (option wallet_doc) :=
  fun w => (find query (wallets_collection w), w).

Definition same_pick_key (a b : pick_doc) : bool :=
  (p_chat_id a =? p_chat_id b)%Z && str_eqb (mint_address a) (mint_address b).

(** [picks_collection.insert_one(doc)] under [chat_mint_unique_index]:
    [false] stands for the exception of a refused insert. *)
Definition picks_insert_one (doc : pick_doc) : M bool :=
  fun w =>
    if existsb (same_pick_key doc) (picks_collection w) then (false, w)
    else (true, {| picks_collection := picks_collection w ++ [doc];
                   wallets_collection := wallets_collection w;
                   reads := reads w |}).

(** [wallets_collection.insert_one(doc)]: the collection has no index. *)
Definition wallets_insert_one (doc : wallet_doc) : M bool :=
  fun w =>
    (true, {| picks_collection := picks_collection w;
              wallets_collection := wallets_collection w ++ [doc];
              reads := reads w |}).

(** ** Updates and replies *)

Record Update := {
  effective_chat_id : Z;
  effective_user_id : Z;
  effective_username : option str;
  message_text : str
}.

Record Context := { args : list str }.

(** [update.effective_user.username or "Anonymous"] *)
Definition username_or_anonymous (update : Update) : str :=
  match effective_username update with
  | None | Some [] => lit "Anonymous"
  | Some name => name
  end.

(** An entry of [data_list] in [leaderboard_command]. *)
Record pick_row := {
  row_username : str;
  row_mint : str;
  row_cost_basis_usd : float;
  row_current_price_usd : float;
  row_pnl : float
}.

(** An entry of [results] in [sniper_leaderboard_command]. *)
Record wallet_row := {
  res_username : str;
  res_wallet_address : str;
  net_worth_usd : float;
  pnl_usd : float
}.

(** The reply a handler sends, one constructor per [reply_text] call of the
    source; a leaderboard reply keeps the [(rank, item)] pairs its text is
    rendered from.  [Raised] stands for an exception that leaves the handler
    before any reply: [quote] on a text that UTF-8 cannot encode, or the
    arithmetic of [sniper_leaderboard_command] on a holding that is not a
    number or is too large for a float. *)
Inductive reply :=
| Welcome
| Help
| LeaderboardUnavailable
| NoPicks
| Leaderboard (ranked : list (nat * pick_row))
| Usage
| InvalidAddress
| WalletAlreadyRegistered
| WalletSolPriceError
| WalletInsertError
| WalletRegistered (wallet : str) (start : float)
| NoWallets
| SniperLeaderboard (ranked : list (nat * wallet_row))
| NoPicksForUser
| ShareSolPriceError
| ShareLink (twitter_link : str)
| Raised
| Echo (text : str)
| AlreadyShilled (mint : str)
| PickSolPriceError
| InvalidClosePrice (mint : str)
| PickInsertError
| PickAdded (mint : str) (cost : float) (tokens : float).

(** ** Section 4 of the source: the validator *)

(** [pattern = r'^[1-9A-HJ-NP-Za-km-z]+$'] *)
Definition pattern : list re_item :=
  [ Bol;
    PlusSet [("1", "9"); ("A", "H"); ("J", "N"); ("P", "Z");
             ("a", "k"); ("m", "z")]%char;
    Eol ].

Definition is_valid_solana_address (address : str) : bool :=
  if negb (existsb (Nat.eqb (len address)) [43; 44]%nat) then false
  else re_match pattern address.

(** ** Section 5 of the source: the handlers *)

Definition start_command (e : env) (update : Update) (context : Context)
  : M reply := ret Welcome.

Definition help_command (e : env) (update : Update) (context : Context)
  : M reply := ret Help.

(** The body of the loop of [leaderboard_command]. *)
Definition value_pick (e : env) (sol_price : float)
  (data_list : list pick_row) (pick : pick_doc) : M (list pick_row) :=
  let mint := mint_address pick in
  let cost_basis_usd := cost_basis_usd pick in
  let num_tokens := num_tokens pick in
  let username := p_username pick in
  current_close_sol <- get_latest_close_price_in_sol e mint ;;
  let current_token_price_usd := (current_close_sol * sol_price)%float in
  let current_value_usd := (num_tokens * current_token_price_usd)%float in
  let pnl := (current_value_usd - cost_basis_usd)%float in
  ret (data_list ++ [ {| row_username := username;
                         row_mint := mint;
                         row_cost_basis_usd := cost_basis_usd;
                         row_current_price_usd := current_token_price_usd;
                         row_pnl := pnl |} ]).

Definition leaderboard_command (e : env) (update : Update)
  (context : Context) : M reply :=
  let chat_id := effective_chat_id update in
  sol_price <- get_sol_price e ;;
  if (sol_price <=? 0)%float then ret LeaderboardUnavailable
  else
    all_picks <- picks_find (fun p => (p_chat_id p =? chat_id)%Z) ;;
    match all_picks with
    | [] => ret NoPicks
    | _ =>
        data_list <- for_each all_picks [] (value_pick e sol_price) ;;
        let data_list := sort_by row_pnl true data_list in
        ret (Leaderboard (enumerate 1 (firstn 10 data_list)))
    end.

Definition register_wallet_command (e : env) (update : Update)
  (context : Context) : M reply :=
  let chat_id := effective_chat_id update in
  let user_id := effective_user_id update in
  let username := username_or_anonymous update in
  match args context with
  | [] => ret Usage
  | arg0 :: _ =>
      let wallet_address := strip arg0 in
      if negb (is_valid_solana_address wallet_address) then ret InvalidAddress
      else
        existing <- wallets_find_one
          (fun d => (w_chat_id d =? chat_id)%Z
                    && str_eqb (Bot.wallet_address d) wallet_address) ;;
        match existing with
        | Some _ => ret WalletAlreadyRegistered
        | None =>
            sol_price <- get_sol_price e ;;
            if (sol_price <=? 0)%float then ret WalletSolPriceError
            else
              let start_usd_value := (0.5 * sol_price)%float in
              let doc := {| w_chat_id := chat_id;
                            w_user_id := user_id;
                            w_username := username;
                            wallet_address := wallet_address;
                            start_usd_value := start_usd_value;
                            w_created_at := utcnow e |} in
              ok <- wallets_insert_one doc ;;
              if ok then ret (WalletRegistered wallet_address start_usd_value)
              else ret WalletInsertError
        end
  end.

(** The inner loop of [sniper_leaderboard_command], from [total_usd] on;
    [None] stands for an exception of [total_usd += token_balance *
    token_price], which no [try] of the source encloses. *)
Fixpoint total_usd_of (balances : list token_info) (total_usd : float)
  : option float :=
  match balances with
  | [] => Some total_usd
  | token_info :: balances' =>
      let token_price := get_or_0 (value token_info) in
      let token_balance := get_or_0 (balance token_info) in
      match mul token_balance token_price with
      | Some product =>
          match add total_usd product with
          | Some total_usd' => total_usd_of balances' total_usd'
          | None => None
          end
      | None => None
      end
  end.

(** The body of the outer loop of [sniper_leaderboard_command]. *)
Definition value_wallet (e : env) (results : list wallet_row)
  (w : wallet_doc) : M (option (list wallet_row)) :=
  let user_name := w_username w in
  let wallet_address := wallet_address w in
  let start_usd_value := start_usd_value w in
  balances <- get_wallet_balances e wallet_address ;;
  match total_usd_of balances 0%float with
  | None => ret None
  | Some total_usd =>
      let pnl_usd := (total_usd - start_usd_value)%float in
      ret (Some (results ++ [ {| res_username := user_name;
                                 res_wallet_address := wallet_address;
                                 net_worth_usd := total_usd;
                                 pnl_usd := pnl_usd |} ]))
  end.

Definition sniper_leaderboard_command (e : env) (update : Update)
  (context : Context) : M reply :=
  let chat_id := effective_chat_id update in
  sol_price <- get_sol_price e ;;
  if (sol_price <=? 0)%float then ret LeaderboardUnavailable
  else
    all_wallets <- wallets_find (fun d => (w_chat_id d =? chat_id)%Z) ;;
    match all_wallets with
    | [] => ret NoWallets
    | _ =>
        results <- for_each_raising all_wallets [] (value_wallet e) ;;
        match results with
        | None => ret Raised
        | Some results =>
            let results := sort_by pnl_usd true results in
            ret (SniperLeaderboard (enumerate 1 (firstn 10 results)))
        end
    end.

(** [f"{sign}${abs_pnl:,.2f}"] with [sign = "+" if pnl >= 0 else "-"]. *)
Definition signed_usd (pnl : float) : str :=
  let sign := if (0 <=? pnl)%float then lit "+" else lit "-" in
  let abs_pnl := abs pnl in
  sign ++ lit "$" ++ format_2f true abs_pnl.

(** The body of the loop of [share_command], on [(lines, total_pnl)]. *)
Definition share_pick (e : env) (sol_price : float)
  (acc : list str * float) (pick : pick_doc) : M (list str * float) :=
  let (lines, total_pnl) := acc in
  let mint := mint_address pick in
  let cost_basis_usd := cost_basis_usd pick in
  let num_tokens := num_tokens pick in
  current_close_sol <- get_latest_close_price_in_sol e mint ;;
  let current_price_usd := (current_close_sol * sol_price)%float in
  let current_value_usd := (num_tokens * current_price_usd)%float in
  let pnl := (current_value_usd - cost_basis_usd)%float in
  let total_pnl := (total_pnl + pnl)%float in
  ret (lines ++ [mint ++ lit " => " ++ signed_usd pnl], total_pnl).

Definition tweet_text_of (username : str) (chat_id : Z) (lines : list str)
  (total_pnl : float) : str :=
  (username ++ lit "'s Picks (Chat " ++ str_of_int chat_id
     ++ [chr ")"; chr ":"; 10%N; 10%N])
    ++ join [10%N] lines
    ++ ([10%N; 10%N] ++ lit "Total PnL: " ++ signed_usd total_pnl ++ [10%N])
    ++ lit "Shared via #SnipeChecksBot".

Definition share_command (e : env) (update : Update) (context : Context)
  : M reply :=
  let chat_id := effective_chat_id update in
  let user_id := effective_user_id update in
  let username := username_or_anonymous update in
  user_picks <- picks_find
    (fun p => (p_chat_id p =? chat_id)%Z && (p_user_id p =? user_id)%Z) ;;
  match user_picks with
  | [] => ret NoPicksForUser
  | _ =>
      sol_price <- get_sol_price e ;;
      if (sol_price <=? 0)%float then ret ShareSolPriceError
      else
        acc <- for_each user_picks ([], 0%float) (share_pick e sol_price) ;;
        let (lines, total_pnl) := acc in
        let tweet_text := tweet_text_of username chat_id lines total_pnl in
        match quote tweet_text with
        | None => ret Raised
        | Some encoded_tweet =>
            ret (ShareLink
                   (lit "https://twitter.com/intent/tweet?text="
                      ++ encoded_tweet))
        end
  end.

Definition fallback_echo (e : env) (update : Update) (context : Context)
  : M reply := ret (Echo (message_text update)).

Definition handle_contract_address (e : env) (update : Update)
  (context : Context) : M reply :=
  let text := strip (message_text update) in
  if negb (is_valid_solana_address text) then fallback_echo e update context
  else
    let chat_id := effective_chat_id update in
    let user_id := effective_user_id update in
    let username := username_or_anonymous update in
    let mint_address := text in
    existing_pick <- picks_find_one
      (fun p => (p_chat_id p =? chat_id)%Z
                && str_eqb (Bot.mint_address p) mint_address) ;;
    match existing_pick with
    | Some _ => ret (AlreadyShilled mint_address)
    | None =>
        sol_price <- get_sol_price e ;;
        if (sol_price <=? 0)%float then ret PickSolPriceError
        else
          close_price_sol <- get_latest_close_price_in_sol e mint_address ;;
          if (close_price_sol <=? 0)%float
          then ret (InvalidClosePrice mint_address)
          else
            let cost_basis_usd := (0.5 * sol_price)%float in
            let num_tokens := (0.5 / close_price_sol)%float in
            let pick_doc := {| p_chat_id := chat_id;
                               p_user_id := user_id;
                               p_username := username;
                               mint_address := mint_address;
                               cost_basis_usd := cost_basis_usd;
                               num_tokens := num_tokens;
                               p_created_at := utcnow e |} in
            ok <- picks_insert_one pick_doc ;;
            if ok then ret (PickAdded mint_address cost_basis_usd num_tokens)
            else ret PickInsertError
    end.

(** ** Section 6 of the source: the dispatch of [main] *)

Inductive command :=
| CmdStart
| CmdHelp
| CmdLeaderboard
| CmdRegisterWallet
| CmdSniperLeaderboard
| CmdShare
| TextMessage.

Definition handler_of (c : command) : env -> Update -> Context -> M reply :=
  match c with
  | CmdStart => start_command
  | CmdHelp => help_command
  | CmdLeaderboard => leaderboard_command
  | CmdRegisterWallet => register_wallet_command
  | CmdSniperLeaderboard => sniper_leaderboard_command
  | CmdShare => share_command
  | TextMessage => handle_contract_address
  end.

(** One incoming update, with what the outside answers while it is served. *)
Record event := {
  ev_command : command;
  ev_env : env;
  ev_update : Update;
  ev_context : Context
}.

Definition serve (ev : event) : M reply :=
  handler_of (ev_command ev) (ev_env ev) (ev_update ev) (ev_context ev).

(** The world after the bot has served [evs] in order. *)
Definition run (evs : list event) (w : world) : world :=
  fold_left (fun w ev => snd (serve ev w)) evs w.

End Bot.

(* ================================================================== *)
(** * Section 4 of the source: the three requests *)
(* ================================================================== *)

Module Feed.
Import Py Bot.

(** What [requests.get], [raise_for_status] and [resp.json()] give inside the
    [try]: an exception, or the decoded body. *)
Inductive response (A : Type) :=
| Failed
| Json (data : A).

Arguments Failed {A}.
Arguments Json {A} data.

(** The object of the [sol-price] endpoint: its [solPrice] key, if present. *)
Record sol_price_json := { solPrice : option float }.

(** A candlestick: its [close] key, if present. *)
Record candle := { close : option float }.

(** The body of [get_sol_price]. *)
Definition get_sol_price (resp : response sol_price_json) : float :=
  match resp with
  | Json data =>
      match solPrice data with
      | Some price => price
      | None => 0%float
      end
  | Failed => 0%float
  end.

(** [csticks[-1]] of a list that is not empty. *)
Definition last_of (A : Type) (first : A) (rest : list A) : A :=
  last rest first.

(** The body of [get_latest_close_price_in_sol]. *)
Definition get_latest_close_price_in_sol (resp : response (list candle))
  : float :=
  match resp with
  | Json csticks =>
      match csticks with
      | [] => 0%float
      | first :: rest =>
          let latest_candle := last_of first rest in
          match close latest_candle with
          | Some c => c
          | None => 0%float
          end
      end
  | Failed => 0%float
  end.

(** The body of [get_wallet_balances]. *)
Definition get_wallet_balances (resp : response (list token_info))
  : list token_info :=
  match resp with
  | Json tokens => tokens
  | Failed => []
  end.

(** What the three endpoints answer while one handler runs, and the clock. *)
Record outside := {
  sol_price_response : response sol_price_json;
  candlesticks_response : str -> response (list candle);
  balances_response : str -> response (list token_info);
  clock : Z
}.

(** The market data the handlers see. *)
Definition env_of (o : outside) : env :=
  {| sol_price_feed := get_sol_price (sol_price_response o);
     close_price_feed :=
       fun mint => get_latest_close_price_in_sol (candlesticks_response o mint);
     balances_feed :=
       fun wallet => get_wallet_balances (balances_response o wallet);
     utcnow := clock o |}.

End Feed.


(* ================================================================== *)
(** * The words of the design *)
(* ================================================================== *)

Module Design.
Import Py Bot.

(** The results of sections 6 and 7 of the design, read off the replies. *)
Inductive outcome :=
| Done
| ValidationError
| DuplicateKey
| MarketDataUnavailable
| PersistenceError
| NoPositions.

Definition outcome_of (r : reply) : outcome :=
  match r with
  | Echo _ | InvalidAddress | Usage => ValidationError
  | AlreadyShilled _ | WalletAlreadyRegistered => DuplicateKey
  | PickSolPriceError | InvalidClosePrice _ | WalletSolPriceError
  | LeaderboardUnavailable | ShareSolPriceError => MarketDataUnavailable
  | PickInsertError | WalletInsertError | Raised => PersistenceError
  | NoPicksForUser => NoPositions
  | _ => Done
  end.

(** The base-58 alphabet: digits and letters without [0], [O], [I], [l]. *)
Definition base58_alphabet : str :=
  lit "123456789ABCDEFGHJKLMNPQRSTUVWXYZabcdefghijkmnopqrstuvwxyz".

Definition in_base58 (c : N) : bool := existsb (N.eqb c) base58_alphabet.

(** The validator's contract, section 4.1. *)
Definition address_contract (s : str) : bool :=
  ((len s =? 43)%nat || (len s =? 44)%nat) && forallb in_base58 s.

(** ** The order of binary64 numbers *)

(** A number that is not NaN, placed in the lexicographic order of triples:
    negative infinity, the negative numbers, the two zeros, the positive
    numbers, infinity. *)
Definition sf_rank (x : spec_float) : Z * Z * Z :=
  match x with
  | S754_zero _ | S754_nan => (0, 0, 0)%Z
  | S754_infinity true => (-2, 0, 0)%Z
  | S754_infinity false => (2, 0, 0)%Z
  | S754_finite true m e => (-1, - e, - Zpos m)%Z
  | S754_finite false m e => (1, e, Zpos m)%Z
  end.

Definition lt3 (a b : Z * Z * Z) : Prop :=
  let '(a1, a2, a3) := a in
  let '(b1, b2, b3) := b in
  (a1 < b1 \/ a1 = b1 /\ (a2 < b2 \/ a2 = b2 /\ a3 < b3))%Z.

Definition rank (x : float) : Z * Z * Z := sf_rank (Prim2SF x).

(** [x] is a number: [x == x] in Python. *)
Definition is_number (x : float) : Prop := is_nan x = false.

(** ** The ranking rule, section 4.5 *)

(** The stable sort of the design: each record is put behind every record
    that is not greater than it, so that records of equal key keep their
    order. *)
Fixpoint insert_by (A : Type) (lt : A -> A -> bool) (x : A) (l : list A)
  : list A :=
  match l with
  | [] => [x]
  | y :: l' => if lt x y then x :: y :: l' else y :: insert_by lt x l'
  end.

Definition stable_sort (A : Type) (lt : A -> A -> bool) (l : list A)
  : list A :=
  fold_left (fun acc x => insert_by lt x acc) l [].

(** [pnl] is non-increasing from the first rank to the last: each value is
    [>=] the next one. *)
Fixpoint non_increasing (xs : list float) : bool :=
  match xs with
  | x :: (y :: _) as rest => (y <=? x)%float && non_increasing rest
  | _ => true
  end.

(** Records of equal key stand in [out] as they stand in [input]: for every
    value, the records of [out] with that key are the first ones of [input]
    with that key, in the same order. *)
Definition ties_in_input_order (A : Type) (key : A -> float)
  (input out : list A) : Prop :=
  forall v : float, exists rest,
    filter (fun a => (key a =? v)%float) input
    = filter (fun a => (key a =? v)%float) out ++ rest.

(** The ranks of [ranked] are 1, 2, 3, ... *)
Definition ranks_from_1 (A : Type) (ranked : list (nat * A)) : Prop :=
  List.map fst ranked = seq 1 (List.length ranked).

(** ** The two valuations, section 4.4 *)

(** Token-position valuation of one stored position. *)
Definition token_valuation (e : env) (reference_price : float)
  (pick : pick_doc) : pick_row :=
  let current_unit_price_usd :=
    (close_price_feed e (mint_address pick) * reference_price)%float in
  let current_value_usd :=
    (num_tokens pick * current_unit_price_usd)%float in
  {| row_username := p_username pick;
     row_mint := mint_address pick;
     row_cost_basis_usd := cost_basis_usd pick;
     row_current_price_usd := current_unit_price_usd;
     row_pnl := (current_value_usd - cost_basis_usd pick)%float |}.

(** The sum of a list of floats, taken from the left and from [0.0]. *)
Definition float_sum (xs : list float) : float :=
  fold_left (fun total x => (total + x)%float) xs 0%float.

(** A holding of the snapshot: its quantity and its unit value. *)
Definition quantity (t : token_info) : json := get_or_0 (balance t).
Definition unit_value (t : token_info) : json := get_or_0 (value t).

(** [quantity_i * unit_value_i] as a float, when the two are numbers and
    their product has a float: the worth of one holding. *)
Definition worth (t : token_info) : option float :=
  match mul (quantity t) (unit_value t) with
  | Some product => to_float product
  | None => None
  end.

(** The values of a list of options, when all of them are there. *)
Fixpoint all_of (A : Type) (l : list (option A)) : option (list A) :=
  match l with
  | [] => Some []
  | Some a :: l' =>
      match all_of l' with
      | Some rest => Some (a :: rest)
      | None => None
      end
  | None :: _ => None
  end.

(** [net_worth_usd]: the sum of [quantity_i * unit_value_i], when every
    holding has a worth. *)
Definition net_worth (holdings : list token_info) : option float :=
  match all_of (List.map worth holdings) with
  | Some worths => Some (float_sum worths)
  | None => None
  end.

(** Wallet-entry valuation of one registered wallet. *)
Definition wallet_valuation (e : env) (w : wallet_doc) : option wallet_row :=
  match net_worth (balances_feed e (wallet_address w)) with
  | Some net_worth_usd =>
      Some {| res_username := w_username w;
              res_wallet_address := wallet_address w;
              net_worth_usd := net_worth_usd;
              pnl_usd := (net_worth_usd - start_usd_value w)%float |}
  | None => None
  end.

(** The valuations of the wallets of a pass, in order, when every wallet
    has one. *)
Definition wallet_valuations (e : env) (wallets : list wallet_doc)
  : option (list wallet_row) :=
  all_of (List.map (wallet_valuation e) wallets).

(** The wallets whose holdings a pass asks for: all of them, or the ones up
    to the first that has no valuation, that one included. *)
Fixpoint wallets_read (e : env) (wallets : list wallet_doc)
  : list wallet_doc :=
  match wallets with
  | [] => []
  | d :: rest =>
      d :: match wallet_valuation e d with
           | Some _ => wallets_read e rest
           | None => []
           end
  end.

(** ** The ledger *)

(** The world after some more market-data reads. *)
Definition after_reads (rs : list read) (w : world) : world :=
  {| picks_collection := picks_collection w;
     wallets_collection := wallets_collection w;
     reads := reads w ++ rs |}.

(** The position of [chat_id] for the token [mint], if one is stored. *)
Definition stored_pick (chat_id : Z) (mint : str) (w : world)
  : option pick_doc :=
  find (fun p => (p_chat_id p =? chat_id)%Z && str_eqb (mint_address p) mint)
       (picks_collection w).

Definition stored_wallet (chat_id : Z) (wallet : str) (w : world)
  : option wallet_doc :=
  find (fun d => (w_chat_id d =? chat_id)%Z
                 && str_eqb (wallet_address d) wallet)
       (wallets_collection w).

(** The uniqueness invariant of section 3 on the stored positions. *)
Definition unique_picks (w : world) : Prop :=
  NoDup (List.map (fun p => (p_chat_id p, mint_address p))
           (picks_collection w)).

Definition picks_of_chat (chat_id : Z) (w : world) : list pick_doc :=
  filter (fun p => (p_chat_id p =? chat_id)%Z) (picks_collection w).

Definition wallets_of_chat (chat_id : Z) (w : world) : list wallet_doc :=
  filter (fun d => (w_chat_id d =? chat_id)%Z) (wallets_collection w).

Definition picks_of_user (chat_id user_id : Z) (w : world) : list pick_doc :=
  filter (fun p => (p_chat_id p =? chat_id)%Z && (p_user_id p =? user_id)%Z)
         (picks_collection w).

(** The position that [handle_contract_address] builds for an update. *)
Definition entry_of (e : env) (update : Update) : pick_doc :=
  let mint := strip (message_text update) in
  {| p_chat_id := effective_chat_id update;
     p_user_id := effective_user_id update;
     p_username := username_or_anonymous update;
     mint_address := mint;
     cost_basis_usd := (0.5 * sol_price_feed e)%float;
     num_tokens := (0.5 / close_price_feed e mint)%float;
     p_created_at := utcnow e |}.

(** The wallet entry that [register_wallet_command] builds. *)
Definition registration_of (e : env) (update : Update) (wallet : str)
  : wallet_doc :=
  {| w_chat_id := effective_chat_id update;
     w_user_id := effective_user_id update;
     w_username := username_or_anonymous update;
     wallet_address := wallet;
     start_usd_value := (0.5 * sol_price_feed e)%float;
     w_created_at := utcnow e |}.

Definition add_pick (doc : pick_doc) (w : world) : world :=
  {| picks_collection := picks_collection w ++ [doc];
     wallets_collection := wallets_collection w;
     reads := reads w |}.

Definition add_wallet (doc : wallet_doc) (w : world) : world :=
  {| picks_collection := picks_collection w;
     wallets_collection := wallets_collection w ++ [doc];
     reads := reads w |}.

(** The text that [share_command] encodes. *)
Definition share_text (e : env) (update : Update) (user_picks : list pick_doc)
  : str :=
  let pnls :=
    List.map (fun p => row_pnl (token_valuation e (sol_price_feed e) p))
             user_picks in
  tweet_text_of (username_or_anonymous update) (effective_chat_id update)
    (List.map (fun p => mint_address p ++ lit " => "
                 ++ signed_usd
                      (row_pnl (token_valuation e (sol_price_feed e) p)))
              user_picks)
    (float_sum pnls).

(** The [pnl] column of a leaderboard reply, from the first rank down. *)
Definition ranked_pnls (r : reply) : list float :=
  match r with
  | Leaderboard ranked => List.map (fun item => row_pnl (snd item)) ranked
  | SniperLeaderboard ranked =>
      List.map (fun item => pnl_usd (snd item)) ranked
  | _ => []
  end.

(** ** The share link, section 4.6 *)

(** The reserved characters of a URL (RFC 3986): the general and the
    sub-delimiters. *)
Definition reserved : str := lit ":/?#[]@!$&'()*+,;=".

(** A code point that UTF-8 encodes: a Unicode scalar value. *)
Definition is_scalar (c : N) : bool :=
  ((c <? 55296) || ((57343 <? c) && (c <? 1114112)))%N.

(** One line of the share text: [<identifier> => <signed-$-amount>]. *)
Definition share_line (identifier : str) (pnl : float) : str :=
  identifier ++ lit " => " ++ signed_usd pnl.

Definition share_prefix : str := lit "https://twitter.com/intent/tweet?text=".

(** *** The text, line by line *)

(** [<signed-$-amount>]: an explicit sign, [$], and the amount without its
    sign, with thousands separators and two decimals. *)
Definition signed_amount (x : float) : str :=
  [if (0 <=? x)%float then chr "+" else chr "-"; chr "$"]
    ++ format_2f true (abs x).

Definition heading (username : str) (chat_id : Z) : str :=
  username ++ lit "'s Picks (Chat " ++ str_of_int chat_id ++ lit "):".

(** [<identifier> => <signed-$-amount>] *)
Definition position_line (position : str * float) : str :=
  fst position ++ lit " => " ++ signed_amount (snd position).

(** The total of the positions' [pnl]. *)
Definition total_line (positions : list (str * float)) : str :=
  lit "Total PnL: " ++ signed_amount (float_sum (List.map snd positions)).

Definition closing_line : str := lit "Shared via #SnipeChecksBot".

(** The lines of the share text of a user with the positions
    [(identifier, pnl)]: the heading, an empty line, one line per position,
    an empty line, the total and the closing line. *)
Definition share_lines (username : str) (chat_id : Z)
  (positions : list (str * float)) : list str :=
  [heading username chat_id; []]
    ++ List.map position_line positions
    ++ [[]; total_line positions; closing_line].

(** A text from its lines: a newline between one line and the next. *)
Fixpoint unlines (lines : list str) : str :=
  match lines with
  | [] => []
  | [line] => line
  | line :: rest => line ++ 10%N :: unlines rest
  end.

(** *** Percent-encoding (RFC 3986, section 2) *)

(** The unreserved characters. *)
Definition unreserved : str :=
  lit "ABCDEFGHIJKLMNOPQRSTUVWXYZabcdefghijklmnopqrstuvwxyz0123456789-._~".

Definition hex_digits : str := lit "0123456789ABCDEF".

(** The escape [%XX] of a byte. *)
Definition escape (b : N) : str :=
  [chr "%"; nth (N.to_nat (b / 16)) hex_digits 0%N;
   nth (N.to_nat (b mod 16)) hex_digits 0%N].

(** The bytes of a text, percent-encoded: an unreserved character and a
    character of [kept] stand for themselves, every other byte is
    escaped. *)
Definition percent_encode (kept : str) (bytes : list N) : str :=
  flat_map
    (fun b => if existsb (N.eqb b) unreserved || existsb (N.eqb b) kept
              then [b] else escape b)
    bytes.

(** The value of a hexadecimal digit. *)
Definition hex_value (c : N) : option N :=
  (if (48 <=? c) && (c <=? 57) then Some (c - 48)
   else if (65 <=? c) && (c <=? 70) then Some (c - 55)
   else if (97 <=? c) && (c <=? 102) then Some (c - 87)
   else None)%N.

(** The bytes that an encoded text stands for; [None] when a [%] is not
    followed by two hexadecimal digits. *)
Fixpoint percent_decode (s : str) : option (list N) :=
  match s with
  | [] => Some []
  | c :: rest =>
      if (c =? chr "%")%N then
        match rest with
        | h :: l :: rest' =>
            match hex_value h, hex_value l, percent_decode rest' with
            | Some x, Some y, Some bytes => Some ((16 * x + y)%N :: bytes)
            | _, _, _ => None
            end
        | _ => None
        end
      else
        match percent_decode rest with
        | Some bytes => Some (c :: bytes)
        | None => None
        end
  end.

(** ** What the ledger holds *)

(** No wallet is registered twice in a chat. *)
Definition unique_wallets (w : world) : Prop :=
  NoDup (List.map (fun d => (w_chat_id d, wallet_address d))
           (wallets_collection w)).

Definition stored_address_ok (address username : str) : Prop :=
  address_contract address = true /\ username <> [].

(** Every stored address is 43 or 44 base-58 characters long and every
    stored user name is not empty. *)
Definition well_formed (w : world) : Prop :=
  Forall (fun p => stored_address_ok (mint_address p) (p_username p))
         (picks_collection w) /\
  Forall (fun d => stored_address_ok (wallet_address d) (w_username d))
         (wallets_collection w).

(** The updates of [evs] that come from the chat [chat_id]. *)
Definition from_chat (chat_id : Z) (ev : event) : bool :=
  (effective_chat_id (ev_update ev) =? chat_id)%Z.

End Design.

(* ================================================================== *)
(** * Concrete worlds for the scenarios of section 8 *)
(* ================================================================== *)

Module Scenario.
Import Py Bot.

Definition mint_a : str := lit "So11111111111111111111111111111111111111112".
Definition mint_b : str := lit "EPjFWdd5AufqSSqeM2qN1xzybapC8G4wEGGkZwyTDt1v".
Definition wallet_a : str :=
  lit "9WzDXwBbmkg8ZTbNMqUxvQRAyrZzDsGYdLVL9zYtAWWM".

Definition empty_world : world :=
  {| picks_collection := []; wallets_collection := []; reads := [] |}.

(** A market with reference price [sol], trade price [close] for [mint_a],
    [0.0001] for [mint_b], and [holdings] in every wallet. *)
Definition market (sol close : float) (holdings : list token_info) : env :=
  {| sol_price_feed := sol;
     close_price_feed :=
       fun mint => if str_eqb mint mint_a then close
                   else if str_eqb mint mint_b then 0.0001%float
                   else 0%float;
     balances_feed := fun _ => holdings;
     utcnow := 1700000000 |}.

(** An update of user 7 (named [name]) in chat [-1001]. *)
Definition message (name : string) (text : str) : Update :=
  {| effective_chat_id := -1001;
     effective_user_id := 7;
     effective_username := Some (lit name);
     message_text := text |}.

Definition no_args : Context := {| args := [] |}.

(** A holding whose answer has both numbers with a fraction. *)
Definition holding (q v : float) : token_info :=
  {| value := Some (JFloat v); balance := Some (JFloat q) |}.

(** A holding whose answer has a whole number of tokens. *)
Definition units (n : Z) (v : float) : token_info :=
  {| value := Some (JFloat v); balance := Some (JInt n) |}.

(** The world after [mint_a] was shilled at reference price 150 and trade
    price [close]. *)
Definition shilled_a (close : float) : world :=
  snd (handle_contract_address (market 150 close []) (message "ana" mint_a)
         no_args empty_world).

(** The same, with [mint_b] shilled next at trade price 0.0001. *)
Definition shilled_a_b (close : float) : world :=
  snd (handle_contract_address (market 150 close []) (message "bob" mint_b)
         no_args (shilled_a close)).

(** The world after [wallet_a] was registered at reference price 150. *)
Definition registered_a : world :=
  snd (register_wallet_command (market 150 0 []) (message "ana" [])
         {| args := [wallet_a] |} empty_world).

(** An update of user 9 (named [name]) in another chat, [2002]. *)
Definition elsewhere (name : string) (text : str) : Update :=
  {| effective_chat_id := 2002;
     effective_user_id := 9;
     effective_username := Some (lit name);
     message_text := text |}.

(** [mint_a] shilled in chat [2002]. *)
Definition shilled_elsewhere : world :=
  snd (handle_contract_address (market 150 0.0001 []) (elsewhere "cy" mint_a)
         no_args empty_world).

Definition text_event (e : env) (update : Update) : event :=
  {| ev_command := TextMessage;
     ev_env := e;
     ev_update := update;
     ev_context := no_args |}.

(** Endpoints that answer: reference price [sol], the given candles for
    every mint, the given holdings for every wallet. *)
Definition answers (sol : Feed.response Feed.sol_price_json)
  (candles : Feed.response (list Feed.candle))
  (holdings : Feed.response (list token_info)) : Feed.outside :=
  {| Feed.sol_price_response := sol;
     Feed.candlesticks_response := fun _ => candles;
     Feed.balances_response := fun _ => holdings;
     Feed.clock := 1700000000 |}.

Definition price (p : float) : Feed.response Feed.sol_price_json :=
  Feed.Json {| Feed.solPrice := Some p |}.

Definition closing (c : float) : Feed.candle := {| Feed.close := Some c |}.

End Scenario.

Import Py Bot Design Scenario.

(* ================================================================== *)
(** * The address validator *)
(* ================================================================== *)

Section Validator.

Let ranges : list (ascii * ascii) :=
  [("1", "9"); ("A", "H"); ("J", "N"); ("P", "Z"); ("a", "k"); ("m", "z")]%char.

Lemma in_set_base58 (c : N) : in_set ranges c = in_base58 c.
Proof.
  destruct (N.ltb_spec c 123) as [Hlt | Hge].
  - assert (Hall : forallb (fun n => Bool.eqb (in_set ranges (N.of_nat n))
                                      (in_base58 (N.of_nat n)))
                     (seq 0 123) = true) by (vm_compute; reflexivity).
    rewrite forallb_forall in Hall.
    specialize (Hall (N.to_nat c)).
    rewrite N2Nat.id in Hall. apply Bool.eqb_prop, Hall.
    apply in_seq. lia.
  - transitivity false.
    + unfold in_set, ranges, chr. cbn [existsb fst snd N_of_ascii N_of_digits].
      repeat match goal with
             | |- context [(?a <=? ?b)%N] =>
                 destruct (N.leb_spec a b); try lia
             end; reflexivity.
    + symmetry. unfold in_base58. apply not_true_is_false. intros H.
      apply existsb_exists in H. destruct H as [x [Hin Hx]].
      apply N.eqb_eq in Hx. subst x.
      assert (Hb : forallb (fun x => (x <? 123)%N) base58_alphabet = true)
        by (vm_compute; reflexivity).
      rewrite forallb_forall in Hb. apply Hb in Hin.
      apply N.ltb_lt in Hin. lia.
Qed.

Lemma newline_not_base58 : in_base58 10 = false.
Proof. reflexivity. Qed.


(** The loop of [[..]+] followed by [$]: the subject is in the set
    throughout, or is so up to one final newline. *)
Lemma plus_eol_spec (c : N) (rest : str) :
  match_here [PlusSet ranges; Eol] false (c :: rest) = true <->
  in_base58 c = true /\
  (forallb in_base58 rest = true \/
   exists body, rest = body ++ [10%N] /\ forallb in_base58 body = true).
Proof.
  cbn [match_here]. rewrite in_set_base58, andb_true_iff.
  apply and_iff_compat_l.
  induction rest as [| d rest IH].
  - cbn. split; auto.
  - rewrite orb_true_iff, andb_true_iff, IH, in_set_base58.
    rewrite andb_true_r. cbn [forallb]. rewrite andb_true_iff. split.
    + intros [[Hd [H | [body [-> H]]]] | H].
      * now left.
      * right. exists (d :: body). cbn [app forallb]. now rewrite Hd, H.
      * destruct rest; [| discriminate]. cbn in H. apply N.eqb_eq in H.
        subst d. right. now exists [].
    + intros [[Hd H] | [body [E H]]].
      * left. auto.
      * destruct body as [| b body]; cbn in E; injection E as -> ->.
        -- now right.
        -- cbn [forallb] in H. apply andb_true_iff in H. destruct H as [Hd H].
           left. split; [assumption |]. right. now exists body.
Qed.

Lemma forallb_app_nl (body : str) :
  forallb in_base58 (body ++ [10%N]) = false.
Proof.
  rewrite forallb_app. cbn. now rewrite andb_false_r.
Qed.

(** What [re.match(pattern, s)] accepts. *)
Lemma re_match_pattern_spec (s : str) :
  re_match pattern s = true <->
  s <> [] /\
  (forallb in_base58 s = true \/
   exists body, s = body ++ [10%N] /\ body <> [] /\
                forallb in_base58 body = true).
Proof.
  unfold re_match, pattern. fold ranges.
  change (match_here (Bol :: ?r) true s)
    with (true && match_here r true s).
  cbn [andb].
  destruct s as [| c rest].
  - cbn. split; [discriminate | intros [H _]; now elim H].
  - change (match_here [PlusSet ranges; Eol] true (c :: rest))
      with (match_here [PlusSet ranges; Eol] false (c :: rest)).
    rewrite plus_eol_spec. cbn [forallb]. rewrite andb_true_iff. split.
    + intros [Hc [H | [body [-> H]]]].
      * split; [discriminate | left; auto].
      * split; [discriminate |]. right. exists (c :: body).
        repeat split; [discriminate |]. cbn [forallb]. now rewrite Hc, H.
    + intros [_ [[Hc H] | [body [E [Hne H]]]]].
      * auto.
      * destruct body as [| b body]; [now elim Hne |].
        cbn in E. injection E as -> ->. cbn [forallb] in H.
        apply andb_true_iff in H. destruct H as [Hc H].
        split; [assumption |]. right. now exists body.
Qed.

Lemma len_43_44 (s : str) :
  existsb (Nat.eqb (len s)) [43; 44]%nat = true <-> len s = 43 \/ len s = 44.
Proof.
  cbn [existsb]. rewrite orb_false_r, orb_true_iff, !Nat.eqb_eq. tauto.
Qed.

(** What the validator accepts: the strings of the contract, and besides
    them 42 or 43 base-58 characters followed by a newline. *)
Lemma is_valid_solana_address_spec (s : str) :
  is_valid_solana_address s = true <->
  address_contract s = true \/
  exists body, s = body ++ [10%N] /\ (len body = 42 \/ len body = 43) /\
               forallb in_base58 body = true.
Proof.
  unfold is_valid_solana_address, address_contract.
  rewrite andb_true_iff, orb_true_iff, !Nat.eqb_eq.
  destruct (existsb (Nat.eqb (len s)) [43; 44]%nat) eqn:Hlen; cbn [negb].
  - apply len_43_44 in Hlen. rewrite re_match_pattern_spec. split.
    + intros [_ [H | [body [-> [_ H]]]]]; [left; auto |].
      right. exists body. repeat split; [| assumption].
      unfold len in *. rewrite length_app in Hlen. cbn in Hlen. lia.
    + intros [[_ H] | [body [-> [Hb H]]]].
      * split; [| now left]. intros ->. destruct Hlen; discriminate.
      * split; [now destruct body |]. right. exists body.
        repeat split; [| assumption]. intros ->. destruct Hb; discriminate.
  - split; [discriminate |].
    intros [[Hl _] | [body [-> [Hb _]]]].
    + apply len_43_44 in Hl. congruence.
    + assert (existsb (Nat.eqb (len (body ++ [10%N]))) [43; 44]%nat = true).
      { apply len_43_44. unfold len in *. rewrite length_app. cbn. lia. }
      congruence.
Qed.

Lemma lstrip_head (s : str) (c : N) (rest : str) :
  lstrip s = c :: rest -> isspace c = false.
Proof.
  induction s as [| d s IH]; cbn [lstrip]; [discriminate |].
  destruct (isspace d) eqn:Hd; [assumption |].
  intros E. injection E as -> _. assumption.
Qed.

(** A stripped string does not end in white space. *)
Lemma strip_last (t : str) (body : str) (c : N) :
  strip t = body ++ [c] -> isspace c = false.
Proof.
  unfold strip. intros E.
  apply (f_equal (@rev N)) in E.
  rewrite rev_involutive, rev_app_distr in E. cbn in E.
  eapply lstrip_head, E.
Qed.

(** On the stripped texts the handlers pass, the validator is the contract. *)
Lemma is_valid_solana_address_stripped (t : str) :
  is_valid_solana_address (strip t) = address_contract (strip t).
Proof.
  apply eq_true_iff_eq. rewrite is_valid_solana_address_spec. split.
  - intros [H | [body [E _]]]; [assumption |].
    apply strip_last in E. discriminate.
  - now left.
Qed.

End Validator.

(* ================================================================== *)
(** * Comparisons of binary64 numbers *)
(* ================================================================== *)

Section FloatOrder.

Lemma SFcompare_rank (x y : spec_float) :
  x <> S754_nan -> y <> S754_nan ->
  exists c, SFcompare x y = Some c /\
    (c = Lt <-> lt3 (sf_rank x) (sf_rank y)) /\
    (c = Eq <-> sf_rank x = sf_rank y) /\
    (c = Gt <-> lt3 (sf_rank y) (sf_rank x)).
Proof.
  intros Hx Hy.
  destruct x as [sx | sx | | sx mx ex]; [| | now elim Hx |];
  destruct y as [sy | sy | | sy my ey]; try (now elim Hy);
  try destruct sx; try destruct sy; cbn [SFcompare sf_rank lt3];
  try (eexists; split; [reflexivity |];
       repeat split; intros; try discriminate; try lia; congruence).
  - change (Pos.compare_cont Eq mx my) with (Pos.compare mx my).
    destruct (Z.compare_spec ex ey) as [E | E | E];
      [ destruct (Pos.compare_spec mx my) as [F | F | F] | | ];
      (eexists; split; [reflexivity |]; cbn [CompOpp];
       repeat split; intros H; try discriminate; try lia;
       try (injection H; lia); try (subst; reflexivity)).
  - change (Pos.compare_cont Eq mx my) with (Pos.compare mx my).
    destruct (Z.compare_spec ex ey) as [E | E | E];
      [ destruct (Pos.compare_spec mx my) as [F | F | F] | | ];
      (eexists; split; [reflexivity |]; cbn [CompOpp];
       repeat split; intros H; try discriminate; try lia;
       try (injection H; lia); try (subst; reflexivity)).
Qed.

End FloatOrder.

Section PrimOrder.

Open Scope float_scope.

Lemma is_number_spec (x : float) : is_number x <-> Prim2SF x <> S754_nan.
Proof.
  unfold is_number, is_nan. rewrite FloatAxioms.eqb_spec, negb_false_iff. unfold SFeqb.
  split.
  - intros H E. rewrite E in H. discriminate.
  - intros H. destruct (SFcompare_rank H H) as [c [-> [_ [[_ E] _]]]].
    now rewrite (E eq_refl).
Qed.

Lemma ltb_rank (x y : float) :
  is_number x -> is_number y ->
  ((x <? y) = true <-> lt3 (rank x) (rank y)).
Proof.
  rewrite !is_number_spec, FloatAxioms.ltb_spec. unfold SFltb, rank. intros Hx Hy.
  destruct (SFcompare_rank Hx Hy) as [c [-> [[L1 L2] _]]].
  split; [| intros H; now rewrite (L2 H)].
  destruct c; try discriminate. auto.
Qed.

Lemma eqb_rank (x y : float) :
  is_number x -> is_number y ->
  ((x =? y) = true <-> rank x = rank y).
Proof.
  rewrite !is_number_spec, FloatAxioms.eqb_spec. unfold SFeqb, rank. intros Hx Hy.
  destruct (SFcompare_rank Hx Hy) as [c [-> [_ [[L1 L2] _]]]].
  split; [| intros H; now rewrite (L2 H)].
  destruct c; try discriminate. auto.
Qed.

Lemma leb_rank (x y : float) :
  is_number x -> is_number y ->
  ((x <=? y) = true <-> lt3 (rank x) (rank y) \/ rank x = rank y).
Proof.
  rewrite !is_number_spec, FloatAxioms.leb_spec. unfold SFleb, rank. intros Hx Hy.
  destruct (SFcompare_rank Hx Hy) as [c [-> [[L1 L2] [[E1 E2] _]]]].
  split.
  - destruct c; try discriminate; auto.
  - intros [H | H]; [now rewrite (L2 H) | now rewrite (E2 H)].
Qed.

(** A comparison with NaN is false. *)
Lemma ltb_numbers (x y : float) :
  (x <? y) = true -> is_number x /\ is_number y.
Proof.
  rewrite !is_number_spec, FloatAxioms.ltb_spec. unfold SFltb.
  destruct (Prim2SF x), (Prim2SF y); cbn; try discriminate;
    intros _; split; discriminate.
Qed.

Lemma leb_numbers (x y : float) :
  (x <=? y) = true -> is_number x /\ is_number y.
Proof.
  rewrite !is_number_spec, FloatAxioms.leb_spec. unfold SFleb.
  destruct (Prim2SF x), (Prim2SF y); cbn; try discriminate;
    intros _; split; discriminate.
Qed.

Lemma eqb_numbers (x y : float) :
  (x =? y) = true -> is_number x /\ is_number y.
Proof.
  rewrite !is_number_spec, FloatAxioms.eqb_spec. unfold SFeqb.
  destruct (Prim2SF x), (Prim2SF y); cbn; try discriminate;
    intros _; split; discriminate.
Qed.

Lemma lt3_irrefl (a : Z * Z * Z) : lt3 a a -> False.
Proof. destruct a as [[a1 a2] a3]. cbn. lia. Qed.

Lemma lt3_trans (a b c : Z * Z * Z) : lt3 a b -> lt3 b c -> lt3 a c.
Proof.
  destruct a as [[a1 a2] a3], b as [[b1 b2] b3], c as [[c1 c2] c3].
  cbn. lia.
Qed.

Lemma lt3_total (a b : Z * Z * Z) : lt3 a b \/ a = b \/ lt3 b a.
Proof.
  destruct a as [[a1 a2] a3], b as [[b1 b2] b3]. cbn.
  destruct (Z.lt_total a1 b1) as [H | [H | H]];
  destruct (Z.lt_total a2 b2) as [H2 | [H2 | H2]];
  destruct (Z.lt_total a3 b3) as [H3 | [H3 | H3]]; subst;
    try (left; lia); try (right; right; lia); right; left; reflexivity.
Qed.

(** [x > 0] in Python excludes [x <= 0]. *)
Lemma ltb_not_leb (x y : float) : (x <? y) = true -> (y <=? x) = false.
Proof.
  intros H. destruct (ltb_numbers H) as [Hx Hy].
  apply (ltb_rank Hx Hy) in H. apply not_true_is_false. intros L.
  apply (leb_rank Hy Hx) in L. destruct L as [L | L].
  - exact (@lt3_irrefl _ (@lt3_trans _ _ _ H L)).
  - rewrite L in H. exact (@lt3_irrefl _ H).
Qed.

(** Among numbers, [not (x < y)] is [y <= x]. *)
Lemma not_ltb_leb (x y : float) :
  is_number x -> is_number y -> (x <? y) = false -> (y <=? x) = true.
Proof.
  intros Hx Hy H. apply (leb_rank Hy Hx).
  destruct (lt3_total (rank x) (rank y)) as [L | [L | L]]; auto.
  apply (ltb_rank Hx Hy) in L. congruence.
Qed.

Lemma not_ltb_trans (x y z : float) :
  is_number x -> is_number y -> is_number z ->
  (y <? x) = false -> (z <? y) = false -> (z <? x) = false.
Proof.
  intros Hx Hy Hz H1 H2. apply not_true_is_false. intros H.
  apply (ltb_rank Hz Hx) in H.
  destruct (lt3_total (rank y) (rank x)) as [L | [L | L]].
  - apply (ltb_rank Hy Hx) in L. congruence.
  - rewrite <- L in H. apply (ltb_rank Hz Hy) in H. congruence.
  - pose proof (@lt3_trans _ _ _ H L) as L'.
    apply (ltb_rank Hz Hy) in L'. congruence.
Qed.

Lemma eqb_not_ltb (x y : float) :
  (x =? y) = true -> (x <? y) = false /\ (y <? x) = false.
Proof.
  intros H. destruct (eqb_numbers H) as [Hx Hy].
  apply (eqb_rank Hx Hy) in H.
  split; apply not_true_is_false; intros L;
    [apply (ltb_rank Hx Hy) in L | apply (ltb_rank Hy Hx) in L];
    rewrite H in L; exact (@lt3_irrefl _ L).
Qed.

(** [==] is transitive and symmetric, and [<] respects it. *)
Lemma eqb_trans (x y z : float) :
  (x =? y) = true -> (y =? z) = true -> (x =? z) = true.
Proof.
  intros H1 H2.
  destruct (eqb_numbers H1) as [Hx Hy].
  destruct (eqb_numbers H2) as [_ Hz].
  apply (eqb_rank Hx Hy) in H1. apply (eqb_rank Hy Hz) in H2.
  apply (eqb_rank Hx Hz). congruence.
Qed.

Lemma eqb_sym (x y : float) : (x =? y) = (y =? x).
Proof.
  apply eq_true_iff_eq. split; intros H;
    destruct (eqb_numbers H) as [Hx Hy];
    [apply (eqb_rank Hy Hx); apply (eqb_rank Hx Hy) in H
    |apply (eqb_rank Hy Hx); apply (eqb_rank Hx Hy) in H]; congruence.
Qed.

Lemma ltb_eqb_false (x y : float) : (x <? y) = true -> (x =? y) = false.
Proof.
  intros H. apply not_true_is_false. intros E.
  apply eqb_not_ltb in E. destruct E. congruence.
Qed.

Lemma ltb_leb_trans (x y z : float) :
  is_number z -> (x <? y) = true -> (z <? y) = false -> (x <? z) = true.
Proof.
  intros Hz H1 H2. destruct (ltb_numbers H1) as [Hx Hy].
  apply (ltb_rank Hx Hz). apply (ltb_rank Hx Hy) in H1.
  destruct (lt3_total (rank z) (rank y)) as [L | [L | L]].
  - apply (ltb_rank Hz Hy) in L. congruence.
  - now rewrite L.
  - exact (@lt3_trans _ _ _ H1 L).
Qed.

End PrimOrder.

(* ================================================================== *)
(** * The stable sort *)
(* ================================================================== *)

Section StronglySortedFacts.

Variable A : Type.
Variable R : A -> A -> Prop.

Lemma StronglySorted_app (l1 l2 : list A) :
  StronglySorted R (l1 ++ l2) <->
  StronglySorted R l1 /\ StronglySorted R l2 /\
  (forall a b, In a l1 -> In b l2 -> R a b).
Proof.
  induction l1 as [| x l1 IH]; cbn [app].
  - split.
    + intros H. repeat split; [constructor | assumption | intros a b []].
    + tauto.
  - split.
    + intros H. apply StronglySorted_inv in H. destruct H as [H F].
      apply IH in H. destruct H as [H1 [H2 H3]].
      rewrite Forall_app in F. destruct F as [F1 F2].
      repeat split; [constructor; assumption | assumption |].
      intros a b [<- | Ha] Hb; [| auto].
      rewrite Forall_forall in F2. auto.
    + intros [H1 [H2 H3]]. apply StronglySorted_inv in H1.
      destruct H1 as [H1 F1]. constructor.
      * apply IH. repeat split; auto. intros a b Ha Hb. apply H3; cbn; auto.
      * apply Forall_app. split; [assumption |].
        apply Forall_forall. intros b Hb. apply H3; cbn; auto.
Qed.

Lemma StronglySorted_firstn (n : nat) (l : list A) :
  StronglySorted R l -> StronglySorted R (firstn n l).
Proof.
  intros H. rewrite <- (firstn_skipn n l) in H.
  apply StronglySorted_app in H. tauto.
Qed.

End StronglySortedFacts.

Lemma StronglySorted_rev (A : Type) (R : A -> A -> Prop) (l : list A) :
  StronglySorted R l -> StronglySorted (fun a b => R b a) (rev l).
Proof.
  induction 1 as [| x l Hl IH F]; cbn [rev]; [constructor |].
  apply StronglySorted_app. repeat split.
  - assumption.
  - repeat constructor.
  - intros a b Ha [<- | []]. apply in_rev in Ha.
    rewrite Forall_forall in F. auto.
Qed.

Lemma filter_none (A : Type) (f : A -> bool) (l : list A) :
  Forall (fun a => f a = false) l -> filter f l = [].
Proof.
  induction 1 as [| a l Ha _ IH]; cbn [filter]; [reflexivity |].
  now rewrite Ha.
Qed.

Section StableSort.

Variable A : Type.
Variable key : A -> float.

Let lt (a b : A) : bool := (key a <? key b)%float.
Let eqv (v : float) (a : A) : bool := (key a =? v)%float.

(** Ascending, as the sort sees it: no later element is less than an
    earlier one. *)
Let asc : list A -> Prop := StronglySorted (fun a b => lt b a = false).

Let numbers : list A -> Prop := Forall (fun a => is_number (key a)).

Lemma insert_by_perm (x : A) (l : list A) :
  Permutation (insert_by lt x l) (x :: l).
Proof.
  induction l as [| y l IH]; cbn [insert_by]; [reflexivity |].
  destruct (lt x y); [reflexivity |].
  rewrite IH. apply perm_swap.
Qed.

Lemma stable_sort_perm_acc (l acc : list A) :
  Permutation (fold_left (fun acc x => insert_by lt x acc) l acc) (acc ++ l).
Proof.
  revert acc. induction l as [| x l IH]; intros acc; cbn [fold_left].
  - now rewrite app_nil_r.
  - rewrite IH, insert_by_perm. apply Permutation_middle.
Qed.

Lemma stable_sort_perm (l : list A) : Permutation (stable_sort lt l) l.
Proof. apply (stable_sort_perm_acc l []). Qed.

(** Behind the place where [x] is inserted, everything is greater. *)
Lemma lt_head_lt_all (x y : A) (l : list A) :
  numbers (y :: l) -> asc (y :: l) -> lt x y = true ->
  Forall (fun z => lt x z = true) (y :: l).
Proof.
  unfold numbers, asc. intros Hn Ha Hxy. apply StronglySorted_inv in Ha. destruct Ha as [_ F].
  constructor; [assumption |].
  apply Forall_forall. intros z Hz. rewrite Forall_forall in F, Hn.
  unfold lt in *. eapply ltb_leb_trans; [| exact Hxy | now apply F].
  apply Hn. now right.
Qed.

Lemma insert_by_asc (x : A) (l : list A) :
  numbers l -> asc l -> asc (insert_by lt x l).
Proof.
  intros Hn Ha. induction l as [| y l IH]; cbn [insert_by].
  - unfold asc. repeat constructor.
  - destruct (lt x y) eqn:Hxy.
    + constructor; [assumption |].
      pose proof (lt_head_lt_all Hn Ha Hxy) as F.
      eapply Forall_impl; [| exact F]. cbn. intros z Hz. unfold lt in *.
      apply not_true_is_false. intros Hzx.
      destruct (ltb_numbers Hz) as [Nx Nz].
      apply (ltb_rank Nx Nz) in Hz. apply (ltb_rank Nz Nx) in Hzx.
      exact (@lt3_irrefl _ (@lt3_trans _ _ _ Hz Hzx)).
    + apply StronglySorted_inv in Ha. destruct Ha as [Ha F].
      apply Forall_inv_tail in Hn as Hn'.
      constructor; [now apply IH |].
      eapply Permutation_Forall;
        [symmetry; apply insert_by_perm | now constructor].
Qed.

(** The insertion is stable: [x] goes behind the elements of its key. *)
Lemma insert_by_filter (v : float) (x : A) (l : list A) :
  numbers l -> asc l ->
  filter (eqv v) (insert_by lt x l) = filter (eqv v) l ++ filter (eqv v) [x].
Proof.
  intros Hn Ha. induction l as [| y l IH]; cbn [insert_by].
  - reflexivity.
  - destruct (lt x y) eqn:Hxy.
    + cbn [filter]. destruct (eqv v x) eqn:Hx;
        [| now rewrite app_nil_r].
      pose proof (lt_head_lt_all Hn Ha Hxy) as F.
      assert (E : filter (eqv v) (y :: l) = []).
      { apply filter_none. eapply Forall_impl; [| exact F].
        cbn. intros z Hz. unfold lt, eqv in *.
        apply not_true_is_false. intros Hzv.
        rewrite eqb_sym in Hzv.
        pose proof (eqb_trans Hx Hzv) as Hxz.
        apply ltb_eqb_false in Hz. congruence. }
      cbn [filter] in E. rewrite E. reflexivity.
    + apply StronglySorted_inv in Ha. destruct Ha as [Ha _].
      apply Forall_inv_tail in Hn.
      cbn [filter]. rewrite (IH Hn Ha).
      destruct (eqv v y); reflexivity.
Qed.

Lemma stable_sort_acc (l acc : list A) :
  numbers acc -> numbers l -> asc acc ->
  let s := fold_left (fun acc x => insert_by lt x acc) l acc in
  asc s /\ forall v, filter (eqv v) s = filter (eqv v) (acc ++ l).
Proof.
  revert acc. induction l as [| x l IH]; intros acc Hacc Hl Ha;
    cbn [fold_left].
  - split; [assumption | intros v; now rewrite app_nil_r].
  - pose proof (Forall_inv Hl) as Hx. apply Forall_inv_tail in Hl.
    destruct (IH (insert_by lt x acc)) as [Hs Hf].
    + eapply Permutation_Forall;
        [symmetry; apply insert_by_perm | now constructor].
    + assumption.
    + now apply insert_by_asc.
    + split; [assumption |]. intros v.
      rewrite Hf, !filter_app, insert_by_filter by assumption.
      rewrite <- app_assoc. f_equal. cbn [filter app].
      destruct (eqv v x); reflexivity.
Qed.

End StableSort.

(* ================================================================== *)
(** * The list sort is the stable sort *)
(* ================================================================== *)

Section ListSort.

Variable A : Type.

(** ** Whatever [<] is, the sort rearranges *)

Section Rearrangement.

Variable lt : A -> A -> bool.

Lemma ascending_run_app (prev : A) (l run rest : list A) :
  ascending_run lt prev l = (run, rest) -> l = run ++ rest.
Proof.
  revert prev run rest. induction l as [| x l IH]; intros prev run rest;
    cbn [ascending_run].
  - intros E. injection E as <- <-. reflexivity.
  - destruct (lt x prev); [intros E; injection E as <- <-; reflexivity |].
    destruct (ascending_run lt x l) as [run' rest'] eqn:Hr.
    intros E. injection E as <- <-. cbn [app]. f_equal. now apply (IH x).
Qed.

Lemma descending_run_app (prev : A) (l run rest : list A) :
  descending_run lt prev l = (run, rest) -> l = run ++ rest.
Proof.
  revert prev run rest. induction l as [| x l IH]; intros prev run rest;
    cbn [descending_run].
  - intros E. injection E as <- <-. reflexivity.
  - destruct (lt x prev); [| intros E; injection E as <- <-; reflexivity].
    destruct (descending_run lt x l) as [run' rest'] eqn:Hr.
    intros E. injection E as <- <-. cbn [app]. f_equal. now apply (IH x).
Qed.

Lemma count_run_perm (l run rest : list A) :
  count_run lt l = (run, rest) -> Permutation (run ++ rest) l.
Proof.
  unfold count_run. destruct l as [| a [| b l]].
  - intros E. injection E as <- <-. reflexivity.
  - intros E. injection E as <- <-. reflexivity.
  - destruct (lt b a).
    + destruct (descending_run lt b l) as [run' rest'] eqn:Hr.
      intros E. injection E as <- <-.
      apply descending_run_app in Hr. subst l.
      change (a :: b :: run' ++ rest') with ((a :: b :: run') ++ rest').
      apply Permutation_app_tail. symmetry. apply Permutation_rev.
    + destruct (ascending_run lt b l) as [run' rest'] eqn:Hr.
      intros E. injection E as <- <-.
      apply ascending_run_app in Hr. now subst l.
Qed.

Lemma binary_insert_perm (sorted : list A) (pivot : A) :
  Permutation (binary_insert lt sorted pivot) (pivot :: sorted).
Proof.
  unfold binary_insert. cbv zeta.
  set (k := bisect _ _ _ _ _ _).
  rewrite <- (firstn_skipn k sorted) at 3.
  symmetry. apply Permutation_middle.
Qed.

Lemma binarysort_perm (run rest : list A) :
  Permutation (binarysort lt run rest) (run ++ rest).
Proof.
  unfold binarysort. revert run.
  induction rest as [| x rest IH]; intros run; cbn [fold_left].
  - now rewrite app_nil_r.
  - rewrite IH, binary_insert_perm. apply Permutation_middle.
Qed.

Lemma list_sort_perm (l : list A) : Permutation (list_sort lt l) l.
Proof.
  unfold list_sort. destruct (count_run lt l) as [run rest] eqn:Hr.
  rewrite binarysort_perm. now apply count_run_perm.
Qed.

(** Where [insert_by] puts [x]: behind the elements it is not less than. *)
Lemma insert_by_at (x : A) (s : list A) (k : nat) :
  (forall i y, i < k -> nth_error s i = Some y -> lt x y = false) ->
  (forall i y, k <= i -> nth_error s i = Some y -> lt x y = true) ->
  k <= List.length s ->
  insert_by lt x s = firstn k s ++ x :: skipn k s.
Proof.
  revert k. induction s as [| y s IH]; intros k H1 H2 Hk.
  - destruct k; [reflexivity | cbn in Hk; lia].
  - destruct k as [| k]; cbn [insert_by firstn skipn app].
    + now rewrite (H2 0 y (Nat.le_refl 0) eq_refl).
    + rewrite (H1 0 y (Nat.lt_0_succ k) eq_refl). f_equal. apply IH.
      * intros i z Hi Hz. apply (H1 (S i) z); [lia | exact Hz].
      * intros i z Hi Hz. apply (H2 (S i) z); [lia | exact Hz].
      * cbn in Hk. lia.
Qed.

Lemma insert_by_last (x : A) (s : list A) :
  Forall (fun y => lt x y = false) s -> insert_by lt x s = s ++ [x].
Proof.
  induction 1 as [| y s Hy _ IH]; cbn [insert_by app]; [reflexivity |].
  now rewrite Hy, IH.
Qed.

(** The binary search finds the place where [lt pivot] turns true, when it
    turns only once. *)
Lemma bisect_spec (x : A) (s : list A) :
  (forall i j y z, i <= j -> nth_error s i = Some y ->
                   nth_error s j = Some z ->
                   lt x y = true -> lt x z = true) ->
  forall fuel l r,
    l < r -> r <= List.length s -> r - l <= fuel ->
    (forall i y, i < l -> nth_error s i = Some y -> lt x y = false) ->
    (forall i y, r <= i -> nth_error s i = Some y -> lt x y = true) ->
    let k := bisect lt x s fuel l r in
    k <= List.length s /\
    (forall i y, i < k -> nth_error s i = Some y -> lt x y = false) /\
    (forall i y, k <= i -> nth_error s i = Some y -> lt x y = true).
Proof.
  intros Hmono.
  induction fuel as [| fuel IH]; intros l r Hlr Hr Hfuel Hlow Hhigh;
    [lia |].
  cbn [bisect].
  assert (Hhalf : (r - l) / 2 < r - l) by (apply Nat.div_lt; lia).
  set (p := l + (r - l) / 2) in *.
  assert (Hp : l <= p < r) by (unfold p; lia).
  destruct (nth_error s p) as [y |] eqn:Hy.
  2: { apply nth_error_None in Hy. lia. }
  destruct (lt x y) eqn:Hxy.
  - assert (Hhigh' : forall i z, p <= i -> nth_error s i = Some z ->
                                 lt x z = true).
    { intros i z Hi Hz. exact (Hmono p i y z Hi Hy Hz Hxy). }
    destruct (Nat.ltb_spec l p) as [Hlp | Hlp].
    + apply IH; try assumption; lia.
    + assert (l = p) by lia. subst p.
      repeat split; [lia | exact Hlow |].
      intros i z Hi Hz. apply (Hhigh' i z); [lia | exact Hz].
  - assert (Hlow' : forall i z, i < S p -> nth_error s i = Some z ->
                                lt x z = false).
    { intros i z Hi Hz. apply not_true_is_false. intros Hxz.
      assert (lt x y = true); [| congruence].
      apply (Hmono i p z y); [lia | assumption ..]. }
    destruct (Nat.ltb_spec (S p) r) as [Hpr | Hpr].
    + apply IH; try assumption; lia.
    + repeat split; [lia | exact Hlow' |].
      intros i z Hi Hz. apply (Hhigh i z); [lia | exact Hz].
Qed.

End Rearrangement.

(** ** On keys that are numbers, the sort is the stable sort *)

Variable key : A -> float.

Let lt (a b : A) : bool := (key a <? key b)%float.
Let asc : list A -> Prop := StronglySorted (fun a b => lt b a = false).
Let numbers : list A -> Prop := Forall (fun a => is_number (key a)).

Lemma asc_nth (s : list A) (i j : nat) (y z : A) :
  asc s -> i < j -> nth_error s i = Some y -> nth_error s j = Some z ->
  lt z y = false.
Proof.
  unfold asc. intros Hs. revert i j.
  induction Hs as [| a s Hs IH F]; intros i j Hij Hy Hz.
  - destruct i; discriminate.
  - destruct j as [| j]; [lia |]. cbn [nth_error] in Hz.
    destruct i as [| i]; cbn [nth_error] in Hy.
    + injection Hy as <-. rewrite Forall_forall in F.
      apply F. eapply nth_error_In, Hz.
    + apply (IH i j); [lia | assumption ..].
Qed.

Lemma binary_insert_insert_by (s : list A) (x : A) :
  numbers s -> asc s -> binary_insert lt s x = insert_by lt x s.
Proof.
  intros Hn Ha. unfold binary_insert. cbv zeta.
  destruct s as [| a s]; [reflexivity |].
  set (s' := a :: s) in *.
  assert (Hmono : forall i j y z, i <= j -> nth_error s' i = Some y ->
                    nth_error s' j = Some z ->
                    lt x y = true -> lt x z = true).
  { intros i j y z Hij Hy Hz Hxy.
    destruct (Nat.eq_dec i j) as [-> | Hne]; [congruence |].
    unfold lt in *. eapply ltb_leb_trans; [| exact Hxy |].
    - unfold numbers in Hn. rewrite Forall_forall in Hn.
      apply Hn. eapply nth_error_In, Hz.
    - apply (@asc_nth s' i j y z Ha); [lia | assumption ..]. }
  destruct (@bisect_spec lt x s' Hmono (List.length s') 0 (List.length s'))
    as [Hk [Hlow Hhigh]].
  - cbn. lia.
  - lia.
  - lia.
  - intros i y Hi. lia.
  - intros i y Hi Hy.
    assert (nth_error s' i <> None) by congruence.
    apply nth_error_Some in H. lia.
  - symmetry. now apply insert_by_at.
Qed.

Lemma numbers_insert_by (s : list A) (x : A) :
  numbers s -> is_number (key x) -> numbers (insert_by lt x s).
Proof.
  intros Hs Hx. unfold numbers.
  eapply Permutation_Forall; [symmetry; apply insert_by_perm |].
  now constructor.
Qed.

Lemma binarysort_stable (run rest : list A) :
  numbers run -> numbers rest -> asc run ->
  binarysort lt run rest
  = fold_left (fun acc x => insert_by lt x acc) rest run.
Proof.
  unfold binarysort. revert run.
  induction rest as [| x rest IH]; intros run Hrun Hrest Ha;
    cbn [fold_left]; [reflexivity |].
  pose proof (Forall_inv Hrest) as Hx. apply Forall_inv_tail in Hrest.
  rewrite binary_insert_insert_by by assumption.
  apply IH; [now apply numbers_insert_by | assumption |].
  now apply insert_by_asc.
Qed.

(** The stable sort leaves an ascending run as it is... *)
Lemma ascending_run_stable (prev : A) (l acc run rest : list A) :
  ascending_run lt prev l = (run, rest) ->
  numbers (acc ++ [prev]) -> numbers l -> asc (acc ++ [prev]) ->
  fold_left (fun acc x => insert_by lt x acc) run (acc ++ [prev])
  = acc ++ prev :: run.
Proof.
  revert prev acc run rest.
  induction l as [| x l IH]; intros prev acc run rest; cbn [ascending_run].
  - intros E _ _ _. injection E as <- <-. reflexivity.
  - destruct (lt x prev) eqn:Hx;
      [intros E _ _ _; injection E as <- <-; reflexivity |].
    destruct (ascending_run lt x l) as [run' rest'] eqn:Hr.
    intros E Hacc Hl Ha. injection E as <- <-. cbn [fold_left].
    pose proof (Forall_inv Hl) as Hnx. apply Forall_inv_tail in Hl.
    assert (Hall : Forall (fun y => lt x y = false) (acc ++ [prev])).
    { apply Forall_app. split; [| now repeat constructor].
      apply Forall_forall. intros y Hy.
      apply StronglySorted_app in Ha. destruct Ha as [_ [_ Ha]].
      specialize (Ha y prev Hy (or_introl eq_refl)).
      unfold numbers in Hacc. rewrite Forall_forall in Hacc.
      unfold lt in *.
      apply (@not_ltb_trans (key y) (key prev) (key x)); try assumption.
      - apply Hacc, in_or_app. now left.
      - apply Hacc, in_or_app. right. now left. }
    rewrite (@insert_by_last lt x _ Hall).
    rewrite (IH x (acc ++ [prev]) run' rest' Hr).
    + now rewrite <- app_assoc.
    + apply Forall_app. split; [exact Hacc | now repeat constructor].
    + exact Hl.
    + apply StronglySorted_app. split; [exact Ha |].
      split; [repeat constructor |].
      intros a b Hin [<- | []]. rewrite Forall_forall in Hall.
      now apply Hall.
Qed.

(** ... and turns a descending run round. *)
Lemma descending_run_stable (prev : A) (l acc run rest : list A) :
  descending_run lt prev l = (run, rest) ->
  fold_left (fun acc x => insert_by lt x acc) run (prev :: acc)
  = rev run ++ prev :: acc.
Proof.
  revert prev acc run rest.
  induction l as [| x l IH]; intros prev acc run rest; cbn [descending_run].
  - intros E. injection E as <- <-. reflexivity.
  - destruct (lt x prev) eqn:Hx;
      [| intros E; injection E as <- <-; reflexivity].
    destruct (descending_run lt x l) as [run' rest'] eqn:Hr.
    intros E. injection E as <- <-. cbn [fold_left insert_by rev].
    rewrite Hx, (IH x (prev :: acc) run' rest' Hr).
    now rewrite <- app_assoc.
Qed.

Lemma fold_left_app_insert (l1 l2 acc : list A) :
  fold_left (fun acc x => insert_by lt x acc) (l1 ++ l2) acc
  = fold_left (fun acc x => insert_by lt x acc) l2
      (fold_left (fun acc x => insert_by lt x acc) l1 acc).
Proof. apply fold_left_app. Qed.

(** On keys that are numbers the list sort gives what the stable sort of the
    design gives. *)
Lemma list_sort_stable (l : list A) :
  numbers l -> list_sort lt l = stable_sort lt l.
Proof.
  intros Hn. unfold list_sort, stable_sort.
  destruct (count_run lt l) as [run rest] eqn:Hc.
  assert (H : exists run0,
             l = run0 ++ rest /\
             fold_left (fun acc x => insert_by lt x acc) run0 [] = run).
  { unfold count_run in Hc. destruct l as [| a [| b l]].
    - injection Hc as <- <-. now exists [].
    - injection Hc as <- <-. now exists [a].
    - destruct (lt b a) eqn:Hba.
      + destruct (descending_run lt b l) as [run' rest'] eqn:Hr.
        injection Hc as <- <-.
        exists (a :: b :: run'). split.
        * apply descending_run_app in Hr. now subst l.
        * cbn [fold_left insert_by]. rewrite Hba.
          rewrite (@descending_run_stable b l [a] run' rest' Hr).
          cbn [rev]. now rewrite <- !app_assoc.
      + destruct (ascending_run lt b l) as [run' rest'] eqn:Hr.
        injection Hc as <- <-.
        exists (a :: b :: run'). split.
        * apply ascending_run_app in Hr. now subst l.
        * cbn [fold_left insert_by]. rewrite Hba.
          pose proof (Forall_inv Hn) as Ha.
          pose proof (Forall_inv (Forall_inv_tail Hn)) as Hb.
          apply (@ascending_run_stable b l [a] run' rest' Hr).
          -- now repeat constructor.
          -- exact (Forall_inv_tail (Forall_inv_tail Hn)).
          -- unfold asc. repeat constructor. exact Hba. }
  destruct H as [run0 [-> Hrun]].
  unfold numbers in Hn. apply Forall_app in Hn. destruct Hn as [Hn0 Hnr].
  assert (Hasc : asc run).
  { rewrite <- Hrun.
    exact (proj1 (@stable_sort_acc A key run0 [] (Forall_nil _) Hn0
                    (SSorted_nil _))). }
  rewrite fold_left_app_insert, Hrun.
  apply binarysort_stable; [| assumption | exact Hasc].
  rewrite <- Hrun. clear -Hn0.
  assert (G : forall acc, numbers acc ->
                numbers (fold_left (fun acc x => insert_by lt x acc)
                           run0 acc)).
  { induction Hn0 as [| x run0 Hx _ IH]; intros acc Hacc; cbn [fold_left];
      [exact Hacc |].
    apply IH. now apply numbers_insert_by. }
  apply G. constructor.
Qed.

End ListSort.

(** With a NaN among the keys the sort compares the rows as they come: in
    these three it finds one run, and leaves them as they are. *)
Lemma sort_by_around_nan :
  sort_by (fun x : float => x) true [0%float; nan; 75%float]
  = [0%float; nan; 75%float].
Proof. vm_compute. reflexivity. Qed.

(* ================================================================== *)
(** * Sorting in reverse, cutting at ten and numbering *)
(* ================================================================== *)

Section Ranking.

Variable A : Type.
Variable key : A -> float.

Lemma sort_by_reverse_spec (l : list A) :
  Forall (fun a => is_number (key a)) l ->
  let s := sort_by key true l in
  Permutation s l /\
  StronglySorted (fun a b => (key a <? key b)%float = false) s /\
  forall v, filter (fun a => (key a =? v)%float) s
            = filter (fun a => (key a =? v)%float) l.
Proof.
  intros Hn. cbn zeta.
  assert (Hrev : Forall (fun a => is_number (key a)) (rev l))
    by now apply Forall_rev.
  pose proof (@stable_sort_acc A key (rev l) [] (Forall_nil _) Hrev
                (SSorted_nil _)) as H.
  cbn zeta in H. destruct H as [Hs Hf].
  pose proof (stable_sort_perm key (rev l)) as Hp.
  unfold sort_by. rewrite (list_sort_stable key Hrev).
  unfold stable_sort in *.
  repeat split.
  - rewrite <- Permutation_rev, Hp. symmetry. apply Permutation_rev.
  - apply StronglySorted_rev in Hs. exact Hs.
  - intros v. rewrite filter_rev, Hf. cbn [app].
    now rewrite filter_rev, rev_involutive.
Qed.

Lemma enumerate_fst (start : nat) (l : list A) :
  List.map fst (enumerate start l) = seq start (List.length l).
Proof.
  unfold enumerate. revert start.
  induction l as [| a l IH]; intros start; cbn; [reflexivity |].
  now rewrite IH.
Qed.

Lemma enumerate_snd (start : nat) (l : list A) :
  List.map snd (enumerate start l) = l.
Proof.
  unfold enumerate. revert start.
  induction l as [| a l IH]; intros start; cbn; [reflexivity |].
  now rewrite IH.
Qed.

Lemma enumerate_length (start : nat) (l : list A) :
  List.length (enumerate start l) = List.length l.
Proof.
  unfold enumerate. rewrite length_combine, length_seq. apply Nat.min_id.
Qed.

Lemma sorted_non_increasing (l : list A) :
  Forall (fun a => is_number (key a)) l ->
  StronglySorted (fun a b => (key a <? key b)%float = false) l ->
  non_increasing (List.map key l) = true.
Proof.
  intros Hn Hs. induction l as [| x l IH]; [reflexivity |].
  apply StronglySorted_inv in Hs. destruct Hs as [Hs F].
  pose proof (Forall_inv Hn) as Hx. apply Forall_inv_tail in Hn.
  specialize (IH Hn Hs). destruct l as [| y l]; [reflexivity |].
  cbn [List.map non_increasing] in *. rewrite IH, andb_true_r.
  apply not_ltb_leb; [assumption | exact (Forall_inv Hn) |].
  exact (Forall_inv F).
Qed.

(** The sort keeps every record, whatever the keys are. *)
Lemma sort_by_perm (l : list A) : Permutation (sort_by key true l) l.
Proof.
  unfold sort_by.
  rewrite <- Permutation_rev, list_sort_perm. symmetry.
  apply Permutation_rev.
Qed.

(** The cut at ten and the numbering, whatever the keys are. *)
Lemma ranked_shape (l : list A) :
  let ranked := enumerate 1 (firstn 10 (sort_by key true l)) in
  ranks_from_1 ranked /\
  (List.length ranked <= 10)%nat /\
  List.length ranked = Nat.min 10 (List.length l) /\
  exists sorted, Permutation sorted l /\
                 List.map snd ranked = firstn 10 sorted.
Proof.
  intros ranked.
  pose proof (sort_by_perm l) as Hp.
  assert (Hlen : List.length ranked = Nat.min 10 (List.length l)).
  { unfold ranked. rewrite enumerate_length, length_firstn.
    now rewrite (Permutation_length Hp). }
  split; [| split; [| split; [exact Hlen |]]].
  - unfold ranks_from_1, ranked. rewrite enumerate_fst.
    now rewrite enumerate_length.
  - rewrite Hlen. apply Nat.le_min_l.
  - exists (sort_by key true l). split; [exact Hp | apply enumerate_snd].
Qed.

(** The ranking of both leaderboards: sort by the key in reverse, keep the
    first ten, number them from 1. *)
Lemma ranked_spec (l : list A) :
  Forall (fun a => is_number (key a)) l ->
  let ranked := enumerate 1 (firstn 10 (sort_by key true l)) in
  ranks_from_1 ranked /\
  List.length ranked = Nat.min 10 (List.length l) /\
  non_increasing (List.map (fun r => key (snd r)) ranked) = true /\
  ties_in_input_order key l (List.map snd ranked) /\
  exists sorted, Permutation sorted l /\
                 List.map snd ranked = firstn 10 sorted.
Proof.
  intros Hn ranked.
  destruct (sort_by_reverse_spec Hn) as [Hp [Hs Hf]].
  set (s := sort_by key true l) in *.
  assert (Hsnd : List.map snd ranked = firstn 10 s)
    by apply enumerate_snd.
  assert (Hlen : List.length ranked = Nat.min 10 (List.length l)).
  { unfold ranked. rewrite enumerate_length, length_firstn.
    now rewrite (Permutation_length Hp). }
  repeat split.
  - unfold ranks_from_1, ranked. rewrite enumerate_fst.
    now rewrite enumerate_length.
  - exact Hlen.
  - rewrite <- (map_map snd key), Hsnd.
    apply sorted_non_increasing.
    + assert (Hall : Forall (fun a => is_number (key a)) s)
        by (eapply Permutation_Forall; [symmetry; exact Hp | exact Hn]).
      rewrite <- (firstn_skipn 10 s) in Hall.
      apply Forall_app in Hall. tauto.
    + now apply StronglySorted_firstn.
  - intros v. rewrite Hsnd, <- Hf.
    exists (filter (fun a => (key a =? v)%float) (skipn 10 s)).
    now rewrite <- filter_app, firstn_skipn.
  - exists s. split; assumption.
Qed.

End Ranking.

(* ================================================================== *)
(** * The loops of the handlers *)
(* ================================================================== *)

Section Loops.

Variable e : env.

Lemma after_reads_nil (w : world) : after_reads [] w = w.
Proof. destruct w. unfold after_reads. cbn. now rewrite app_nil_r. Qed.

Lemma after_reads_app (rs1 rs2 : list read) (w : world) :
  after_reads rs2 (after_reads rs1 w) = after_reads (rs1 ++ rs2) w.
Proof. unfold after_reads. cbn. now rewrite app_assoc. Qed.

Lemma get_sol_price_run (w : world) :
  get_sol_price e w = (sol_price_feed e, after_reads [ReadSolPrice] w).
Proof. reflexivity. Qed.

Lemma get_close_price_run (mint : str) (w : world) :
  get_latest_close_price_in_sol e mint w
  = (close_price_feed e mint, after_reads [ReadClosePrice mint] w).
Proof. reflexivity. Qed.

(** The loop of [leaderboard_command] values every pick, in order, with one
    trade-price read each. *)
Lemma for_each_value_pick (sol_price : float) (l : list pick_doc)
  (acc : list pick_row) (w : world) :
  for_each l acc (value_pick e sol_price) w
  = (acc ++ List.map (token_valuation e sol_price) l,
     after_reads (List.map (fun p => ReadClosePrice (mint_address p)) l) w).
Proof.
  revert acc w. induction l as [| p l IH]; intros acc w; cbn [for_each].
  - unfold ret. cbn. now rewrite app_nil_r, after_reads_nil.
  - unfold bind at 1. unfold value_pick at 1. unfold bind at 1.
    rewrite get_close_price_run. unfold ret at 1.
    rewrite IH, after_reads_app, <- app_assoc. reflexivity.
Qed.

Lemma all_of_app (A : Type) (l1 l2 : list (option A)) :
  all_of (l1 ++ l2)
  = match all_of l1, all_of l2 with
    | Some a, Some b => Some (a ++ b)
    | _, _ => None
    end.
Proof.
  induction l1 as [| [a |] l1 IH]; cbn [all_of app].
  - destruct (all_of l2); reflexivity.
  - rewrite IH. destruct (all_of l1), (all_of l2); reflexivity.
  - reflexivity.
Qed.

Lemma all_of_Forall2 (A : Type) (l : list (option A)) (xs : list A) :
  all_of l = Some xs <-> Forall2 (fun o x => o = Some x) l xs.
Proof.
  revert xs. induction l as [| [a |] l IH]; intros xs; cbn [all_of].
  - split.
    + intros E. injection E as <-. constructor.
    + intros H. inversion H. reflexivity.
  - destruct (all_of l) as [rest |].
    + split.
      * intros E. injection E as <-. constructor; [reflexivity |].
        now apply IH.
      * intros H. inversion H as [| o x l' xs' Ho Hl]; subst.
        injection Ho as <-. apply IH in Hl. now injection Hl as <-.
    + split; [discriminate |].
      intros H. inversion H as [| o x l' xs' Ho Hl]; subst.
      apply IH in Hl. discriminate.
  - split; [discriminate |].
    intros H. inversion H as [| o x l' xs' Ho Hl]; subst. discriminate.
Qed.


(** The inner loop adds up the worths of the holdings, and raises when one
    of them has none. *)
Lemma total_usd_of_worths (balances : list token_info) (total : float) :
  total_usd_of balances total
  = match all_of (List.map worth balances) with
    | Some worths =>
        Some (fold_left (fun t x => (t + x)%float) worths total)
    | None => None
    end.
Proof.
  revert total.
  induction balances as [| t l IH]; intros total;
    cbn [total_usd_of List.map all_of]; [reflexivity |].
  unfold worth at 1, quantity, unit_value.
  destruct (mul (get_or_0 (balance t)) (get_or_0 (value t))) as [p |];
    [| reflexivity].
  unfold add. destruct (to_float p) as [y |]; [| reflexivity].
  rewrite IH. destruct (all_of (List.map worth l)); reflexivity.
Qed.

Lemma total_usd_of_net_worth (balances : list token_info) :
  total_usd_of balances 0%float = net_worth balances.
Proof. rewrite total_usd_of_worths. reflexivity. Qed.

Lemma value_wallet_run (results : list wallet_row) (d : wallet_doc)
  (w : world) :
  value_wallet e results d w
  = (match wallet_valuation e d with
     | Some item => Some (results ++ [item])
     | None => None
     end,
     after_reads [ReadBalances (wallet_address d)] w).
Proof.
  unfold value_wallet, get_wallet_balances, log_read, ret, bind.
  cbn beta iota. rewrite total_usd_of_net_worth. unfold wallet_valuation.
  destruct (net_worth _); reflexivity.
Qed.

(** The loop of [sniper_leaderboard_command] values the wallets in order,
    with one holdings read each, up to the first that has no valuation. *)
Lemma for_each_value_wallet (l : list wallet_doc) (acc : list wallet_row)
  (w : world) :
  for_each_raising l acc (value_wallet e) w
  = (match wallet_valuations e l with
     | Some items => Some (acc ++ items)
     | None => None
     end,
     after_reads
       (List.map (fun d => ReadBalances (wallet_address d))
          (wallets_read e l)) w).
Proof.
  unfold wallet_valuations.
  revert acc w. induction l as [| d l IH]; intros acc w;
    cbn [for_each_raising List.map all_of wallets_read].
  - unfold ret. now rewrite app_nil_r, after_reads_nil.
  - unfold bind at 1. rewrite value_wallet_run.
    destruct (wallet_valuation e d) as [item |].
    + rewrite IH, after_reads_app. cbn [List.map app].
      destruct (all_of _); [now rewrite <- app_assoc | reflexivity].
    + reflexivity.
Qed.

(** The loop of [share_command] writes one line per pick and adds up. *)
Lemma for_each_share_pick (sol_price : float) (l : list pick_doc)
  (lines : list str) (total : float) (w : world) :
  for_each l (lines, total) (share_pick e sol_price) w
  = ((lines ++ List.map (fun p => mint_address p ++ lit " => "
                 ++ signed_usd (row_pnl (token_valuation e sol_price p))) l,
      fold_left (fun t x => (t + x)%float)
        (List.map (fun p => row_pnl (token_valuation e sol_price p)) l) total),
     after_reads (List.map (fun p => ReadClosePrice (mint_address p)) l) w).
Proof.
  revert lines total w.
  induction l as [| p l IH]; intros lines total w; cbn [for_each].
  - unfold ret. cbn. now rewrite app_nil_r, after_reads_nil.
  - unfold bind at 1. unfold share_pick at 1. unfold bind at 1.
    rewrite get_close_price_run. unfold ret at 1.
    rewrite IH, after_reads_app, <- app_assoc. reflexivity.
Qed.

End Loops.

(* ================================================================== *)
(** * The handlers, path by path *)
(* ================================================================== *)

Section Handlers.

Variable e : env.
Variable update : Update.
Variable context : Context.
Variable w : world.

Let chat_id := effective_chat_id update.
Let sol := sol_price_feed e.

Lemma leaderboard_command_run :
  leaderboard_command e update context w =
  if (sol <=? 0)%float
  then (LeaderboardUnavailable, after_reads [ReadSolPrice] w)
  else match picks_of_chat chat_id w with
       | [] => (NoPicks, after_reads [ReadSolPrice] w)
       | l =>
           (Leaderboard
              (enumerate 1
                 (firstn 10
                    (sort_by row_pnl true
                       (List.map (token_valuation e sol) l)))),
            after_reads
              (ReadSolPrice
                 :: List.map (fun p => ReadClosePrice (mint_address p)) l) w)
       end.
Proof.
  unfold leaderboard_command. unfold bind at 1.
  rewrite get_sol_price_run. fold sol.
  destruct (sol <=? 0)%float; [reflexivity |].
  unfold bind at 1, picks_find at 1. cbn [picks_collection after_reads].
  fold chat_id. fold (picks_of_chat chat_id w).
  destruct (picks_of_chat chat_id w) as [| p l]; [reflexivity |].
  unfold bind. rewrite for_each_value_pick, after_reads_app. reflexivity.
Qed.

Lemma sniper_leaderboard_command_run :
  sniper_leaderboard_command e update context w =
  if (sol <=? 0)%float
  then (LeaderboardUnavailable, after_reads [ReadSolPrice] w)
  else match wallets_of_chat chat_id w with
       | [] => (NoWallets, after_reads [ReadSolPrice] w)
       | l =>
           (match wallet_valuations e l with
            | Some results =>
                SniperLeaderboard
                  (enumerate 1 (firstn 10 (sort_by pnl_usd true results)))
            | None => Raised
            end,
            after_reads
              (ReadSolPrice
                 :: List.map (fun d => ReadBalances (wallet_address d))
                      (wallets_read e l)) w)
       end.
Proof.
  unfold sniper_leaderboard_command. unfold bind at 1.
  rewrite get_sol_price_run. fold sol.
  destruct (sol <=? 0)%float; [reflexivity |].
  unfold bind at 1, wallets_find at 1. cbn [wallets_collection after_reads].
  fold chat_id. fold (wallets_of_chat chat_id w).
  destruct (wallets_of_chat chat_id w) as [| d l]; [reflexivity |].
  unfold bind. rewrite for_each_value_wallet, after_reads_app.
  destruct (wallet_valuations e (d :: l)); reflexivity.
Qed.

Lemma share_command_run :
  share_command e update context w =
  match picks_of_user chat_id (effective_user_id update) w with
  | [] => (NoPicksForUser, w)
  | l =>
      if (sol <=? 0)%float
      then (ShareSolPriceError, after_reads [ReadSolPrice] w)
      else
        (match quote (share_text e update l) with
         | None => Raised
         | Some encoded_tweet =>
             ShareLink (lit "https://twitter.com/intent/tweet?text="
                          ++ encoded_tweet)
         end,
         after_reads
           (ReadSolPrice
              :: List.map (fun p => ReadClosePrice (mint_address p)) l) w)
  end.
Proof.
  unfold share_command. unfold bind at 1, picks_find at 1.
  fold chat_id. fold (picks_of_user chat_id (effective_user_id update) w).
  destruct (picks_of_user chat_id (effective_user_id update) w) as [| p l];
    [reflexivity |].
  unfold bind at 1. rewrite get_sol_price_run. fold sol.
  destruct (sol <=? 0)%float; [reflexivity |].
  unfold bind. rewrite for_each_share_pick, after_reads_app.
  unfold share_text, float_sum. fold sol. cbn [app].
  destruct (quote _); reflexivity.
Qed.

End Handlers.

Lemma str_eqb_eq (a b : str) : str_eqb a b = true <-> a = b.
Proof.
  unfold str_eqb. destruct (list_eq_dec N.eq_dec a b); split;
    intros; congruence.
Qed.

Lemma str_eqb_refl (a : str) : str_eqb a a = true.
Proof. now apply str_eqb_eq. Qed.

Lemma str_eqb_sym (a b : str) : str_eqb a b = str_eqb b a.
Proof.
  apply eq_true_iff_eq. rewrite !str_eqb_eq. split; congruence.
Qed.

Lemma stored_pick_none_fresh (doc : pick_doc) (w : world) :
  stored_pick (p_chat_id doc) (mint_address doc) w = None ->
  existsb (same_pick_key doc) (picks_collection w) = false.
Proof.
  unfold stored_pick. intros H. apply not_true_is_false. intros E.
  apply existsb_exists in E. destruct E as [p [Hin Hp]].
  apply (find_none _ _ H) in Hin. unfold same_pick_key in Hp.
  rewrite Z.eqb_sym, str_eqb_sym in Hp. congruence.
Qed.

Section Entry.

Variable e : env.
Variable update : Update.
Variable context : Context.
Variable w : world.

Let chat_id := effective_chat_id update.
Let sol := sol_price_feed e.
Let mint := strip (message_text update).

Lemma handle_contract_address_run :
  handle_contract_address e update context w =
  if negb (is_valid_solana_address mint)
  then (Echo (message_text update), w)
  else match stored_pick chat_id mint w with
       | Some _ => (AlreadyShilled mint, w)
       | None =>
           if (sol <=? 0)%float
           then (PickSolPriceError, after_reads [ReadSolPrice] w)
           else if (close_price_feed e mint <=? 0)%float
           then (InvalidClosePrice mint,
                 after_reads [ReadSolPrice; ReadClosePrice mint] w)
           else (PickAdded mint (0.5 * sol)%float
                   (0.5 / close_price_feed e mint)%float,
                 add_pick (entry_of e update)
                   (after_reads [ReadSolPrice; ReadClosePrice mint] w))
       end.
Proof.
  unfold handle_contract_address. fold mint.
  destruct (is_valid_solana_address mint); [| reflexivity]. cbn [negb].
  unfold bind at 1, picks_find_one at 1.
  fold chat_id. fold (stored_pick chat_id mint w).
  destruct (stored_pick chat_id mint w) as [p |] eqn:Hst; [reflexivity |].
  unfold bind at 1. rewrite get_sol_price_run. fold sol.
  destruct (sol <=? 0)%float; [reflexivity |].
  unfold bind at 1. rewrite get_close_price_run, after_reads_app.
  cbn [app].
  destruct (close_price_feed e mint <=? 0)%float; [reflexivity |].
  unfold bind, picks_insert_one.
  change (existsb _ (picks_collection (after_reads _ w)))
    with (existsb (same_pick_key (entry_of e update)) (picks_collection w)).
  rewrite (@stored_pick_none_fresh (entry_of e update) w Hst).
  reflexivity.
Qed.

Lemma register_wallet_command_run :
  register_wallet_command e update context w =
  match args context with
  | [] => (Usage, w)
  | arg0 :: _ =>
      let wallet := strip arg0 in
      if negb (is_valid_solana_address wallet) then (InvalidAddress, w)
      else match stored_wallet chat_id wallet w with
           | Some _ => (WalletAlreadyRegistered, w)
           | None =>
               if (sol <=? 0)%float
               then (WalletSolPriceError, after_reads [ReadSolPrice] w)
               else (WalletRegistered wallet (0.5 * sol)%float,
                     add_wallet (registration_of e update wallet)
                       (after_reads [ReadSolPrice] w))
           end
  end.
Proof.
  unfold register_wallet_command.
  destruct (args context) as [| arg0 rest]; [reflexivity |]. cbn zeta.
  destruct (is_valid_solana_address (strip arg0)); [| reflexivity].
  cbn [negb]. unfold bind at 1, wallets_find_one at 1.
  fold chat_id. fold (stored_wallet chat_id (strip arg0) w).
  destruct (stored_wallet chat_id (strip arg0) w); [reflexivity |].
  unfold bind at 1. rewrite get_sol_price_run. fold sol.
  destruct (sol <=? 0)%float; reflexivity.
Qed.

End Entry.

(* ================================================================== *)
(** * The ledger only grows *)
(* ================================================================== *)

Lemma after_reads_picks (rs : list read) (w : world) :
  picks_collection (after_reads rs w) = picks_collection w.
Proof. reflexivity. Qed.

Lemma after_reads_wallets (rs : list read) (w : world) :
  wallets_collection (after_reads rs w) = wallets_collection w.
Proof. reflexivity. Qed.

(** A handler leaves the stored positions as they are, or appends one whose
    key was not stored. *)
Lemma serve_picks (ev : event) (w : world) :
  picks_collection (snd (serve ev w)) = picks_collection w \/
  exists doc,
    picks_collection (snd (serve ev w)) = picks_collection w ++ [doc] /\
    stored_pick (p_chat_id doc) (mint_address doc) w = None.
Proof.
  unfold serve. destruct ev as [cmd e u c]. cbn [ev_command ev_env ev_update
    ev_context]. destruct cmd; cbn [handler_of].
  - now left.
  - now left.
  - left. rewrite leaderboard_command_run.
    destruct (_ <=? _)%float; [reflexivity |].
    destruct (picks_of_chat _ _); reflexivity.
  - left. rewrite register_wallet_command_run.
    destruct (args c); [reflexivity |]. cbn zeta.
    destruct (negb _); [reflexivity |].
    destruct (stored_wallet _ _ _); [reflexivity |].
    destruct (_ <=? _)%float; reflexivity.
  - left. rewrite sniper_leaderboard_command_run.
    destruct (_ <=? _)%float; [reflexivity |].
    destruct (wallets_of_chat _ _); reflexivity.
  - left. rewrite share_command_run.
    destruct (picks_of_user _ _ _); [reflexivity |].
    destruct (_ <=? _)%float; reflexivity.
  - rewrite handle_contract_address_run.
    destruct (negb _); [now left |].
    destruct (stored_pick _ _ _) eqn:Hst; [now left |].
    destruct (_ <=? _)%float; [now left |].
    destruct (_ <=? _)%float; [now left |].
    right. exists (entry_of e u). split; [reflexivity | exact Hst].
Qed.

Lemma run_app (evs1 evs2 : list event) (w : world) :
  run (evs1 ++ evs2) w = run evs2 (run evs1 w).
Proof. unfold run. apply fold_left_app. Qed.

Lemma run_cons (ev : event) (evs : list event) (w : world) :
  run (ev :: evs) w = run evs (snd (serve ev w)).
Proof. reflexivity. Qed.

Lemma find_app_some (A : Type) (q : A -> bool) (l more : list A) (a : A) :
  find q l = Some a -> find q (l ++ more) = Some a.
Proof.
  induction l as [| x l IH]; cbn [find app]; [discriminate |].
  destruct (q x); auto.
Qed.

Lemma find_app_none (A : Type) (q : A -> bool) (l more : list A) :
  find q l = None -> find q (l ++ more) = find q more.
Proof.
  induction l as [| x l IH]; cbn [find app]; [reflexivity |].
  destruct (q x); [discriminate | auto].
Qed.

(** A stored position stays what it is, whatever is served next. *)
Lemma stored_pick_serve (ev : event) (w : world) (chat_id : Z) (mint : str)
  (doc : pick_doc) :
  stored_pick chat_id mint w = Some doc ->
  stored_pick chat_id mint (snd (serve ev w)) = Some doc.
Proof.
  unfold stored_pick. intros H.
  destruct (serve_picks ev w) as [-> | [d [-> _]]]; [assumption |].
  now apply find_app_some.
Qed.

Lemma stored_pick_run (evs : list event) (w : world) (chat_id : Z)
  (mint : str) (doc : pick_doc) :
  stored_pick chat_id mint w = Some doc ->
  stored_pick chat_id mint (run evs w) = Some doc.
Proof.
  revert w. induction evs as [| ev evs IH]; intros w H; [assumption |].
  rewrite run_cons. apply IH. now apply stored_pick_serve.
Qed.

Lemma stored_pick_none_key (doc : pick_doc) (w : world) :
  stored_pick (p_chat_id doc) (mint_address doc) w = None ->
  ~ In (p_chat_id doc, mint_address doc)
       (List.map (fun p => (p_chat_id p, mint_address p))
          (picks_collection w)).
Proof.
  unfold stored_pick. intros H Hin. apply in_map_iff in Hin.
  destruct Hin as [p [E Hin]]. apply (find_none _ _ H) in Hin.
  injection E as E1 E2. rewrite E1, E2, Z.eqb_refl, str_eqb_refl in Hin.
  discriminate.
Qed.

Lemma unique_picks_serve (ev : event) (w : world) :
  unique_picks w -> unique_picks (snd (serve ev w)).
Proof.
  unfold unique_picks. intros H.
  destruct (serve_picks ev w) as [-> | [d [-> Hd]]]; [assumption |].
  rewrite map_app. cbn [List.map].
  apply NoDup_incl_NoDup with
    (l := (p_chat_id d, mint_address d)
            :: List.map (fun p => (p_chat_id p, mint_address p))
                 (picks_collection w)).
  - constructor; [now apply stored_pick_none_key | assumption].
  - rewrite length_app. cbn. lia.
  - intros x [<- | Hx]; apply in_or_app; cbn; auto.
Qed.

Lemma unique_picks_run (evs : list event) (w : world) :
  unique_picks w -> unique_picks (run evs w).
Proof.
  revert w. induction evs as [| ev evs IH]; intros w H; [assumption |].
  rewrite run_cons. apply IH. now apply unique_picks_serve.
Qed.

(* ================================================================== *)
(** * Entry of a token position *)
(* ================================================================== *)

(** The successful path of [handle_contract_address]: the position of
    [entry_of] is appended, and is what the ledger returns for its key from
    then on. *)
Lemma entry_added (e : env) (update : Update) (context : Context) (w : world) :
  let chat_id := effective_chat_id update in
  let mint := strip (message_text update) in
  is_valid_solana_address mint = true ->
  stored_pick chat_id mint w = None ->
  (sol_price_feed e <=? 0)%float = false ->
  (close_price_feed e mint <=? 0)%float = false ->
  handle_contract_address e update context w
  = (PickAdded mint (0.5 * sol_price_feed e)%float
       (0.5 / close_price_feed e mint)%float,
     add_pick (entry_of e update)
       (after_reads [ReadSolPrice; ReadClosePrice mint] w)) /\
  forall evs : list event,
    stored_pick chat_id mint
      (run evs (snd (handle_contract_address e update context w)))
    = Some (entry_of e update).
Proof.
  intros chat_id mint Hvalid Hfresh Hsol Hclose.
  rewrite handle_contract_address_run. fold mint chat_id.
  rewrite Hvalid, Hfresh, Hsol, Hclose. cbn [negb].
  split; [reflexivity |].
  intros evs. apply stored_pick_run. unfold stored_pick, add_pick.
  cbn [snd picks_collection after_reads].
  unfold stored_pick in Hfresh.
  rewrite (find_app_none _ _ _ Hfresh).
  cbn [find entry_of p_chat_id mint_address].
  fold chat_id mint. now rewrite Z.eqb_refl, str_eqb_refl.
Qed.

(** C1.  A token-position entry made with reference price [r > 0] and latest
    trade price [t > 0] (for a valid address not yet shilled in the chat)
    succeeds and appends one position whose [cost_basis_usd] is [0.5 * r] and
    whose [num_tokens] is [0.5 / t]; whatever the bot serves afterwards, the
    stored position read back for the key is that same record. *)
Theorem entry_freezes_cost_basis_and_tokens
  (e : env) (update : Update) (context : Context) (w : world) (r t : float) :
  let chat_id := effective_chat_id update in
  let mint := strip (message_text update) in
  is_valid_solana_address mint = true ->
  stored_pick chat_id mint w = None ->
  sol_price_feed e = r -> close_price_feed e mint = t ->
  (0 <? r)%float = true -> (0 <? t)%float = true ->
  exists doc,
    fst (handle_contract_address e update context w)
      = PickAdded mint (0.5 * r)%float (0.5 / t)%float /\
    picks_collection (snd (handle_contract_address e update context w))
      = picks_collection w ++ [doc] /\
    p_chat_id doc = chat_id /\ mint_address doc = mint /\
    cost_basis_usd doc = (0.5 * r)%float /\
    num_tokens doc = (0.5 / t)%float /\
    forall evs : list event,
      stored_pick chat_id mint
        (run evs (snd (handle_contract_address e update context w)))
      = Some doc.
Proof.
  intros chat_id mint Hvalid Hfresh Hr Ht Hr0 Ht0.
  destruct (@entry_added e update context w Hvalid Hfresh) as [Hrun Hst].
  - rewrite Hr. now apply ltb_not_leb.
  - fold mint. rewrite Ht. now apply ltb_not_leb.
  - fold mint chat_id in Hrun, Hst. rewrite Hr, Ht in Hrun.
    exists (entry_of e update).
    split; [now rewrite Hrun |]. split; [now rewrite Hrun |].
    split; [reflexivity |]. split; [reflexivity |].
    split; [unfold entry_of; cbn [cost_basis_usd]; now rewrite Hr |].
    split; [| exact Hst].
    unfold entry_of. cbn [num_tokens]. fold mint. now rewrite Ht.
Qed.

Lemma entry_freezes_cost_basis_and_tokens_witness :
  exists doc,
    fst (handle_contract_address (market 150 0.0001 []) (message "ana" mint_a)
           no_args empty_world)
      = PickAdded mint_a 75%float 5000%float /\
    cost_basis_usd doc = 75%float /\ num_tokens doc = 5000%float /\
    forall evs : list event,
      stored_pick (-1001) mint_a
        (run evs (snd (handle_contract_address (market 150 0.0001 [])
                         (message "ana" mint_a) no_args empty_world)))
      = Some doc.
Proof.
  destruct (@entry_freezes_cost_basis_and_tokens
              (market 150 0.0001 []) (message "ana" mint_a) no_args
              empty_world 150%float 0.0001%float
              eq_refl eq_refl eq_refl eq_refl eq_refl eq_refl)
    as [doc [H1 [_ [_ [_ [H2 [H3 H4]]]]]]].
  exists doc.
  split; [exact H1 |]. split; [exact H2 |]. split; [exact H3 | exact H4].
Defined.

(** C4.  When the reference price read returns 0 or less, neither
    [handle_contract_address] nor [register_wallet_command] writes to a
    collection, and a request that reaches the read (a valid address that is
    not stored yet) is answered with [MarketDataUnavailable]; the same holds
    for a token entry whose latest trade price is 0 or less. *)
Theorem unavailable_market_aborts_without_writes
  (e : env) (update : Update) (context : Context) (w : world) :
  let chat_id := effective_chat_id update in
  let mint := strip (message_text update) in
  ((sol_price_feed e <=? 0)%float = true \/
   (close_price_feed e mint <=? 0)%float = true ->
   let (reply, w') := handle_contract_address e update context w in
   picks_collection w' = picks_collection w /\
   wallets_collection w' = wallets_collection w /\
   (is_valid_solana_address mint = true ->
    stored_pick chat_id mint w = None ->
    outcome_of reply = MarketDataUnavailable)) /\
  ((sol_price_feed e <=? 0)%float = true ->
   let (reply, w') := register_wallet_command e update context w in
   picks_collection w' = picks_collection w /\
   wallets_collection w' = wallets_collection w /\
   forall arg0 rest,
     args context = arg0 :: rest ->
     is_valid_solana_address (strip arg0) = true ->
     stored_wallet chat_id (strip arg0) w = None ->
     outcome_of reply = MarketDataUnavailable).
Proof.
  intros chat_id mint. split.
  - intros H. rewrite handle_contract_address_run. fold mint chat_id.
    destruct (is_valid_solana_address mint);
      [cbn [negb] | repeat split; discriminate].
    destruct (stored_pick chat_id mint w);
      [repeat split; discriminate |].
    destruct (sol_price_feed e <=? 0)%float; [repeat split |].
    destruct H as [H | H]; [discriminate |]. rewrite H. repeat split.
  - intros H. rewrite register_wallet_command_run. fold chat_id.
    destruct (args context) as [| arg0 rest];
      [repeat split; discriminate |]. cbn zeta.
    destruct (is_valid_solana_address (strip arg0)) eqn:Hv; cbn [negb].
    + destruct (stored_wallet chat_id (strip arg0) w) eqn:Hst.
      * repeat split. intros a r E. injection E as <- <-. congruence.
      * rewrite H. repeat split.
    + repeat split. intros a r E. injection E as <- <-. congruence.
Qed.

Lemma unavailable_market_aborts_without_writes_witness :
  outcome_of (fst (handle_contract_address (market 0 0.0001 [])
                     (message "ana" mint_a) no_args empty_world))
    = MarketDataUnavailable /\
  outcome_of (fst (handle_contract_address (market 150 0 [])
                     (message "ana" mint_a) no_args empty_world))
    = MarketDataUnavailable /\
  outcome_of (fst (register_wallet_command (market 0 0.0001 [])
                     (message "ana" []) {| args := [wallet_a] |}
                     empty_world))
    = MarketDataUnavailable.
Proof.
  pose proof (@unavailable_market_aborts_without_writes
                (market 0 0.0001 []) (message "ana" mint_a) no_args
                empty_world) as [H1 _].
  pose proof (@unavailable_market_aborts_without_writes
                (market 150 0 []) (message "ana" mint_a) no_args
                empty_world) as [H2 _].
  pose proof (@unavailable_market_aborts_without_writes
                (market 0 0.0001 []) (message "ana" [])
                {| args := [wallet_a] |} empty_world) as [_ H3].
  cbn zeta in *.
  specialize (H1 (or_introl eq_refl)).
  specialize (H2 (or_intror eq_refl)).
  specialize (H3 eq_refl).
  destruct (handle_contract_address (market 0 0.0001 []) _ _ _) as [r1 w1].
  destruct (handle_contract_address (market 150 0 []) _ _ _) as [r2 w2].
  destruct (register_wallet_command _ _ _ _) as [r3 w3].
  cbn [fst]. repeat split.
  - now apply H1.
  - now apply H2.
  - now apply (proj2 (proj2 H3) wallet_a []).
Defined.

(** C5.  Every update the bot serves keeps the stored positions unique on
    [(chat_id, mint_address)]; and once [handle_contract_address] has added a
    position, a later submission of the same address in the same chat, by
    anyone and at any prices, is answered with [DuplicateKey] and changes
    nothing. *)
Theorem duplicate_entry_is_rejected :
  (forall (ev : event) (w : world),
     unique_picks w -> unique_picks (snd (serve ev w))) /\
  (forall (e1 e2 : env) (u1 u2 : Update) (c1 c2 : Context) (w : world)
          (evs : list event),
     outcome_of (fst (handle_contract_address e1 u1 c1 w)) = Done ->
     effective_chat_id u2 = effective_chat_id u1 ->
     strip (message_text u2) = strip (message_text u1) ->
     let w1 := run evs (snd (handle_contract_address e1 u1 c1 w)) in
     handle_contract_address e2 u2 c2 w1
       = (AlreadyShilled (strip (message_text u1)), w1) /\
     outcome_of (fst (handle_contract_address e2 u2 c2 w1)) = DuplicateKey).
Proof.
  split; [exact unique_picks_serve |].
  intros e1 e2 u1 u2 c1 c2 w evs Hdone Hchat Htext w1.
  assert (Hst : exists doc,
             stored_pick (effective_chat_id u1) (strip (message_text u1)) w1
             = Some doc /\
             is_valid_solana_address (strip (message_text u1)) = true).
  { subst w1. revert Hdone. rewrite handle_contract_address_run.
    destruct (is_valid_solana_address (strip (message_text u1))) eqn:Hv;
      cbn [negb]; [| discriminate].
    destruct (stored_pick _ _ w) eqn:Hfresh; [discriminate |].
    destruct (_ <=? _)%float; [discriminate |].
    destruct (_ <=? _)%float; [discriminate |].
    intros _. cbn [snd]. exists (entry_of e1 u1). split; [| reflexivity].
    apply stored_pick_run. unfold stored_pick in *. unfold add_pick.
    cbn [picks_collection after_reads].
    rewrite (find_app_none _ _ _ Hfresh).
    cbn [find entry_of p_chat_id mint_address].
    now rewrite Z.eqb_refl, str_eqb_refl. }
  destruct Hst as [doc [Hst Hv]].
  rewrite handle_contract_address_run, Htext, Hchat, Hv, Hst.
  cbn [negb fst outcome_of]. split; reflexivity.
Qed.

Lemma duplicate_entry_is_rejected_witness :
  let w1 := snd (handle_contract_address (market 150 0.0001 [])
                   (message "ana" mint_a) no_args empty_world) in
  handle_contract_address (market 160 0.00012 []) (message "bob" mint_a)
    no_args w1
  = (AlreadyShilled mint_a, w1).
Proof.
  apply (proj1 (proj2 duplicate_entry_is_rejected
                  (market 150 0.0001 []) (market 160 0.00012 [])
                  (message "ana" mint_a) (message "bob" mint_a)
                  no_args no_args empty_world []
                  eq_refl eq_refl eq_refl)).
Defined.

(** C9.  Zero drift.  An entry read at reference price 150 and trade price
    0.0001 stores [cost_basis_usd = 75.0] and [num_tokens = 5000.0]; valued
    again at reference price 150 and trade price 0.0001, its [pnl] is [0.0];
    and when it is the only position of the chat, the leaderboard reply
    lists it first with that [pnl]. *)
Theorem zero_drift_under_unchanged_prices
  (e e' : env) (update lb : Update) (context context' : Context) (w : world) :
  let chat_id := effective_chat_id update in
  let mint := strip (message_text update) in
  let w' := snd (handle_contract_address e update context w) in
  is_valid_solana_address mint = true ->
  stored_pick chat_id mint w = None ->
  sol_price_feed e = 150%float -> close_price_feed e mint = 0.0001%float ->
  sol_price_feed e' = 150%float -> close_price_feed e' mint = 0.0001%float ->
  exists doc,
    stored_pick chat_id mint w' = Some doc /\
    cost_basis_usd doc = 75%float /\
    num_tokens doc = 5000%float /\
    row_pnl (token_valuation e' (sol_price_feed e') doc) = 0%float /\
    (effective_chat_id lb = chat_id -> picks_of_chat chat_id w = [] ->
     exists row,
       fst (leaderboard_command e' lb context' w') = Leaderboard [(1, row)]
       /\ row_mint row = mint /\ row_pnl row = 0%float).
Proof.
  intros chat_id mint w' Hvalid Hfresh Hr Ht Hr' Ht'.
  destruct (@entry_added e update context w Hvalid Hfresh) as [Hrun Hst].
  { now rewrite Hr. }
  { fold mint. now rewrite Ht. }
  fold mint chat_id w' in Hrun, Hst.
  set (doc := entry_of e update) in *.
  assert (Hpicks : picks_collection w' = picks_collection w ++ [doc])
    by (unfold w'; now rewrite Hrun).
  assert (Hchat : p_chat_id doc = chat_id) by reflexivity.
  assert (Hmint : mint_address doc = mint) by reflexivity.
  assert (Hcost : cost_basis_usd doc = (0.5 * 150)%float)
    by (unfold doc, entry_of; cbn [cost_basis_usd]; now rewrite Hr).
  assert (Htok : num_tokens doc = (0.5 / 0.0001)%float)
    by (unfold doc, entry_of; cbn [num_tokens]; fold mint; now rewrite Ht).
  assert (Hpnl : row_pnl (token_valuation e' (sol_price_feed e') doc)
                 = 0%float).
  { unfold token_valuation. cbn [row_pnl].
    rewrite Hmint, Ht', Hr', Hcost, Htok. reflexivity. }
  exists doc.
  split; [apply (Hst []) |].
  split; [rewrite Hcost; reflexivity |].
  split; [rewrite Htok; reflexivity |].
  split; [exact Hpnl |].
  intros Hlb Hempty.
  exists (token_valuation e' (sol_price_feed e') doc).
  rewrite leaderboard_command_run, Hr', Hlb.
  change (150 <=? 0)%float with false. cbn iota.
  unfold picks_of_chat in *. rewrite Hpicks, filter_app, Hempty.
  cbn [filter app]. rewrite Hchat, Z.eqb_refl.
  cbn [List.map]. rewrite <- Hr'.
  split; [reflexivity |]. split; [| exact Hpnl].
  unfold token_valuation. cbn [row_mint]. exact Hmint.
Qed.

Lemma zero_drift_under_unchanged_prices_witness :
  exists row,
    fst (leaderboard_command (market 150 0.0001 []) (message "bob" [])
           no_args
           (snd (handle_contract_address (market 150 0.0001 [])
                   (message "ana" mint_a) no_args empty_world)))
    = Leaderboard [(1, row)] /\ row_mint row = mint_a /\
    row_pnl row = 0%float.
Proof.
  destruct (@zero_drift_under_unchanged_prices
              (market 150 0.0001 []) (market 150 0.0001 [])
              (message "ana" mint_a) (message "bob" []) no_args no_args
              empty_world eq_refl eq_refl eq_refl eq_refl eq_refl eq_refl)
    as [doc [_ [_ [_ [_ H]]]]].
  exact (H eq_refl eq_refl).
Defined.

(* ================================================================== *)
(** * The share text *)
(* ================================================================== *)

(** C10.  For a user with no stored position in the chat, [share_command]
    answers [NoPositions] and leaves the world as it is, the log of
    market-data reads included: no read is made, so the answer is the same
    when the market data is unavailable.  With a stored position the
    reference price is the first read, and its failure is then answered with
    [MarketDataUnavailable]. *)
Theorem share_checks_positions_before_market
  (e : env) (update : Update) (context : Context) (w : world) :
  (picks_of_user (effective_chat_id update) (effective_user_id update) w = []
   -> share_command e update context w = (NoPicksForUser, w) /\
      outcome_of (fst (share_command e update context w)) = NoPositions /\
      reads (snd (share_command e update context w)) = reads w) /\
  (picks_of_user (effective_chat_id update) (effective_user_id update) w <> []
   -> (sol_price_feed e <=? 0)%float = true ->
      outcome_of (fst (share_command e update context w))
        = MarketDataUnavailable /\
      reads (snd (share_command e update context w))
        = reads w ++ [ReadSolPrice]).
Proof.
  rewrite share_command_run. split.
  - intros ->. repeat split.
  - intros Hne Hsol.
    destruct (picks_of_user _ _ w); [now elim Hne |].
    rewrite Hsol. split; reflexivity.
Qed.

Lemma share_checks_positions_before_market_witness :
  share_command (market 0 0 []) (message "ana" []) no_args empty_world
  = (NoPicksForUser, empty_world).
Proof.
  apply (proj1 (@share_checks_positions_before_market
                  (market 0 0 []) (message "ana" []) no_args empty_world)
               eq_refl).
Defined.

(* ================================================================== *)
(** * Arithmetic with a zero price *)
(* ================================================================== *)

Section ZeroPrice.

Open Scope float_scope.

Lemma eqb_zero_SF (x : float) :
  (x =? 0) = true -> exists s, Prim2SF x = S754_zero s.
Proof.
  rewrite FloatAxioms.eqb_spec.
  change (Prim2SF 0) with (S754_zero false).
  destruct (Prim2SF x) as [s | s | | s m ex]; cbn; try discriminate;
    try (destruct s; discriminate).
  intros _. now exists s.
Qed.

Lemma is_finite_SF (x : float) :
  is_finite x = true ->
  (exists s, Prim2SF x = S754_zero s) \/
  (exists s m ex, Prim2SF x = S754_finite s m ex).
Proof.
  unfold is_finite, is_nan, is_infinity.
  rewrite !FloatAxioms.eqb_spec, abs_spec.
  change (Prim2SF infinity) with (S754_infinity false).
  destruct (Prim2SF x) as [s | s | | s m ex]; cbn; try discriminate;
    try (destruct s; discriminate).
  - intros _. left. now exists s.
  - intros _. right. now exists s, m, ex.
Qed.

Lemma SFeqb_refl (x : spec_float) : x <> S754_nan -> SFeqb x x = true.
Proof.
  intros H. unfold SFeqb.
  destruct (SFcompare_rank H H) as [c [-> [_ [[_ E] _]]]].
  now rewrite (E eq_refl).
Qed.

(** A position valued at a zero trade price: the current price is zero and
    the profit is the loss of the whole cost basis. *)
Lemma zero_price_valuation (tokens close sol cost : float) :
  (close =? 0) = true -> is_finite sol = true -> is_finite tokens = true ->
  is_number cost ->
  (close * sol =? 0) = true /\
  (tokens * (close * sol) - cost =? - cost) = true.
Proof.
  intros Hc Hs Ht Hk.
  apply eqb_zero_SF in Hc. destruct Hc as [sc Hc].
  apply is_number_spec in Hk.
  rewrite !FloatAxioms.eqb_spec, sub_spec, !mul_spec, opp_spec, Hc.
  change (Prim2SF 0) with (S754_zero false).
  assert (Hz : exists z, SF64mul (S754_zero sc) (Prim2SF sol) = S754_zero z).
  { destruct (is_finite_SF _ Hs) as [[s ->] | [s [m [ex ->]]]];
      cbn; eexists; reflexivity. }
  destruct Hz as [z ->]. split; [reflexivity |].
  assert (Hz : exists z', SF64mul (Prim2SF tokens) (S754_zero z)
                          = S754_zero z').
  { destruct (is_finite_SF _ Ht) as [[s ->] | [s [m [ex ->]]]];
      cbn; eexists; reflexivity. }
  destruct Hz as [z' ->].
  destruct (Prim2SF cost) as [s | s | | s m ex]; [| | now elim Hk |].
  - destruct z', s; reflexivity.
  - destruct s; reflexivity.
  - change (SFeqb (S754_finite (negb s) m ex) (S754_finite (negb s) m ex)
            = true).
    apply SFeqb_refl. discriminate.
Qed.

End ZeroPrice.

(* ================================================================== *)
(** * The leaderboards *)
(* ================================================================== *)

(** The reply of a token leaderboard that has a reference price and picks:
    all picks of the chat are valued, sorted, and the first ten numbered. *)
Lemma leaderboard_command_reply
  (e : env) (update : Update) (context : Context) (w : world) :
  (sol_price_feed e <=? 0)%float = false ->
  picks_of_chat (effective_chat_id update) w <> [] ->
  fst (leaderboard_command e update context w)
  = Leaderboard
      (enumerate 1
         (firstn 10
            (sort_by row_pnl true
               (List.map (token_valuation e (sol_price_feed e))
                  (picks_of_chat (effective_chat_id update) w))))).
Proof.
  intros Hsol Hne. rewrite leaderboard_command_run, Hsol.
  destruct (picks_of_chat _ w); [now elim Hne | reflexivity].
Qed.

Lemma sniper_leaderboard_command_reply
  (e : env) (update : Update) (context : Context) (w : world) :
  (sol_price_feed e <=? 0)%float = false ->
  wallets_of_chat (effective_chat_id update) w <> [] ->
  fst (sniper_leaderboard_command e update context w)
  = match wallet_valuations e
            (wallets_of_chat (effective_chat_id update) w) with
    | Some results =>
        SniperLeaderboard
          (enumerate 1 (firstn 10 (sort_by pnl_usd true results)))
    | None => Raised
    end.
Proof.
  intros Hsol Hne. rewrite sniper_leaderboard_command_run, Hsol.
  destruct (wallets_of_chat _ w); [now elim Hne | reflexivity].
Qed.

(** A pass over wallets that all have a valuation has as many results as
    wallets. *)
Lemma wallet_valuations_length (e : env) (l : list wallet_doc)
  (results : list wallet_row) :
  wallet_valuations e l = Some results ->
  List.length results = List.length l.
Proof.
  unfold wallet_valuations. intros H. apply all_of_Forall2 in H.
  apply Forall2_length in H. now rewrite length_map in H.
Qed.

Lemma wallet_valuations_nth (e : env) (l : list wallet_doc)
  (results : list wallet_row) (i : nat) (d : wallet_doc) :
  wallet_valuations e l = Some results ->
  nth_error l i = Some d ->
  exists item,
    nth_error results i = Some item /\ wallet_valuation e d = Some item.
Proof.
  unfold wallet_valuations. intros H. apply all_of_Forall2 in H.
  revert results i H. induction l as [| d0 l IH]; intros results i H Hd.
  - destruct i; discriminate.
  - cbn [List.map] in H. inversion H as [| o x l' xs Ho Hl]; subst.
    destruct i as [| i]; cbn [nth_error] in *.
    + injection Hd as <-. exists x. now split.
    + now apply IH.
Qed.

Lemma wallet_valuations_In (e : env) (l : list wallet_doc)
  (results : list wallet_row) (d : wallet_doc) :
  wallet_valuations e l = Some results -> In d l ->
  exists item, In item results /\ wallet_valuation e d = Some item.
Proof.
  intros H Hin. apply In_nth_error in Hin. destruct Hin as [i Hi].
  destruct (@wallet_valuations_nth e l results i d H Hi) as [item [H1 H2]].
  exists item. split; [eapply nth_error_In; exact H1 | exact H2].
Qed.








(** C2, as stated, fails: a [pnl] that is not a number has no place in the
    order.  With [mint_a] entered at the smallest positive trade price
    ([num_tokens] overflows to infinity) and later read at the sentinel 0,
    its [pnl] is NaN; the leaderboard lists it first, before a [pnl] of 0.
    No other order of the two would do: next to NaN, nothing is
    non-increasing. *)
Lemma leaderboard_with_nan_pnl_is_not_ordered :
  ranked_pnls
    (fst (leaderboard_command (market 150 0 []) (message "bob" []) no_args
            (shilled_a_b 0x1p-1074)))
  = [nan; 0%float] /\
  non_increasing
    (ranked_pnls
       (fst (leaderboard_command (market 150 0 []) (message "bob" [])
               no_args (shilled_a_b 0x1p-1074))))
  = false /\
  non_increasing [0%float; nan] = false.
Proof. repeat split; vm_compute; reflexivity. Qed.

(** C2, amended.  Every leaderboard reply, token or wallet, lists at most
    ten entries, the first ten of an arrangement of all valuations of the
    chat, with the ranks 1, 2, 3, ...; when every computed [pnl] is a number
    (not NaN), the reply is ordered by non-increasing [pnl] and records of
    equal [pnl] stand in their input order. *)
Theorem leaderboards_rank_by_pnl
  (e : env) (update : Update) (context : Context) (w : world) :
  let chat_id := effective_chat_id update in
  (sol_price_feed e <=? 0)%float = false ->
  (forall data_list,
     data_list = List.map (token_valuation e (sol_price_feed e))
                   (picks_of_chat chat_id w) ->
     data_list <> [] ->
     exists ranked,
       fst (leaderboard_command e update context w) = Leaderboard ranked /\
       ranks_from_1 ranked /\
       List.length ranked <= 10 /\
       List.length ranked = Nat.min 10 (List.length data_list) /\
       (exists sorted, Permutation sorted data_list /\
                       List.map snd ranked = firstn 10 sorted) /\
       (Forall (fun item => is_number (row_pnl item)) data_list ->
        non_increasing (ranked_pnls (Leaderboard ranked)) = true /\
        ties_in_input_order row_pnl data_list (List.map snd ranked))) /\
  (forall results,
     wallet_valuations e (wallets_of_chat chat_id w) = Some results ->
     results <> [] ->
     exists ranked,
       fst (sniper_leaderboard_command e update context w)
         = SniperLeaderboard ranked /\
       ranks_from_1 ranked /\
       List.length ranked <= 10 /\
       List.length ranked = Nat.min 10 (List.length results) /\
       (exists sorted, Permutation sorted results /\
                       List.map snd ranked = firstn 10 sorted) /\
       (Forall (fun item => is_number (pnl_usd item)) results ->
        non_increasing (ranked_pnls (SniperLeaderboard ranked)) = true /\
        ties_in_input_order pnl_usd results (List.map snd ranked))).
Proof.
  intros chat_id Hsol. split.
  - intros data_list -> Hne.
    destruct (@ranked_shape _ row_pnl
                (List.map (token_valuation e (sol_price_feed e))
                   (picks_of_chat chat_id w))) as [H1 [H2 [H3 H4]]].
    eexists. split.
    + apply leaderboard_command_reply; [exact Hsol |].
      intros E. fold chat_id in E. rewrite E in Hne. now elim Hne.
    + fold chat_id. repeat split; try assumption;
        destruct (@ranked_spec _ row_pnl _ H) as [_ [_ [G3 [G4 _]]]];
        assumption.
  - intros results Hres Hne.
    destruct (@ranked_shape _ pnl_usd results) as [H1 [H2 [H3 H4]]].
    assert (Hw : wallets_of_chat chat_id w <> []).
    { intros E. rewrite E in Hres. cbn in Hres. injection Hres as <-.
      now elim Hne. }
    eexists. split.
    + rewrite (@sniper_leaderboard_command_reply e update context w Hsol Hw).
      fold chat_id. rewrite Hres. reflexivity.
    + repeat split; try assumption;
        destruct (@ranked_spec _ pnl_usd _ H) as [_ [_ [G3 [G4 _]]]];
        assumption.
Qed.

Lemma leaderboards_rank_by_pnl_witness :
  (exists ranked,
     fst (leaderboard_command (market 160 0.00012 []) (message "bob" [])
            no_args (shilled_a_b 0.0001))
     = Leaderboard ranked /\
     ranks_from_1 ranked /\
     non_increasing (ranked_pnls (Leaderboard ranked)) = true) /\
  (exists ranked,
     fst (sniper_leaderboard_command
            (market 160 0 [units 1000 0.05; units 2 10])
            (message "bob" []) no_args registered_a)
     = SniperLeaderboard ranked /\
     ranks_from_1 ranked /\
     non_increasing (ranked_pnls (SniperLeaderboard ranked)) = true).
Proof.
  split.
  - destruct (proj1 (@leaderboards_rank_by_pnl
                       (market 160 0.00012 []) (message "bob" []) no_args
                       (shilled_a_b 0.0001) eq_refl) _ eq_refl)
      as [ranked [H1 [H2 [_ [_ [_ H3]]]]]].
    + vm_compute. discriminate.
    + exists ranked. split; [exact H1 |]. split; [exact H2 |].
      apply H3. vm_compute. repeat constructor.
  - destruct (proj2 (@leaderboards_rank_by_pnl
                       (market 160 0 [units 1000 0.05; units 2 10])
                       (message "bob" []) no_args registered_a eq_refl)
                _ eq_refl)
      as [ranked [H1 [H2 [_ [_ [_ H3]]]]]].
    + vm_compute. discriminate.
    + exists ranked. split; [exact H1 |]. split; [exact H2 |].
      apply H3. vm_compute. repeat constructor.
Defined.

(* ================================================================== *)
(** * Percent-encoding *)
(* ================================================================== *)

Section Quote.

Lemma continuation_byte (a : N) : (128 + a mod 64 < 256)%N.
Proof.
  assert (a mod 64 < 64)%N by (apply N.mod_lt; discriminate). lia.
Qed.

Lemma leading_byte (base a k n : N) :
  (a < k * n)%N -> (base + n <= 256)%N -> (base + a / k < 256)%N.
Proof.
  intros Ha Hn. assert (a / k < n)%N; [| lia].
  now apply N.Div0.div_lt_upper_bound.
Qed.

Lemma some_inj (A : Type) (a b : A) : Some a = Some b -> a = b.
Proof. congruence. Qed.

Lemma utf8_char_bytes (c : N) (bs : list N) :
  utf8_char c = Some bs -> Forall (fun b => (b < 256)%N) bs.
Proof.
  unfold utf8_char.
  destruct (N.ltb_spec c 128); [intros E; apply some_inj in E; rewrite <- E |].
  { repeat constructor. assumption || lia. }
  destruct (N.ltb_spec c 2048); [intros E; apply some_inj in E; rewrite <- E |].
  { constructor; [apply leading_byte with (n := 32%N); lia |].
    constructor; [apply continuation_byte | constructor]. }
  destruct (N.ltb_spec c 65536).
  { destruct ((55296 <=? c) && (c <=? 57343))%N; [discriminate |].
    intros E; apply some_inj in E; rewrite <- E.
    constructor; [apply leading_byte with (n := 16%N); lia |].
    constructor; [apply continuation_byte |].
    constructor; [apply continuation_byte | constructor]. }
  destruct (N.ltb_spec c 1114112); [| discriminate].
  intros E; apply some_inj in E; rewrite <- E.
  constructor; [apply leading_byte with (n := 16%N); lia |].
  constructor; [apply continuation_byte |].
  constructor; [apply continuation_byte |].
  constructor; [apply continuation_byte | constructor].
Qed.

Lemma utf8_char_scalar (c : N) :
  is_scalar c = true -> exists bs, utf8_char c = Some bs.
Proof.
  unfold is_scalar, utf8_char. intros H.
  destruct (N.ltb_spec c 128); [eexists; reflexivity |].
  destruct (N.ltb_spec c 2048); [eexists; reflexivity |].
  destruct (N.ltb_spec c 65536).
  - destruct (N.leb_spec 55296 c), (N.leb_spec c 57343); cbn [andb];
      try (eexists; reflexivity).
    exfalso. revert H.
    destruct (N.ltb_spec c 55296), (N.ltb_spec 57343 c); cbn;
      try discriminate; lia.
  - destruct (N.ltb_spec c 1114112); [eexists; reflexivity |].
    exfalso. revert H.
    destruct (N.ltb_spec c 55296), (N.ltb_spec 57343 c); cbn;
      try discriminate; lia.
Qed.

Lemma encode_utf8_bytes (s : str) (bs : list N) :
  encode_utf8 s = Some bs -> Forall (fun b => (b < 256)%N) bs.
Proof.
  revert bs. induction s as [| c s IH]; intros bs; cbn [encode_utf8].
  - intros E. injection E as <-. constructor.
  - destruct (utf8_char c) as [cs |] eqn:Hc; [| discriminate].
    destruct (encode_utf8 s) as [rest |]; [| discriminate].
    intros E. injection E as <-. apply Forall_app. split.
    + eapply utf8_char_bytes, Hc.
    + now apply IH.
Qed.

(** The encoding is defined on every text of scalar values. *)
Lemma encode_utf8_total (s : str) :
  Forall (fun c => is_scalar c = true) s -> exists bs, encode_utf8 s = Some bs.
Proof.
  induction 1 as [| c s Hc _ [rest IH]]; cbn [encode_utf8].
  - now exists [].
  - destruct (utf8_char_scalar _ Hc) as [cs ->]. rewrite IH.
    eexists. reflexivity.
Qed.

Lemma hex_digit_safe (n : N) : (n < 16)%N -> always_safe (hex_digit n) = true.
Proof.
  intros H.
  assert (Hall : forallb (fun k => always_safe (hex_digit (N.of_nat k)))
                   (seq 0 16) = true) by (vm_compute; reflexivity).
  rewrite forallb_forall in Hall. specialize (Hall (N.to_nat n)).
  rewrite N2Nat.id in Hall. apply Hall, in_seq. lia.
Qed.

(** What a byte becomes: safe characters, the slash, and [%]. *)
Lemma quoter_chars (b : N) :
  (b < 256)%N ->
  Forall (fun c => always_safe c = true \/ c = chr "/" \/ c = chr "%")
         (quoter (lit "/") b).
Proof.
  intros Hb. unfold quoter.
  destruct (always_safe b) eqn:Hs; cbn [orb].
  - constructor; [now left | constructor].
  - destruct (existsb (N.eqb b) (lit "/")) eqn:Hsl.
    + constructor; [| constructor]. right. left.
      cbn in Hsl. rewrite orb_false_r in Hsl. now apply N.eqb_eq in Hsl.
    + constructor; [right; now right |].
      constructor; [| constructor; [| constructor]]; left;
        apply hex_digit_safe.
      * apply N.Div0.div_lt_upper_bound. exact Hb.
      * apply N.mod_lt. discriminate.
Qed.

Lemma quote_chars (s encoded : str) :
  quote s = Some encoded ->
  Forall (fun c => always_safe c = true \/ c = chr "/" \/ c = chr "%")
         encoded.
Proof.
  unfold quote. destruct (encode_utf8 s) as [bs |] eqn:E; [| discriminate].
  intros H. injection H as <-. apply encode_utf8_bytes in E.
  induction E as [| b bs Hb _ IH]; cbn [flat_map]; [constructor |].
  apply Forall_app. split; [now apply quoter_chars | exact IH].
Qed.

(** No reserved character is safe, and [%] is not reserved. *)
Lemma reserved_not_safe (c : N) :
  In c reserved -> always_safe c = false /\ c <> chr "%".
Proof.
  intros H. cbn in H.
  repeat (destruct H as [<- | H]; [split; [reflexivity | discriminate] |]).
  destruct H.
Qed.

End Quote.

(* ================================================================== *)
(** * The share text is made of what it is given *)
(* ================================================================== *)

Lemma forallb_Forall (A : Type) (f : A -> bool) (l : list A) :
  forallb f l = true -> Forall (fun a => f a = true) l.
Proof.
  intros H. apply Forall_forall. now apply forallb_forall.
Qed.

Section ScalarText.

Let scalar (s : str) : Prop := Forall (fun c => is_scalar c = true) s.

Lemma small_is_scalar (c : N) : (c < 55296)%N -> is_scalar c = true.
Proof.
  intros H. unfold is_scalar. apply N.ltb_lt in H. now rewrite H.
Qed.

Lemma lit_scalar (s : string) : scalar (lit s).
Proof.
  unfold scalar, lit. apply Forall_forall. intros c Hc.
  apply in_map_iff in Hc. destruct Hc as [a [<- _]].
  apply small_is_scalar. pose proof (N_ascii_bounded a). lia.
Qed.

Lemma str_of_int_scalar (n : Z) : scalar (str_of_int n).
Proof.
  unfold str_of_int. destruct n; try apply lit_scalar.
  constructor; [reflexivity | apply lit_scalar].
Qed.

Lemma group_rev_scalar (ds : str) (k : nat) :
  scalar ds -> scalar (group_rev ds k).
Proof.
  unfold scalar. intros H. revert k.
  induction H as [| d ds Hd _ IH]; intros k; cbn [group_rev];
    [constructor |].
  destruct (Nat.eqb k 3); repeat (constructor; try assumption);
    try reflexivity; apply IH.
Qed.

Lemma group_thousands_scalar (ds : str) :
  scalar ds -> scalar (group_thousands ds).
Proof.
  intros H. unfold group_thousands.
  apply Forall_rev, group_rev_scalar, Forall_rev, H.
Qed.

Lemma digit_scalar (d : Z) : (0 <= d < 10)%Z -> is_scalar (digit d) = true.
Proof. intros H. apply small_is_scalar. unfold digit. lia. Qed.

Lemma format_2f_scalar (grouped : bool) (x : float) :
  scalar (format_2f grouped x).
Proof.
  unfold format_2f.
  destruct (Prim2SF x) as [s | s | | s m ex].
  - apply Forall_app. split; [destruct s; [apply lit_scalar | constructor] |].
    apply lit_scalar.
  - destruct s; apply lit_scalar.
  - apply lit_scalar.
  - cbv zeta.
    set (cents := if (0 <=? ex)%Z then _ else _).
    apply Forall_app. split; [destruct s; [apply lit_scalar | constructor] |].
    apply Forall_app. split.
    + destruct grouped; [apply group_thousands_scalar |];
        apply str_of_int_scalar.
    + apply Forall_app. split; [apply lit_scalar |].
      assert (0 <= cents mod 100 < 100)%Z by (apply Z.mod_pos_bound; lia).
      constructor; [| constructor; [| constructor]]; apply digit_scalar.
      * split; [apply Z.div_pos; lia |].
        apply Z.div_lt_upper_bound; lia.
      * apply Z.mod_pos_bound; lia.
Qed.

Lemma signed_usd_scalar (pnl : float) : scalar (signed_usd pnl).
Proof.
  unfold signed_usd. cbv zeta.
  apply Forall_app. split; [destruct (0 <=? pnl)%float; apply lit_scalar |].
  apply Forall_app. split; [apply lit_scalar | apply format_2f_scalar].
Qed.

Lemma join_scalar (sep : str) (parts : list str) :
  scalar sep -> Forall scalar parts -> scalar (join sep parts).
Proof.
  intros Hsep H. induction H as [| p ps Hp Hps IH]; [constructor |].
  cbn [join]. destruct ps as [| q ps]; [assumption |].
  apply Forall_app. split; [assumption |].
  apply Forall_app. split; assumption.
Qed.

Lemma share_line_scalar (identifier : str) (pnl : float) :
  scalar identifier -> scalar (share_line identifier pnl).
Proof.
  intros H. unfold share_line.
  apply Forall_app. split; [assumption |].
  apply Forall_app. split; [apply lit_scalar | apply signed_usd_scalar].
Qed.

(** The text has a lone surrogate only if the user name or a line has
    one. *)
Lemma tweet_text_of_scalar (username : str) (chat_id : Z)
  (lines : list str) (total : float) :
  scalar username -> Forall scalar lines ->
  scalar (tweet_text_of username chat_id lines total).
Proof.
  intros Hu Hl. unfold tweet_text_of.
  assert (Hnl : scalar [10%N]) by (repeat constructor).
  repeat (apply Forall_app; split);
    try apply lit_scalar; try apply str_of_int_scalar;
    try apply signed_usd_scalar; try assumption;
    try (repeat constructor; fail);
    try apply format_2f_scalar;
    try (destruct (0 <=? total)%float; apply lit_scalar).
  now apply join_scalar.
Qed.

End ScalarText.

Lemma share_command_reply
  (e : env) (update : Update) (context : Context) (w : world) :
  picks_of_user (effective_chat_id update) (effective_user_id update) w <> []
  -> (sol_price_feed e <=? 0)%float = false ->
  fst (share_command e update context w)
  = match quote (share_text e update
                   (picks_of_user (effective_chat_id update)
                      (effective_user_id update) w)) with
    | None => Raised
    | Some encoded_tweet => ShareLink (share_prefix ++ encoded_tweet)
    end.
Proof.
  intros Hne Hsol. rewrite share_command_run, Hsol.
  destruct (picks_of_user _ _ w); [now elim Hne | reflexivity].
Qed.

(** C8, as stated, fails: the slash is reserved and is not escaped.  For a
    user named [a/b] the link carries the slash as it is. *)
Lemma share_link_keeps_the_slash :
  In (chr "/") reserved /\
  fst (share_command (market 160 0.00012 []) (message "a/b" []) no_args
         (shilled_a 0.0001))
  = ShareLink
      (share_prefix
         ++ lit "a/b%27s%20Picks%20%28Chat%20-1001%29%3A%0A%0A"
         ++ mint_a
         ++ lit "%20%3D%3E%20%2B%2421.00%0A%0ATotal%20PnL%3A%20%2B%2421.00%0AShared%20via%20%23SnipeChecksBot").
Proof.
  split; [cbn; tauto |]. vm_compute. reflexivity.
Qed.

(** ** The text and its encoding, in the words of the design *)

Lemma signed_usd_amount (x : float) : signed_usd x = signed_amount x.
Proof.
  unfold signed_usd, signed_amount. destruct (0 <=? x)%float; reflexivity.
Qed.

Lemma unlines_cons (line : str) (rest : list str) :
  rest <> [] -> unlines (line :: rest) = line ++ 10%N :: unlines rest.
Proof. destruct rest; [intros H; now elim H | reflexivity]. Qed.

Lemma unlines_app (l1 l2 : list str) :
  l1 <> [] -> l2 <> [] ->
  unlines (l1 ++ l2) = unlines l1 ++ 10%N :: unlines l2.
Proof.
  intros H1 H2. induction l1 as [| a l1 IH]; [now elim H1 |].
  destruct l1 as [| b l1].
  - cbn [app]. now rewrite unlines_cons.
  - change ((a :: b :: l1) ++ l2) with (a :: ((b :: l1) ++ l2)).
    rewrite !unlines_cons by discriminate.
    rewrite IH by discriminate. now rewrite <- app_assoc.
Qed.

Lemma join_unlines (lines : list str) : join [10%N] lines = unlines lines.
Proof.
  induction lines as [| a l IH]; [reflexivity |].
  destruct l as [| b l]; [reflexivity |].
  cbn [join unlines] in *. now rewrite IH.
Qed.

(** The text that [share_command] builds is the text of the lines of the
    design. *)
Lemma share_text_lines (e : env) (update : Update)
  (user_picks : list pick_doc) :
  user_picks <> [] ->
  share_text e update user_picks
  = unlines
      (share_lines (username_or_anonymous update) (effective_chat_id update)
         (List.map
            (fun p => (mint_address p,
                       row_pnl (token_valuation e (sol_price_feed e) p)))
            user_picks)).
Proof.
  intros Hne. unfold share_text, tweet_text_of, share_lines.
  set (positions :=
         List.map
           (fun p => (mint_address p,
                      row_pnl (token_valuation e (sol_price_feed e) p)))
           user_picks).
  assert (Hlines :
            List.map (fun p => mint_address p ++ lit " => "
                        ++ signed_usd
                             (row_pnl (token_valuation e (sol_price_feed e) p)))
              user_picks
            = List.map position_line positions).
  { unfold positions. rewrite map_map. apply map_ext. intros p.
    unfold position_line. cbn [fst snd]. now rewrite signed_usd_amount. }
  assert (Hsum : List.map (fun p => row_pnl
                             (token_valuation e (sol_price_feed e) p))
                   user_picks
                 = List.map snd positions).
  { unfold positions. rewrite map_map. reflexivity. }
  rewrite Hlines, Hsum, join_unlines, signed_usd_amount.
  assert (Hpos : List.map position_line positions <> []).
  { unfold positions. destruct user_picks; [now elim Hne | discriminate]. }
  change ([heading (username_or_anonymous update) (effective_chat_id update);
           []] ++ List.map position_line positions
            ++ [[]; total_line positions; closing_line])
    with (heading (username_or_anonymous update) (effective_chat_id update)
            :: [] :: (List.map position_line positions
                        ++ [[]; total_line positions; closing_line])).
  rewrite unlines_cons by discriminate.
  rewrite unlines_cons
    by (intros E; apply app_eq_nil in E; destruct E; discriminate).
  rewrite unlines_app by (assumption || discriminate).
  unfold heading, total_line, closing_line.
  cbn [unlines app]. rewrite <- !app_assoc. cbn [app].
  repeat (rewrite <- ?app_assoc; cbn [app]; f_equal).
Qed.

Lemma always_safe_unreserved (b : N) :
  always_safe b = existsb (N.eqb b) unreserved.
Proof.
  destruct (N.ltb_spec b 128) as [Hlt | Hge].
  - assert (Hall : forallb
                     (fun n => Bool.eqb (always_safe (N.of_nat n))
                                 (existsb (N.eqb (N.of_nat n)) unreserved))
                     (seq 0 128) = true) by (vm_compute; reflexivity).
    rewrite forallb_forall in Hall. specialize (Hall (N.to_nat b)).
    rewrite N2Nat.id in Hall. apply Bool.eqb_prop, Hall.
    apply in_seq. lia.
  - transitivity false.
    + apply not_true_is_false. intros H.
      assert (Hb : forall c, always_safe c = true -> (c < 128)%N).
      { intros c Hc. unfold always_safe in Hc.
        apply orb_true_iff in Hc. destruct Hc as [Hc | Hc].
        - unfold in_set, chr in Hc.
          cbn [existsb fst snd N_of_ascii N_of_digits] in Hc.
          repeat match type of Hc with
                 | context [(?x <=? ?y)%N] =>
                     destruct (N.leb_spec x y); try lia
                 end; discriminate.
        - apply existsb_exists in Hc. destruct Hc as [x [Hin Hx]].
          apply N.eqb_eq in Hx. subst x.
          cbn in Hin. intuition lia. }
      apply Hb in H. lia.
    + symmetry. apply not_true_is_false. intros H.
      apply existsb_exists in H. destruct H as [x [Hin Hx]].
      apply N.eqb_eq in Hx. subst x.
      assert (Hb : forallb (fun x => (x <? 128)%N) unreserved = true)
        by (vm_compute; reflexivity).
      rewrite forallb_forall in Hb. apply Hb in Hin.
      apply N.ltb_lt in Hin. lia.
Qed.

Lemma hex_digit_nth (n : N) :
  (n < 16)%N -> hex_digit n = nth (N.to_nat n) hex_digits 0%N.
Proof.
  intros H.
  assert (Hall : forallb
                   (fun k => (hex_digit (N.of_nat k)
                              =? nth k hex_digits 0)%N)
                   (seq 0 16) = true) by (vm_compute; reflexivity).
  rewrite forallb_forall in Hall. specialize (Hall (N.to_nat n)).
  rewrite N2Nat.id in Hall. apply N.eqb_eq, Hall, in_seq. lia.
Qed.

(** [quote] is the percent-encoding of the UTF-8 bytes that keeps the
    slash. *)
Lemma quote_percent_encode (s : str) :
  quote s = match encode_utf8 s with
            | Some bytes => Some (percent_encode (lit "/") bytes)
            | None => None
            end.
Proof.
  unfold quote. destruct (encode_utf8 s) as [bs |] eqn:E; [| reflexivity].
  f_equal. apply encode_utf8_bytes in E. unfold percent_encode.
  induction E as [| b bs Hb _ IH]; cbn [flat_map]; [reflexivity |].
  rewrite IH. f_equal. unfold quoter, escape.
  rewrite always_safe_unreserved.
  destruct (_ || _); [reflexivity |].
  rewrite !hex_digit_nth; [reflexivity | |].
  - apply N.mod_lt. discriminate.
  - now apply N.Div0.div_lt_upper_bound.
Qed.

Lemma hex_value_nth (n : N) :
  (n < 16)%N -> hex_value (nth (N.to_nat n) hex_digits 0%N) = Some n.
Proof.
  intros H.
  assert (Hall : forallb
                   (fun k => match hex_value (nth k hex_digits 0%N) with
                             | Some v => (v =? N.of_nat k)%N
                             | None => false
                             end)
                   (seq 0 16) = true) by (vm_compute; reflexivity).
  rewrite forallb_forall in Hall. specialize (Hall (N.to_nat n)).
  rewrite N2Nat.id in Hall.
  assert (Hin : In (N.to_nat n) (seq 0 16)) by (apply in_seq; lia).
  apply Hall in Hin. destruct (hex_value _) as [v |]; [| discriminate].
  apply N.eqb_eq in Hin. now subst v.
Qed.

(** Nothing is lost in the encoding: the encoded text stands for the
    bytes. *)
Lemma percent_decode_encode (bytes : list N) :
  Forall (fun b => (b < 256)%N) bytes ->
  percent_decode (percent_encode (lit "/") bytes) = Some bytes.
Proof.
  unfold percent_encode.
  induction 1 as [| b bs Hb _ IH]; cbn [flat_map]; [reflexivity |].
  destruct (existsb (N.eqb b) unreserved || existsb (N.eqb b) (lit "/"))
    eqn:Hk.
  - cbn [app percent_decode].
    assert (Hp : (b =? chr "%")%N = false).
    { apply N.eqb_neq. intros ->. discriminate Hk. }
    now rewrite Hp, IH.
  - unfold escape in *. cbn [app percent_decode]. rewrite N.eqb_refl.
    rewrite !hex_value_nth, IH.
    + f_equal. f_equal. symmetry. apply N.div_mod. discriminate.
    + apply N.mod_lt. discriminate.
    + now apply N.Div0.div_lt_upper_bound.
Qed.

Lemma percent_encode_chars (bytes : list N) :
  Forall (fun b => (b < 256)%N) bytes ->
  Forall (fun c => In c unreserved \/ c = chr "/" \/ c = chr "%")
         (percent_encode (lit "/") bytes).
Proof.
  intros Hb.
  assert (Hq : forall b, (b < 256)%N ->
                 Forall (fun c => In c unreserved \/ c = chr "/"
                                  \/ c = chr "%")
                        (quoter (lit "/") b)).
  { intros b Hlt. eapply Forall_impl; [| exact (quoter_chars Hlt)].
    cbn beta. intros c [Hc | Hc]; [left | now right].
    rewrite always_safe_unreserved in Hc.
    apply existsb_exists in Hc. destruct Hc as [x [Hin Hx]].
    apply N.eqb_eq in Hx. now subst x. }
  unfold percent_encode.
  induction Hb as [| b bs Hlt _ IH]; cbn [flat_map]; [constructor |].
  apply Forall_app. split; [| exact IH].
  specialize (Hq b Hlt). unfold quoter, escape in *.
  rewrite always_safe_unreserved in Hq.
  destruct (_ || _); [exact Hq |].
  rewrite <- !hex_digit_nth; [exact Hq | |].
  - apply N.mod_lt. discriminate.
  - now apply N.Div0.div_lt_upper_bound.
Qed.

Lemma reserved_not_unreserved (c : N) :
  In c reserved -> ~ In c unreserved /\ c <> chr "%".
Proof.
  intros H. destruct (reserved_not_safe H) as [H1 H2]. split; [| exact H2].
  intros Hin. rewrite always_safe_unreserved in H1.
  assert (existsb (N.eqb c) unreserved = true); [| congruence].
  apply existsb_exists. exists c. split; [exact Hin | apply N.eqb_refl].
Qed.

(** C8, amended.  For a user with positions and a reference price, the share
    text has these lines: a heading, an empty line, one line
    [<identifier> => <signed-$-amount>] per position, in ledger order, an
    empty line, the line of the total of the positions' [pnl], and a closing
    line.  The link carries the percent-encoding of the UTF-8 bytes of this
    text: letters, digits, [-._~] and the slash stand for themselves, every
    other byte is escaped as [%XX], so every reserved character but the
    slash is escaped, and the bytes can be read back from the link.  The
    encoding is defined whenever the user name and the identifiers have only
    Unicode scalar values; on any other text the handler raises and nothing
    is replied. *)
Theorem share_text_is_lines_total_and_escaped
  (e : env) (update : Update) (context : Context) (w : world) :
  let chat_id := effective_chat_id update in
  let user_picks := picks_of_user chat_id (effective_user_id update) w in
  let sol := sol_price_feed e in
  let positions :=
    List.map (fun p => (mint_address p, row_pnl (token_valuation e sol p)))
             user_picks in
  let text :=
    unlines (share_lines (username_or_anonymous update) chat_id positions) in
  user_picks <> [] -> (sol <=? 0)%float = false ->
  (forall bytes,
     encode_utf8 text = Some bytes ->
     let encoded := percent_encode (lit "/") bytes in
     fst (share_command e update context w)
       = ShareLink (share_prefix ++ encoded) /\
     percent_decode encoded = Some bytes /\
     Forall (fun c => In c unreserved \/ c = chr "/" \/ c = chr "%")
            encoded /\
     Forall (fun c => In c reserved -> c = chr "/") encoded) /\
  (encode_utf8 text = None ->
   fst (share_command e update context w) = Raised) /\
  (Forall (fun c => is_scalar c = true) (username_or_anonymous update) ->
   Forall (fun p => Forall (fun c => is_scalar c = true) (mint_address p))
          user_picks ->
   exists bytes, encode_utf8 text = Some bytes).
Proof.
  intros chat_id user_picks sol positions text Hne Hsol.
  pose proof (@share_command_reply e update context w Hne Hsol) as Hreply.
  pose proof (@share_text_lines e update user_picks Hne) as Htext.
  fold chat_id sol positions text in Htext.
  fold chat_id in Hreply. fold user_picks in Hreply.
  rewrite Htext, quote_percent_encode in Hreply.
  split; [| split].
  - intros bytes Hb encoded. rewrite Hb in Hreply.
    pose proof (encode_utf8_bytes _ Hb) as Hlt.
    pose proof (percent_encode_chars Hlt) as Hc.
    split; [exact Hreply |].
    split; [now apply percent_decode_encode |].
    split; [exact Hc |].
    eapply Forall_impl; [| exact Hc]. cbn beta.
    intros c [Hu | [Hsl | Hpc]] Hres; [| assumption |];
      destruct (reserved_not_unreserved Hres) as [H1 H2];
      [now elim H1 | congruence].
  - intros Hnone. now rewrite Hnone in Hreply.
  - intros Hu Hm. apply encode_utf8_total. rewrite <- Htext.
    apply tweet_text_of_scalar; [exact Hu |].
    apply Forall_map. eapply Forall_impl; [| exact Hm].
    intros p Hp. now apply share_line_scalar.
Qed.

Lemma share_text_is_lines_total_and_escaped_witness :
  exists encoded,
    fst (share_command (market 160 0.00012 []) (message "ana" []) no_args
           (shilled_a 0.0001))
    = ShareLink (share_prefix ++ encoded) /\
    percent_decode encoded
    = encode_utf8
        (unlines
           [lit "ana's Picks (Chat -1001):"; [];
            mint_a ++ lit " => +$21.00"; [];
            lit "Total PnL: +$21.00"; lit "Shared via #SnipeChecksBot"]) /\
    Forall (fun c => In c reserved -> c = chr "/") encoded.
Proof.
  destruct (@share_text_is_lines_total_and_escaped
              (market 160 0.00012 []) (message "ana" []) no_args
              (shilled_a 0.0001)) as [Hlink [_ Htotal]].
  - vm_compute. discriminate.
  - reflexivity.
  - destruct Htotal as [bytes Hb].
    + apply forallb_Forall. reflexivity.
    + apply Forall_impl
        with (P := fun p => forallb is_scalar (mint_address p) = true);
        [intros p; apply forallb_Forall |].
      apply forallb_Forall. vm_compute. reflexivity.
    + destruct (Hlink bytes Hb) as [H1 [H2 [_ H3]]].
      eexists. split; [exact H1 |]. split; [| exact H3].
      rewrite H2, <- Hb. vm_compute. reflexivity.
Defined.

(* ================================================================== *)
(** * The validator against its contract *)
(* ================================================================== *)

(** C6.  The validator accepts a string that the contract rejects: 43
    base-58 characters followed by a newline.  In general it accepts the
    strings of the contract and, besides them, 42 or 43 base-58 characters
    followed by one newline; on a stripped text, which is what the two
    handlers pass, it is the contract. *)
Theorem validator_accepts_a_trailing_newline :
  (len (mint_a ++ [10%N]) = 44 /\
   forallb in_base58 (mint_a ++ [10%N]) = false /\
   address_contract (mint_a ++ [10%N]) = false /\
   is_valid_solana_address (mint_a ++ [10%N]) = true) /\
  (forall s : str,
     is_valid_solana_address s = true <->
     address_contract s = true \/
     exists body, s = body ++ [10%N] /\ (len body = 42 \/ len body = 43) /\
                  forallb in_base58 body = true) /\
  (forall t : str,
     is_valid_solana_address (strip t) = address_contract (strip t)).
Proof.
  split; [repeat split |].
  split; [exact is_valid_solana_address_spec |].
  exact is_valid_solana_address_stripped.
Qed.

(* ================================================================== *)
(** * What one update does to the world *)
(* ================================================================== *)

Lemma stored_wallet_none_key (doc : wallet_doc) (w : world) :
  stored_wallet (w_chat_id doc) (wallet_address doc) w = None ->
  ~ In (w_chat_id doc, wallet_address doc)
       (List.map (fun d => (w_chat_id d, wallet_address d))
          (wallets_collection w)).
Proof.
  unfold stored_wallet. intros H Hin. apply in_map_iff in Hin.
  destruct Hin as [d [E Hin]]. apply (find_none _ _ H) in Hin.
  injection E as E1 E2. rewrite E1, E2, Z.eqb_refl, str_eqb_refl in Hin.
  discriminate.
Qed.

(** An update is served in one of three ways: the collections stay as they
    are; a text that is a valid address, new in its chat and priced, adds
    the position built from it; a registration of a valid wallet, new in its
    chat, at a reference price above zero adds the wallet built from it.
    Market-data reads are only added to the log. *)
Lemma serve_shape (ev : event) (w : world) :
  let e := ev_env ev in
  let u := ev_update ev in
  (exists rs, snd (serve ev w) = after_reads rs w) \/
  (ev_command ev = TextMessage /\
   is_valid_solana_address (strip (message_text u)) = true /\
   stored_pick (effective_chat_id u) (strip (message_text u)) w = None /\
   (sol_price_feed e <=? 0)%float = false /\
   (close_price_feed e (strip (message_text u)) <=? 0)%float = false /\
   exists rs, snd (serve ev w) = add_pick (entry_of e u) (after_reads rs w)) \/
  (ev_command ev = CmdRegisterWallet /\
   exists arg0 rest,
     args (ev_context ev) = arg0 :: rest /\
     is_valid_solana_address (strip arg0) = true /\
     stored_wallet (effective_chat_id u) (strip arg0) w = None /\
     (sol_price_feed e <=? 0)%float = false /\
     exists rs,
       snd (serve ev w)
       = add_wallet (registration_of e u (strip arg0)) (after_reads rs w)).
Proof.
  unfold serve. destruct ev as [cmd e u c].
  cbn [ev_command ev_env ev_update ev_context].
  destruct cmd; cbn [handler_of].
  - left. exists []. now rewrite after_reads_nil.
  - left. exists []. now rewrite after_reads_nil.
  - left. rewrite leaderboard_command_run.
    destruct (_ <=? _)%float; [eexists; reflexivity |].
    destruct (picks_of_chat _ _); eexists; reflexivity.
  - rewrite register_wallet_command_run.
    destruct (args c) as [| arg0 rest] eqn:Hargs;
      [left; exists []; now rewrite after_reads_nil |]. cbn zeta.
    destruct (is_valid_solana_address (strip arg0)) eqn:Hv; cbn [negb];
      [| left; exists []; now rewrite after_reads_nil].
    destruct (stored_wallet _ _ _) eqn:Hst;
      [left; exists []; now rewrite after_reads_nil |].
    destruct (_ <=? _)%float eqn:Hsol; [left; eexists; reflexivity |].
    right. right. split; [reflexivity |].
    exists arg0, rest. repeat split; try assumption.
    eexists. reflexivity.
  - left. rewrite sniper_leaderboard_command_run.
    destruct (_ <=? _)%float; [eexists; reflexivity |].
    destruct (wallets_of_chat _ _); eexists; reflexivity.
  - left. rewrite share_command_run.
    destruct (picks_of_user _ _ _);
      [exists []; now rewrite after_reads_nil |].
    destruct (_ <=? _)%float; eexists; reflexivity.
  - rewrite handle_contract_address_run.
    destruct (is_valid_solana_address _) eqn:Hv; cbn [negb];
      [| left; exists []; now rewrite after_reads_nil].
    destruct (stored_pick _ _ _) eqn:Hst;
      [left; exists []; now rewrite after_reads_nil |].
    destruct (sol_price_feed e <=? 0)%float eqn:Hsol;
      [left; eexists; reflexivity |].
    destruct (close_price_feed e _ <=? 0)%float eqn:Hclose;
      [left; eexists; reflexivity |].
    right. left. repeat split; try assumption. eexists. reflexivity.
Qed.

(** X1.  The ledger is append-only: after any updates, the stored positions
    and wallets are the earlier ones, unchanged and in the same order,
    followed by at most one new document per update served; the log of
    market-data reads only grows too. *)
Theorem ledger_is_append_only (evs : list event) (w : world) :
  exists new_picks new_wallets new_reads,
    picks_collection (run evs w) = picks_collection w ++ new_picks /\
    wallets_collection (run evs w) = wallets_collection w ++ new_wallets /\
    reads (run evs w) = reads w ++ new_reads /\
    List.length new_picks + List.length new_wallets <= List.length evs.
Proof.
  revert w. induction evs as [| ev evs IH]; intros w.
  - exists [], [], []. cbn. now rewrite !app_nil_r.
  - rewrite run_cons.
    destruct (IH (snd (serve ev w))) as [np [nw [nr [Hp [Hw [Hr Hlen]]]]]].
    rewrite Hp, Hw, Hr. cbn [List.length].
    destruct (serve_shape ev w)
      as [[rs ->] | [[_ [_ [_ [_ [_ [rs ->]]]]]]
                    | [_ [a [r [_ [_ [_ [_ [rs ->]]]]]]]]]];
      cbn [add_pick add_wallet after_reads picks_collection
           wallets_collection reads]; rewrite <- ?app_assoc.
    + exists np, nw, (rs ++ nr). repeat split; lia.
    + eexists (_ :: np), nw, (rs ++ nr). cbn [app List.length].
      repeat split; lia.
    + exists np. eexists (_ :: nw), (rs ++ nr). cbn [app List.length].
      repeat split; lia.
Qed.

(** X2.  Only a text message can add a position and only
    [/register_wallet] can add a wallet: every other command leaves both
    collections as they are, and [/start] and [/help] leave the whole world,
    the log of reads included. *)
Theorem commands_write_only_their_collection (ev : event) (w : world) :
  (ev_command ev <> TextMessage ->
   picks_collection (snd (serve ev w)) = picks_collection w) /\
  (ev_command ev <> CmdRegisterWallet ->
   wallets_collection (snd (serve ev w)) = wallets_collection w) /\
  (ev_command ev = CmdStart \/ ev_command ev = CmdHelp ->
   snd (serve ev w) = w).
Proof.
  repeat split.
  - intros Hcmd.
    destruct (serve_shape ev w)
      as [[rs ->] | [[Hc _] | [_ [a [r [_ [_ [_ [_ [rs ->]]]]]]]]]];
      [reflexivity | now elim Hcmd | reflexivity].
  - intros Hcmd.
    destruct (serve_shape ev w)
      as [[rs ->] | [[_ [_ [_ [_ [_ [rs ->]]]]]] | [Hc _]]];
      [reflexivity | reflexivity | now elim Hcmd].
  - unfold serve. intros [-> | ->]; reflexivity.
Qed.

Lemma commands_write_only_their_collection_witness :
  picks_collection
    (snd (serve {| ev_command := CmdRegisterWallet;
                   ev_env := market 150 0 [];
                   ev_update := message "ana" [];
                   ev_context := {| args := [wallet_a] |} |}
            (shilled_a 0.0001)))
  = picks_collection (shilled_a 0.0001) /\
  wallets_collection
    (snd (serve {| ev_command := TextMessage;
                   ev_env := market 150 0.0001 [];
                   ev_update := message "ana" mint_b;
                   ev_context := no_args |}
            registered_a))
  = wallets_collection registered_a /\
  snd (serve {| ev_command := CmdHelp;
                ev_env := market 150 0 [];
                ev_update := message "ana" [];
                ev_context := no_args |}
         registered_a)
  = registered_a.
Proof.
  split; [| split].
  - apply (proj1 (commands_write_only_their_collection _ _)).
    discriminate.
  - apply (proj1 (proj2 (commands_write_only_their_collection _ _))).
    discriminate.
  - apply (proj2 (proj2 (commands_write_only_their_collection _ _))).
    now right.
Defined.

(* ================================================================== *)
(** * Registration of a wallet *)
(* ================================================================== *)

Lemma serve_wallets (ev : event) (w : world) :
  wallets_collection (snd (serve ev w)) = wallets_collection w \/
  exists doc,
    wallets_collection (snd (serve ev w)) = wallets_collection w ++ [doc] /\
    stored_wallet (w_chat_id doc) (wallet_address doc) w = None.
Proof.
  destruct (serve_shape ev w)
    as [[rs ->] | [[_ [_ [_ [_ [_ [rs ->]]]]]]
                  | [_ [a [r [_ [_ [Hst [_ [rs ->]]]]]]]]]].
  - now left.
  - now left.
  - right. eexists. split; [reflexivity | exact Hst].
Qed.

Lemma stored_wallet_serve (ev : event) (w : world) (chat_id : Z)
  (wallet : str) (doc : wallet_doc) :
  stored_wallet chat_id wallet w = Some doc ->
  stored_wallet chat_id wallet (snd (serve ev w)) = Some doc.
Proof.
  unfold stored_wallet. intros H.
  destruct (serve_wallets ev w) as [-> | [d [-> _]]]; [assumption |].
  now apply find_app_some.
Qed.

Lemma stored_wallet_run (evs : list event) (w : world) (chat_id : Z)
  (wallet : str) (doc : wallet_doc) :
  stored_wallet chat_id wallet w = Some doc ->
  stored_wallet chat_id wallet (run evs w) = Some doc.
Proof.
  revert w. induction evs as [| ev evs IH]; intros w H; [assumption |].
  rewrite run_cons. apply IH. now apply stored_wallet_serve.
Qed.

Lemma unique_wallets_serve (ev : event) (w : world) :
  unique_wallets w -> unique_wallets (snd (serve ev w)).
Proof.
  unfold unique_wallets. intros H.
  destruct (serve_wallets ev w) as [-> | [d [-> Hd]]]; [assumption |].
  rewrite map_app. cbn [List.map].
  apply NoDup_incl_NoDup with
    (l := (w_chat_id d, wallet_address d)
            :: List.map (fun d => (w_chat_id d, wallet_address d))
                 (wallets_collection w)).
  - constructor; [now apply stored_wallet_none_key | assumption].
  - rewrite length_app. cbn. lia.
  - intros x [<- | Hx]; apply in_or_app; cbn; auto.
Qed.

(** The successful path of [register_wallet_command]. *)
Lemma registration_added (e : env) (update : Update) (context : Context)
  (w : world) (arg0 : str) (rest : list str) :
  let chat_id := effective_chat_id update in
  let wallet := strip arg0 in
  args context = arg0 :: rest ->
  is_valid_solana_address wallet = true ->
  stored_wallet chat_id wallet w = None ->
  (sol_price_feed e <=? 0)%float = false ->
  register_wallet_command e update context w
  = (WalletRegistered wallet (0.5 * sol_price_feed e)%float,
     add_wallet (registration_of e update wallet)
       (after_reads [ReadSolPrice] w)) /\
  forall evs : list event,
    stored_wallet chat_id wallet
      (run evs (snd (register_wallet_command e update context w)))
    = Some (registration_of e update wallet).
Proof.
  intros chat_id wallet Hargs Hvalid Hfresh Hsol.
  rewrite register_wallet_command_run, Hargs. cbn zeta.
  fold wallet chat_id. rewrite Hvalid, Hfresh, Hsol. cbn [negb].
  split; [reflexivity |].
  intros evs. apply stored_wallet_run. unfold stored_wallet, add_wallet.
  cbn [snd wallets_collection after_reads].
  unfold stored_wallet in Hfresh. rewrite (find_app_none _ _ _ Hfresh).
  cbn [find registration_of w_chat_id wallet_address].
  fold chat_id. now rewrite Z.eqb_refl, str_eqb_refl.
Qed.



(** X4.  The wallets collection has no unique index, yet every update the
    bot serves keeps the registered wallets unique on
    [(chat_id, wallet_address)]: once a wallet is registered, a later
    registration of the same address in the same chat, by anyone and at any
    price, is answered "already registered" and changes nothing. *)
Theorem duplicate_wallet_is_rejected :
  (forall (ev : event) (w : world),
     unique_wallets w -> unique_wallets (snd (serve ev w))) /\
  (forall (e1 e2 : env) (u1 u2 : Update) (c1 c2 : Context) (w : world)
          (evs : list event) (a1 a2 : str) (r1 r2 : list str),
     args c1 = a1 :: r1 -> args c2 = a2 :: r2 ->
     outcome_of (fst (register_wallet_command e1 u1 c1 w)) = Done ->
     effective_chat_id u2 = effective_chat_id u1 ->
     strip a2 = strip a1 ->
     let w1 := run evs (snd (register_wallet_command e1 u1 c1 w)) in
     register_wallet_command e2 u2 c2 w1 = (WalletAlreadyRegistered, w1)).
Proof.
  split; [exact unique_wallets_serve |].
  intros e1 e2 u1 u2 c1 c2 w evs a1 a2 r1 r2 Ha1 Ha2 Hdone Hchat Hstrip w1.
  assert (Hst : exists doc,
             stored_wallet (effective_chat_id u1) (strip a1) w1 = Some doc /\
             is_valid_solana_address (strip a1) = true).
  { revert Hdone. rewrite register_wallet_command_run, Ha1. cbn zeta.
    destruct (is_valid_solana_address (strip a1)) eqn:Hv; cbn [negb];
      [| discriminate].
    destruct (stored_wallet _ _ w) eqn:Hfresh; [discriminate |].
    destruct (_ <=? _)%float eqn:Hsol; [discriminate |].
    intros _. eexists. split; [| reflexivity].
    apply (proj2 (@registration_added e1 u1 c1 w a1 r1 Ha1 Hv Hfresh Hsol)). }
  destruct Hst as [doc [Hst Hv]].
  rewrite register_wallet_command_run, Ha2. cbn zeta.
  now rewrite Hstrip, Hchat, Hv, Hst.
Qed.

Lemma duplicate_wallet_is_rejected_witness :
  register_wallet_command (market 160 0 []) (message "bob" [])
    {| args := [wallet_a] |} registered_a
  = (WalletAlreadyRegistered, registered_a).
Proof.
  apply (proj2 duplicate_wallet_is_rejected
           (market 150 0 []) (market 160 0 [])
           (message "ana" []) (message "bob" [])
           {| args := [wallet_a] |} {| args := [wallet_a] |}
           empty_world [] wallet_a wallet_a [] []
           eq_refl eq_refl eq_refl eq_refl eq_refl).
Defined.

(* ================================================================== *)
(** * Rejected input, and what gets stored *)
(* ================================================================== *)

(** X5.  Input that is not an address is turned away before anything else
    happens.  A text that, once stripped, is not 43 or 44 base-58 characters
    is echoed as it was sent; [/register_wallet] without an argument gets the
    usage line, and with such an argument the invalid-address reply.  In all
    three cases the world is left as it is: nothing is stored and no market
    data is read. *)
Theorem rejected_input_has_no_effect
  (e : env) (update : Update) (context : Context) (w : world) :
  (address_contract (strip (message_text update)) = false ->
   handle_contract_address e update context w
   = (Echo (message_text update), w)) /\
  (args context = [] ->
   register_wallet_command e update context w = (Usage, w)) /\
  (forall arg0 rest,
     args context = arg0 :: rest ->
     address_contract (strip arg0) = false ->
     register_wallet_command e update context w = (InvalidAddress, w)).
Proof.
  split; [| split].
  - intros H. rewrite handle_contract_address_run.
    now rewrite is_valid_solana_address_stripped, H.
  - intros H. now rewrite register_wallet_command_run, H.
  - intros arg0 rest Hargs H.
    rewrite register_wallet_command_run, Hargs. cbn zeta.
    now rewrite is_valid_solana_address_stripped, H.
Qed.

Lemma rejected_input_has_no_effect_witness :
  handle_contract_address (market 150 0.0001 [])
    (message "ana" (lit "  gm everyone ")) no_args (shilled_a 0.0001)
  = (Echo (lit "  gm everyone "), shilled_a 0.0001) /\
  register_wallet_command (market 150 0.0001 []) (message "ana" []) no_args
    registered_a
  = (Usage, registered_a) /\
  register_wallet_command (market 150 0.0001 []) (message "ana" [])
    {| args := [lit "0x52908400098527886E0F7030069857D2E4169EE7"] |}
    registered_a
  = (InvalidAddress, registered_a).
Proof.
  split; [| split].
  - apply (proj1 (rejected_input_has_no_effect (market 150 0.0001 [])
                    (message "ana" (lit "  gm everyone ")) no_args
                    (shilled_a 0.0001))).
    reflexivity.
  - apply (proj1 (proj2 (rejected_input_has_no_effect
                           (market 150 0.0001 []) (message "ana" [])
                           no_args registered_a))).
    reflexivity.
  - apply (proj2 (proj2 (rejected_input_has_no_effect
                           (market 150 0.0001 []) (message "ana" [])
                           {| args :=
                                [lit "0x52908400098527886E0F7030069857D2E4169EE7"] |}
                           registered_a))
             (lit "0x52908400098527886E0F7030069857D2E4169EE7") []);
      reflexivity.
Defined.

Lemma username_or_anonymous_not_empty (update : Update) :
  username_or_anonymous update <> [].
Proof.
  unfold username_or_anonymous.
  destruct (effective_username update) as [[| c name] |]; discriminate.
Qed.

Lemma well_formed_serve (ev : event) (w : world) :
  well_formed w -> well_formed (snd (serve ev w)).
Proof.
  intros [Hp Hw].
  destruct (serve_shape ev w)
    as [[rs ->] | [[_ [Hv [_ [_ [_ [rs ->]]]]]]
                  | [_ [a [r [_ [Hv [_ [_ [rs ->]]]]]]]]]].
  - split; assumption.
  - split; [| assumption].
    cbn [add_pick after_reads picks_collection].
    apply Forall_app. split; [assumption |].
    constructor; [| constructor]. split.
    + cbn [entry_of mint_address].
      now rewrite <- is_valid_solana_address_stripped.
    + apply username_or_anonymous_not_empty.
  - split; [assumption |].
    cbn [add_wallet after_reads wallets_collection].
    apply Forall_app. split; [assumption |].
    constructor; [| constructor]. split.
    + cbn [registration_of wallet_address].
      now rewrite <- is_valid_solana_address_stripped.
    + apply username_or_anonymous_not_empty.
Qed.

(** X6.  Whatever updates arrive, every address the bot stores (a mint or a
    wallet) is 43 or 44 base-58 characters long, and every stored user name
    is not empty ("Anonymous" stands in for a missing one): the property
    holds of a ledger after any updates when it held before, and so of every
    ledger grown from the empty one. *)
Theorem stored_addresses_are_valid (evs : list event) :
  (forall w : world, well_formed w -> well_formed (run evs w)) /\
  well_formed (run evs empty_world).
Proof.
  assert (H : forall w : world, well_formed w -> well_formed (run evs w)).
  { induction evs as [| ev evs IH]; intros w Hw; [assumption |].
    rewrite run_cons. apply IH. now apply well_formed_serve. }
  split; [exact H |]. apply H. split; constructor.
Qed.

Lemma stored_addresses_are_valid_witness :
  well_formed (shilled_a_b 0.0001).
Proof.
  apply (proj1 (stored_addresses_are_valid
                  [ {| ev_command := TextMessage;
                       ev_env := market 150 0.0001 [];
                       ev_update := message "ana" mint_a;
                       ev_context := no_args |};
                    {| ev_command := TextMessage;
                       ev_env := market 150 0.0001 [];
                       ev_update := message "bob" mint_b;
                       ev_context := no_args |} ])
               empty_world).
  split; constructor.
Defined.

Lemma base58_is_scalar (c : N) : in_base58 c = true -> is_scalar c = true.
Proof.
  unfold in_base58. intros H. apply existsb_exists in H.
  destruct H as [x [Hin Hx]]. apply N.eqb_eq in Hx. subst x.
  assert (Hb : forallb is_scalar base58_alphabet = true)
    by (vm_compute; reflexivity).
  rewrite forallb_forall in Hb. now apply Hb.
Qed.

Lemma address_contract_scalar (s : str) :
  address_contract s = true -> Forall (fun c => is_scalar c = true) s.
Proof.
  unfold address_contract. intros H. apply andb_true_iff in H.
  destruct H as [_ H]. apply Forall_forall. intros c Hc.
  rewrite forallb_forall in H. apply base58_is_scalar. now apply H.
Qed.

(** X7.  In a ledger whose stored addresses are valid (as every ledger the
    bot has grown is), [/share] never fails on the encoding: for a user with
    positions, a reference price above zero and a user name without a lone
    surrogate, the reply is the tweet link with the encoded share text. *)
Theorem share_link_is_always_built
  (e : env) (update : Update) (context : Context) (w : world) :
  let user_picks :=
    picks_of_user (effective_chat_id update) (effective_user_id update) w in
  well_formed w ->
  user_picks <> [] ->
  (sol_price_feed e <=? 0)%float = false ->
  Forall (fun c => is_scalar c = true) (username_or_anonymous update) ->
  exists encoded,
    quote (share_text e update user_picks) = Some encoded /\
    fst (share_command e update context w)
    = ShareLink (share_prefix ++ encoded).
Proof.
  intros user_picks [Hwf _] Hne Hsol Hname.
  assert (Hs : Forall (fun c => is_scalar c = true)
                 (share_text e update user_picks)).
  { unfold share_text. apply tweet_text_of_scalar; [exact Hname |].
    apply Forall_map. apply Forall_forall. intros p Hp.
    apply share_line_scalar.
    apply address_contract_scalar.
    unfold user_picks, picks_of_user in Hp. apply filter_In in Hp.
    destruct Hp as [Hp _]. rewrite Forall_forall in Hwf.
    now destruct (Hwf p Hp). }
  destruct (encode_utf8_total Hs) as [bs Hbs].
  exists (flat_map (quoter (lit "/")) bs).
  assert (Hq : quote (share_text e update user_picks)
               = Some (flat_map (quoter (lit "/")) bs))
    by (unfold quote; now rewrite Hbs).
  split; [exact Hq |].
  rewrite (@share_command_reply e update context w Hne Hsol).
  fold user_picks. now rewrite Hq.
Qed.

Lemma share_link_is_always_built_witness :
  exists encoded,
    fst (share_command (market 160 0.00012 []) (message "ana" []) no_args
           (shilled_a_b 0.0001))
    = ShareLink (share_prefix ++ encoded).
Proof.
  destruct (@share_link_is_always_built
              (market 160 0.00012 []) (message "ana" []) no_args
              (shilled_a_b 0.0001)) as [encoded [_ H]].
  - split; repeat constructor; discriminate.
  - vm_compute. discriminate.
  - reflexivity.
  - apply forallb_Forall. reflexivity.
  - exists encoded. exact H.
Defined.

(* ================================================================== *)
(** * The market-data reads of a pass *)
(* ================================================================== *)

Lemma NoDup_map_weaker (A B C : Type) (f : A -> B) (g : A -> C)
  (l : list A) :
  (forall x y, In x l -> In y l -> f x = f y -> g x = g y) ->
  NoDup (List.map g l) -> NoDup (List.map f l).
Proof.
  induction l as [| a l IH]; intros Hfg Hg; cbn [List.map]; [constructor |].
  cbn [List.map] in Hg. apply NoDup_cons_iff in Hg. destruct Hg as [Ha Hg].
  constructor.
  - intros Hin. apply in_map_iff in Hin. destruct Hin as [x [E Hx]].
    apply Ha. apply in_map_iff. exists x. split; [| assumption].
    apply Hfg; cbn; auto.
  - apply IH; [| assumption]. intros x y Hx Hy. apply Hfg; cbn; auto.
Qed.

Lemma NoDup_map_filter (A B : Type) (g : A -> B) (q : A -> bool)
  (l : list A) :
  NoDup (List.map g l) -> NoDup (List.map g (filter q l)).
Proof.
  induction l as [| a l IH]; intros H; cbn [filter List.map];
    [constructor |].
  cbn [List.map] in H. apply NoDup_cons_iff in H. destruct H as [Ha H].
  destruct (q a); [| now apply IH]. cbn [List.map]. constructor.
  - intros Hin. apply Ha. apply in_map_iff in Hin.
    destruct Hin as [x [E Hx]]. apply filter_In in Hx.
    apply in_map_iff. exists x. tauto.
  - now apply IH.
Qed.

Lemma close_reads_distinct (chat_id : Z) (q : pick_doc -> bool)
  (w : world) :
  unique_picks w ->
  (forall p, q p = true -> p_chat_id p = chat_id) ->
  NoDup (List.map (fun p => ReadClosePrice (mint_address p))
           (filter q (picks_collection w))).
Proof.
  intros Hu Hq.
  apply NoDup_map_weaker with (g := fun p => (p_chat_id p, mint_address p)).
  - intros x y Hx Hy E. injection E as E.
    apply filter_In in Hx. apply filter_In in Hy.
    rewrite (Hq x (proj2 Hx)), (Hq y (proj2 Hy)), E. reflexivity.
  - now apply NoDup_map_filter.
Qed.

Lemma balance_reads_distinct (chat_id : Z) (w : world) :
  unique_wallets w ->
  NoDup (List.map (fun d => ReadBalances (wallet_address d))
           (wallets_of_chat chat_id w)).
Proof.
  intros Hu. unfold wallets_of_chat.
  apply NoDup_map_weaker
    with (g := fun d => (w_chat_id d, wallet_address d)).
  - intros x y Hx Hy E. injection E as E.
    apply filter_In in Hx. apply filter_In in Hy.
    destruct Hx as [_ Hx]. destruct Hy as [_ Hy].
    apply Z.eqb_eq in Hx. apply Z.eqb_eq in Hy.
    now rewrite Hx, Hy, E.
  - now apply NoDup_map_filter.
Qed.

(** The wallets a pass reads are the first ones of the chat, and all of
    them when every wallet has a valuation. *)
Lemma wallets_read_prefix (e : env) (l : list wallet_doc) :
  exists rest,
    l = wallets_read e l ++ rest /\
    (wallet_valuations e l <> None -> rest = []).
Proof.
  unfold wallet_valuations.
  induction l as [| d l [rest [IH1 IH2]]]; cbn [wallets_read List.map all_of].
  - exists []. now split.
  - destruct (wallet_valuation e d) as [item |].
    + exists rest. split; [cbn [app]; now rewrite <- IH1 |].
      intros H. apply IH2. intros E. apply H. now rewrite E.
    + exists l. split; [reflexivity |]. intros H. now elim H.
Qed.

(** X8.  A leaderboard or share pass reads the reference price once, before
    anything else, and then, when that price is above zero, one price per
    stored position of the chat (one holdings snapshot per wallet; one price
    per position of the user), in ledger order.  A wallet pass stops behind
    the first wallet whose holdings have no sum, and reads every wallet of
    the chat when there is none.  With the stored keys unique no address is
    read twice in a pass; with a price of zero or less nothing more is
    read. *)
Theorem a_pass_reads_each_address_once
  (e : env) (update : Update) (context : Context) (w : world) :
  let chat_id := effective_chat_id update in
  let user_id := effective_user_id update in
  let sol_ok := negb (sol_price_feed e <=? 0)%float in
  let close_reads (l : list pick_doc) :=
    List.map (fun p => ReadClosePrice (mint_address p)) l in
  let balance_reads (l : list wallet_doc) :=
    List.map (fun d => ReadBalances (wallet_address d)) l in
  reads (snd (leaderboard_command e update context w))
    = reads w ++ ReadSolPrice
        :: (if sol_ok then close_reads (picks_of_chat chat_id w) else []) /\
  reads (snd (sniper_leaderboard_command e update context w))
    = reads w ++ ReadSolPrice
        :: (if sol_ok
            then balance_reads (wallets_read e (wallets_of_chat chat_id w))
            else []) /\
  (exists rest,
     wallets_of_chat chat_id w
     = wallets_read e (wallets_of_chat chat_id w) ++ rest /\
     (wallet_valuations e (wallets_of_chat chat_id w) <> None ->
      rest = [])) /\
  (picks_of_user chat_id user_id w <> [] ->
   reads (snd (share_command e update context w))
     = reads w ++ ReadSolPrice
         :: (if sol_ok then close_reads (picks_of_user chat_id user_id w)
             else [])) /\
  (unique_picks w ->
   NoDup (close_reads (picks_of_chat chat_id w)) /\
   NoDup (close_reads (picks_of_user chat_id user_id w))) /\
  (unique_wallets w -> NoDup (balance_reads (wallets_of_chat chat_id w))).
Proof.
  intros chat_id user_id sol_ok close_reads balance_reads.
  unfold sol_ok. split; [| split; [| split; [| split; [| split]]]].
  - rewrite leaderboard_command_run. fold chat_id.
    destruct (_ <=? _)%float; [reflexivity |].
    destruct (picks_of_chat chat_id w); reflexivity.
  - rewrite sniper_leaderboard_command_run. fold chat_id.
    destruct (_ <=? _)%float; [reflexivity |].
    destruct (wallets_of_chat chat_id w); reflexivity.
  - apply wallets_read_prefix.
  - intros Hne. rewrite share_command_run. fold chat_id user_id.
    destruct (picks_of_user chat_id user_id w); [now elim Hne |].
    destruct (_ <=? _)%float; reflexivity.
  - intros H. split.
    + apply (@close_reads_distinct chat_id _ w H).
      intros p Hp. now apply Z.eqb_eq in Hp.
    + apply (@close_reads_distinct chat_id _ w H).
      intros p Hp. apply andb_true_iff in Hp. destruct Hp as [Hp _].
      now apply Z.eqb_eq in Hp.
  - intros H. now apply balance_reads_distinct.
Qed.

Lemma a_pass_reads_each_address_once_witness :
  reads (snd (share_command (market 160 0.00012 []) (message "ana" [])
                no_args (shilled_a_b 0.0001)))
  = reads (shilled_a_b 0.0001)
      ++ [ReadSolPrice; ReadClosePrice mint_a; ReadClosePrice mint_b] /\
  NoDup (List.map (fun p => ReadClosePrice (mint_address p))
           (picks_of_chat (-1001) (shilled_a_b 0.0001))).
Proof.
  pose proof (@a_pass_reads_each_address_once
                (market 160 0.00012 []) (message "ana" []) no_args
                (shilled_a_b 0.0001)) as [_ [_ [_ [H3 [H4 _]]]]].
  split.
  - apply H3. vm_compute. discriminate.
  - apply H4. vm_compute.
    constructor; [intros [E | []]; discriminate |].
    constructor; [intros [] | constructor].
Defined.

(* ================================================================== *)
(** * One chat does not see another *)
(* ================================================================== *)

Lemma serve_other_chat (chat_id : Z) (ev : event) (w : world) :
  from_chat chat_id ev = false ->
  picks_of_chat chat_id (snd (serve ev w)) = picks_of_chat chat_id w /\
  wallets_of_chat chat_id (snd (serve ev w)) = wallets_of_chat chat_id w /\
  forall user_id,
    picks_of_user chat_id user_id (snd (serve ev w))
    = picks_of_user chat_id user_id w.
Proof.
  unfold from_chat. intros Hc.
  unfold picks_of_chat, wallets_of_chat, picks_of_user.
  destruct (serve_shape ev w)
    as [[rs ->] | [[_ [_ [_ [_ [_ [rs ->]]]]]]
                  | [_ [a [r [_ [_ [_ [_ [rs ->]]]]]]]]]];
    cbn [add_pick add_wallet after_reads picks_collection
         wallets_collection];
    rewrite ?filter_app; cbn [filter entry_of registration_of p_chat_id
                              w_chat_id];
    rewrite ?Hc; cbn [andb]; rewrite ?app_nil_r; repeat split.
  intros user_id. rewrite filter_app.
  cbn [filter entry_of p_chat_id]. rewrite Hc. cbn [andb].
  now rewrite app_nil_r.
Qed.

(** X9.  Chats are kept apart.  Updates that arrive from other chats, of
    whatever kind, change neither the positions nor the wallets of a chat,
    so its two leaderboards and the share links of its users are, at the
    same market data, what they were before. *)
Theorem other_chats_do_not_show (chat_id : Z) (evs : list event)
  (e : env) (update : Update) (context : Context) (w : world) :
  Forall (fun ev => effective_chat_id (ev_update ev) <> chat_id) evs ->
  effective_chat_id update = chat_id ->
  picks_of_chat chat_id (run evs w) = picks_of_chat chat_id w /\
  wallets_of_chat chat_id (run evs w) = wallets_of_chat chat_id w /\
  fst (leaderboard_command e update context (run evs w))
    = fst (leaderboard_command e update context w) /\
  fst (sniper_leaderboard_command e update context (run evs w))
    = fst (sniper_leaderboard_command e update context w) /\
  fst (share_command e update context (run evs w))
    = fst (share_command e update context w).
Proof.
  intros Hevs Hchat.
  assert (H : picks_of_chat chat_id (run evs w) = picks_of_chat chat_id w /\
              wallets_of_chat chat_id (run evs w)
                = wallets_of_chat chat_id w /\
              forall user_id,
                picks_of_user chat_id user_id (run evs w)
                = picks_of_user chat_id user_id w).
  { revert w. induction Hevs as [| ev evs Hev _ IH]; intros w.
    - repeat split.
    - rewrite run_cons.
      destruct (IH (snd (serve ev w))) as [H1 [H2 H3]].
      destruct (@serve_other_chat chat_id ev w) as [G1 [G2 G3]].
      { unfold from_chat. now apply Z.eqb_neq. }
      rewrite H1, H2, G1, G2. repeat split.
      intros user_id. now rewrite H3, G3. }
  destruct H as [H1 [H2 H3]].
  split; [exact H1 |]. split; [exact H2 |].
  rewrite !leaderboard_command_run, !sniper_leaderboard_command_run,
    !share_command_run, Hchat, H1, H2, H3.
  repeat split.
  - destruct (_ <=? _)%float; [reflexivity |].
    destruct (picks_of_chat chat_id w); reflexivity.
  - destruct (_ <=? _)%float; [reflexivity |].
    destruct (wallets_of_chat chat_id w); reflexivity.
  - destruct (picks_of_user chat_id _ w); [reflexivity |].
    destruct (_ <=? _)%float; reflexivity.
Qed.

Lemma other_chats_do_not_show_witness :
  fst (leaderboard_command (market 160 0.00012 []) (elsewhere "cy" [])
         no_args
         (run [text_event (market 150 0.0001 []) (message "ana" mint_a);
               text_event (market 150 0.0001 []) (message "bob" mint_b)]
            shilled_elsewhere))
  = fst (leaderboard_command (market 160 0.00012 []) (elsewhere "cy" [])
           no_args shilled_elsewhere).
Proof.
  apply (@other_chats_do_not_show 2002
           [text_event (market 150 0.0001 []) (message "ana" mint_a);
            text_event (market 150 0.0001 []) (message "bob" mint_b)]
           (market 160 0.00012 []) (elsewhere "cy" []) no_args
           shilled_elsewhere).
  - repeat constructor; discriminate.
  - reflexivity.
Defined.

(* ================================================================== *)
(** * The ten that are listed *)
(* ================================================================== *)

Section TopTen.

Variable A : Type.
Variable key : A -> float.

(** What the cut at ten leaves out is no better than what it keeps. *)
Lemma listed_and_omitted (l : list A) :
  let sorted := sort_by key true l in
  let ranked := enumerate 1 (firstn 10 sorted) in
  let omitted := skipn 10 sorted in
  Permutation (List.map snd ranked ++ omitted) l /\
  List.length omitted = List.length l - 10 /\
  (Forall (fun a => is_number (key a)) l ->
   forall a b, In a (List.map snd ranked) -> In b omitted ->
               (key b <=? key a)%float = true).
Proof.
  intros sorted ranked omitted.
  assert (Hsnd : List.map snd ranked = firstn 10 sorted)
    by apply enumerate_snd.
  pose proof (sort_by_perm key l) as Hp. fold sorted in Hp.
  rewrite Hsnd. split; [| split].
  - unfold omitted. now rewrite firstn_skipn.
  - unfold omitted. rewrite length_skipn.
    now rewrite (Permutation_length Hp).
  - intros Hn a b Ha Hb.
    destruct (@sort_by_reverse_spec A key l Hn) as [_ [Hs _]].
    fold sorted in Hs. rewrite <- (firstn_skipn 10 sorted) in Hs.
    apply StronglySorted_app in Hs. destruct Hs as [_ [_ Hs]].
    assert (Hall : Forall (fun a => is_number (key a)) sorted)
      by (eapply Permutation_Forall; [symmetry; exact Hp | exact Hn]).
    rewrite Forall_forall in Hall.
    apply not_ltb_leb.
    + apply Hall. rewrite <- (firstn_skipn 10 sorted).
      apply in_or_app. now left.
    + apply Hall. rewrite <- (firstn_skipn 10 sorted).
      apply in_or_app. now right.
    + now apply Hs.
Qed.

End TopTen.

(** X10.  A leaderboard lists the best: the entries of the reply together
    with the ones left out are exactly the valuations of the chat, nothing
    is left out while there are ten or fewer, and, when every [pnl] is a
    number, no entry left out has a [pnl] above that of a listed one.  This
    holds for the token leaderboard, and for the wallet leaderboard of a
    pass in which every wallet has a valuation. *)
Theorem the_listed_are_the_best
  (e : env) (update : Update) (context : Context) (w : world) :
  let chat_id := effective_chat_id update in
  (sol_price_feed e <=? 0)%float = false ->
  (forall data_list,
     data_list = List.map (token_valuation e (sol_price_feed e))
                   (picks_of_chat chat_id w) ->
     data_list <> [] ->
     exists ranked omitted,
       fst (leaderboard_command e update context w) = Leaderboard ranked /\
       Permutation (List.map snd ranked ++ omitted) data_list /\
       List.length omitted = List.length data_list - 10 /\
       (Forall (fun item => is_number (row_pnl item)) data_list ->
        forall a b, In a (List.map snd ranked) -> In b omitted ->
                    (row_pnl b <=? row_pnl a)%float = true)) /\
  (forall results,
     wallet_valuations e (wallets_of_chat chat_id w) = Some results ->
     results <> [] ->
     exists ranked omitted,
       fst (sniper_leaderboard_command e update context w)
         = SniperLeaderboard ranked /\
       Permutation (List.map snd ranked ++ omitted) results /\
       List.length omitted = List.length results - 10 /\
       (Forall (fun item => is_number (pnl_usd item)) results ->
        forall a b, In a (List.map snd ranked) -> In b omitted ->
                    (pnl_usd b <=? pnl_usd a)%float = true)).
Proof.
  intros chat_id Hsol. split.
  - intros data_list -> Hne.
    destruct (@listed_and_omitted _ row_pnl
                (List.map (token_valuation e (sol_price_feed e))
                   (picks_of_chat chat_id w))) as [H1 [H2 H3]].
    eexists. eexists. split; [| split; [exact H1 | split; [exact H2 |]]].
    + apply leaderboard_command_reply; [exact Hsol |].
      intros E. fold chat_id in E. rewrite E in Hne. now elim Hne.
    + exact H3.
  - intros results Hres Hne.
    destruct (@listed_and_omitted _ pnl_usd results) as [H1 [H2 H3]].
    assert (Hw : wallets_of_chat chat_id w <> []).
    { intros E. rewrite E in Hres. cbn in Hres. injection Hres as <-.
      now elim Hne. }
    eexists. eexists. split; [| split; [exact H1 | split; [exact H2 |]]].
    + rewrite (@sniper_leaderboard_command_reply e update context w Hsol Hw).
      fold chat_id. rewrite Hres. reflexivity.
    + exact H3.
Qed.

Lemma the_listed_are_the_best_witness :
  exists ranked (omitted : list pick_row),
    fst (leaderboard_command (market 160 0.00012 []) (message "bob" [])
           no_args (shilled_a_b 0.0001))
    = Leaderboard ranked /\
    List.length ranked = 2 /\ omitted = [].
Proof.
  destruct (proj1 (@the_listed_are_the_best
                     (market 160 0.00012 []) (message "bob" []) no_args
                     (shilled_a_b 0.0001) eq_refl) _ eq_refl)
    as [ranked [omitted [H1 [H2 [H3 _]]]]].
  - vm_compute. discriminate.
  - exists ranked, omitted. split; [exact H1 |].
    split.
    + revert H1. vm_compute. intros E. injection E as <-. reflexivity.
    + destruct omitted; [reflexivity | discriminate H3].
Defined.

(** X11.  The wallet leaderboard does not depend on the level of the
    reference price: the price is only checked to be above zero, and two
    passes that see the same holdings give the same reply at any two such
    prices. *)
Theorem wallet_leaderboard_ignores_the_price_level
  (e1 e2 : env) (update : Update) (context : Context) (w : world) :
  (sol_price_feed e1 <=? 0)%float = false ->
  (sol_price_feed e2 <=? 0)%float = false ->
  (forall d, In d (wallets_of_chat (effective_chat_id update) w) ->
             balances_feed e1 (wallet_address d)
             = balances_feed e2 (wallet_address d)) ->
  fst (sniper_leaderboard_command e1 update context w)
  = fst (sniper_leaderboard_command e2 update context w).
Proof.
  intros H1 H2 Hb. rewrite !sniper_leaderboard_command_run, H1, H2.
  assert (E : wallet_valuations e1
                (wallets_of_chat (effective_chat_id update) w)
              = wallet_valuations e2
                  (wallets_of_chat (effective_chat_id update) w)).
  { unfold wallet_valuations. f_equal.
    apply map_ext_in. intros d Hd. unfold wallet_valuation.
    now rewrite (Hb d Hd). }
  destruct (wallets_of_chat (effective_chat_id update) w) eqn:Hw;
    [reflexivity |].
  cbn [fst]. now rewrite E.
Qed.

Lemma wallet_leaderboard_ignores_the_price_level_witness :
  fst (sniper_leaderboard_command
         (market 150 0 [holding 1000 0.05; holding 2 10])
         (message "bob" []) no_args registered_a)
  = fst (sniper_leaderboard_command
           (market 3 0.5 [holding 1000 0.05; holding 2 10])
           (message "bob" []) no_args registered_a).
Proof.
  apply (@wallet_leaderboard_ignores_the_price_level
           (market 150 0 [holding 1000 0.05; holding 2 10])
           (market 3 0.5 [holding 1000 0.05; holding 2 10])
           (message "bob" []) no_args registered_a eq_refl eq_refl).
  intros d _. reflexivity.
Defined.

(* ================================================================== *)
(** * Failed requests *)
(* ================================================================== *)

Lemma zero_minus_number (k : float) :
  is_number k -> (0 - k =? - k)%float = true.
Proof.
  intros Hk.
  exact (proj2 (@zero_price_valuation 0 0 0 k eq_refl eq_refl eq_refl Hk)).
Qed.

Lemma unpriced_update_stores_nothing (ev : event) (w : world) :
  (sol_price_feed (ev_env ev) <=? 0)%float = true ->
  picks_collection (snd (serve ev w)) = picks_collection w /\
  wallets_collection (snd (serve ev w)) = wallets_collection w.
Proof.
  intros Hsol.
  destruct (serve_shape ev w)
    as [[rs ->] | [[_ [_ [_ [H _]]]] | [_ [a [r [_ [_ [_ [H _]]]]]]]]];
    [split; reflexivity | congruence | congruence].
Qed.

(** X12.  When the reference-price request fails, or its answer has no
    [solPrice] key, [get_sol_price] gives 0.0 and every command that needs
    the price says so: both leaderboards are unavailable, a share, a new
    address and a new wallet get their price-error replies, and no command
    of any kind stores anything. *)
Theorem failed_price_request_stops_every_command
  (o : Feed.outside) (update : Update) (context : Context) (w : world) :
  let e := Feed.env_of o in
  let chat_id := effective_chat_id update in
  Feed.sol_price_response o = Feed.Failed \/
  Feed.sol_price_response o = Feed.Json {| Feed.solPrice := None |} ->
  fst (leaderboard_command e update context w) = LeaderboardUnavailable /\
  fst (sniper_leaderboard_command e update context w)
    = LeaderboardUnavailable /\
  (picks_of_user chat_id (effective_user_id update) w <> [] ->
   fst (share_command e update context w) = ShareSolPriceError) /\
  (is_valid_solana_address (strip (message_text update)) = true ->
   stored_pick chat_id (strip (message_text update)) w = None ->
   fst (handle_contract_address e update context w) = PickSolPriceError) /\
  (forall arg0 rest,
     args context = arg0 :: rest ->
     is_valid_solana_address (strip arg0) = true ->
     stored_wallet chat_id (strip arg0) w = None ->
     fst (register_wallet_command e update context w)
       = WalletSolPriceError) /\
  (forall cmd,
     let w' := snd (handler_of cmd e update context w) in
     picks_collection w' = picks_collection w /\
     wallets_collection w' = wallets_collection w).
Proof.
  intros e chat_id Hresp.
  assert (Hsol : (sol_price_feed e <=? 0)%float = true).
  { unfold e, Feed.env_of, Feed.get_sol_price. cbn [sol_price_feed].
    destruct Hresp as [-> | ->]; reflexivity. }
  split; [now rewrite leaderboard_command_run, Hsol |].
  split; [now rewrite sniper_leaderboard_command_run, Hsol |].
  split.
  { intros Hne. rewrite share_command_run. fold chat_id.
    destruct (picks_of_user _ _ w); [now elim Hne |]. now rewrite Hsol. }
  split.
  { intros Hv Hst. rewrite handle_contract_address_run. fold chat_id.
    now rewrite Hv, Hst, Hsol. }
  split.
  { intros arg0 rest Hargs Hv Hst.
    rewrite register_wallet_command_run, Hargs. cbn zeta. fold chat_id.
    now rewrite Hv, Hst, Hsol. }
  intros cmd.
  exact (@unpriced_update_stores_nothing
           {| ev_command := cmd; ev_env := e; ev_update := update;
              ev_context := context |} w Hsol).
Qed.

Lemma failed_price_request_stops_every_command_witness :
  fst (leaderboard_command
         (Feed.env_of (answers Feed.Failed (Feed.Json [closing 0.0001])
                         (Feed.Json [])))
         (message "bob" []) no_args (shilled_a 0.0001))
  = LeaderboardUnavailable /\
  fst (handle_contract_address
         (Feed.env_of (answers Feed.Failed (Feed.Json [closing 0.0001])
                         (Feed.Json [])))
         (message "bob" mint_b) no_args (shilled_a 0.0001))
  = PickSolPriceError.
Proof.
  pose proof (@failed_price_request_stops_every_command
                (answers Feed.Failed (Feed.Json [closing 0.0001])
                   (Feed.Json []))
                (message "bob" mint_b) no_args (shilled_a 0.0001)
                (or_introl eq_refl)) as [H1 [_ [_ [H4 _]]]].
  split; [exact H1 |]. apply H4; reflexivity.
Defined.




(** X14.  When the holdings request of a registered wallet fails, or answers
    with no holdings, the wallet is valued at a net worth of 0.0 and a
    [pnl == -start_usd_value] (its whole stake lost), and the pass goes on:
    with a reference price above zero, the reply of a pass in which every
    wallet has a valuation ranks the valuations of all wallets of the chat,
    this one among them. *)
Theorem failed_holdings_request_values_wallet_at_zero
  (o : Feed.outside) (update : Update) (context : Context) (w : world)
  (d : wallet_doc) :
  let e := Feed.env_of o in
  let chat_id := effective_chat_id update in
  In d (wallets_of_chat chat_id w) ->
  Feed.balances_response o (wallet_address d) = Feed.Failed \/
  Feed.balances_response o (wallet_address d) = Feed.Json [] ->
  is_number (start_usd_value d) ->
  exists item,
    wallet_valuation e d = Some item /\
    net_worth_usd item = 0%float /\
    (pnl_usd item =? - start_usd_value d)%float = true /\
    ((sol_price_feed e <=? 0)%float = false ->
     forall results,
       wallet_valuations e (wallets_of_chat chat_id w) = Some results ->
       exists ranked sorted,
         fst (sniper_leaderboard_command e update context w)
           = SniperLeaderboard ranked /\
         List.map snd ranked = firstn 10 sorted /\
         Permutation sorted results /\
         In item sorted).
Proof.
  intros e chat_id Hin Hresp Hstart.
  assert (Hb : balances_feed e (wallet_address d) = []).
  { unfold e, Feed.env_of, Feed.get_wallet_balances. cbn [balances_feed].
    destruct Hresp as [-> | ->]; reflexivity. }
  assert (Hv : wallet_valuation e d
               = Some {| res_username := w_username d;
                         res_wallet_address := wallet_address d;
                         net_worth_usd := 0%float;
                         pnl_usd := (0 - start_usd_value d)%float |}).
  { unfold wallet_valuation. now rewrite Hb. }
  eexists. split; [exact Hv |]. cbn [net_worth_usd pnl_usd].
  split; [reflexivity |]. split; [now apply zero_minus_number |].
  intros Hsol results Hres.
  assert (Hw : wallets_of_chat chat_id w <> []).
  { intros E. rewrite E in Hin. exact Hin. }
  eexists. eexists. split.
  - rewrite (@sniper_leaderboard_command_reply e update context w Hsol Hw).
    fold chat_id. rewrite Hres. reflexivity.
  - split; [apply enumerate_snd |].
    split; [apply sort_by_perm |].
    apply (Permutation_in _ (Permutation_sym (sort_by_perm _ _))).
    destruct (wallet_valuations_In _ _ _ Hres Hin) as [item [Hi Hv']].
    rewrite Hv in Hv'. injection Hv' as <-. exact Hi.
Qed.

Lemma failed_holdings_request_values_wallet_at_zero_witness :
  exists d item,
    stored_wallet (-1001) wallet_a registered_a = Some d /\
    wallet_valuation
      (Feed.env_of (answers (price 160) Feed.Failed Feed.Failed)) d
    = Some item /\
    (pnl_usd item =? -75)%float = true.
Proof.
  eexists.
  match goal with
  | |- exists item, stored_wallet _ _ _ = Some ?d /\ _ =>
      unify d {| w_chat_id := -1001;
                 w_user_id := 7;
                 w_username := lit "ana";
                 wallet_address := wallet_a;
                 start_usd_value := 75%float;
                 w_created_at := 1700000000 |};
      destruct (@failed_holdings_request_values_wallet_at_zero
                  (answers (price 160) Feed.Failed Feed.Failed)
                  (message "bob" []) no_args registered_a d
                  (or_introl eq_refl) (or_introl eq_refl) eq_refl)
        as [item [Hv [_ [Hpnl _]]]]
  end.
  exists item. split; [vm_compute; reflexivity |].
  split; [exact Hv | exact Hpnl].
Defined.

(* ================================================================== *)
(** * Empty chats, new entries and repeated messages *)
(* ================================================================== *)

Lemma ranked_starts_at_1 (A : Type) (key : A -> float) (l : list A) :
  l <> [] ->
  exists first rest,
    enumerate 1 (firstn 10 (sort_by key true l)) = (1, first) :: rest.
Proof.
  intros Hne.
  pose proof (sort_by_perm key l) as Hp.
  destruct (sort_by key true l) as [| a s].
  - apply Permutation_nil in Hp. now elim Hne.
  - exists a. eexists. reflexivity.
Qed.

Lemma Leaderboard_inj (a b : list (nat * pick_row)) :
  Leaderboard a = Leaderboard b -> a = b.
Proof. congruence. Qed.

Lemma SniperLeaderboard_inj (a b : list (nat * wallet_row)) :
  SniperLeaderboard a = SniperLeaderboard b -> a = b.
Proof. congruence. Qed.

(** X15.  A chat with nothing stored gets the "no picks" (or "no wallets")
    reply, after the one read of the reference price; that read comes first,
    so while the price is unavailable the reply is "unavailable" even for an
    empty chat.  A leaderboard that is sent is never empty: it starts with
    rank 1. *)
Theorem leaderboard_of_an_empty_chat
  (e : env) (update : Update) (context : Context) (w : world) :
  let chat_id := effective_chat_id update in
  ((sol_price_feed e <=? 0)%float = false ->
   (picks_of_chat chat_id w = [] ->
    leaderboard_command e update context w
    = (NoPicks, after_reads [ReadSolPrice] w)) /\
   (wallets_of_chat chat_id w = [] ->
    sniper_leaderboard_command e update context w
    = (NoWallets, after_reads [ReadSolPrice] w))) /\
  ((sol_price_feed e <=? 0)%float = true ->
   leaderboard_command e update context w
   = (LeaderboardUnavailable, after_reads [ReadSolPrice] w) /\
   sniper_leaderboard_command e update context w
   = (LeaderboardUnavailable, after_reads [ReadSolPrice] w)) /\
  (forall ranked,
     fst (leaderboard_command e update context w) = Leaderboard ranked ->
     exists first rest, ranked = (1, first) :: rest) /\
  (forall ranked,
     fst (sniper_leaderboard_command e update context w)
       = SniperLeaderboard ranked ->
     exists first rest, ranked = (1, first) :: rest).
Proof.
  intros chat_id.
  rewrite leaderboard_command_run, sniper_leaderboard_command_run.
  fold chat_id. split; [| split; [| split]].
  - intros ->. split; intros ->; reflexivity.
  - intros ->. split; reflexivity.
  - intros ranked. destruct (_ <=? _)%float; [discriminate |].
    destruct (picks_of_chat chat_id w) as [| p l] eqn:Hp; [discriminate |].
    cbn [fst]. intros E. rewrite <- (Leaderboard_inj E).
    apply ranked_starts_at_1. discriminate.
  - intros ranked. destruct (_ <=? _)%float; [discriminate |].
    destruct (wallets_of_chat chat_id w) as [| d l] eqn:Hd; [discriminate |].
    cbn [fst].
    destruct (wallet_valuations e (d :: l)) as [results |] eqn:Hres;
      [| discriminate].
    intros E. rewrite <- (SniperLeaderboard_inj E).
    apply ranked_starts_at_1. intros ->.
    apply wallet_valuations_length in Hres. discriminate.
Qed.

Lemma leaderboard_of_an_empty_chat_witness :
  leaderboard_command (market 150 0.0001 []) (message "ana" []) no_args
    registered_a
  = (NoPicks, after_reads [ReadSolPrice] registered_a) /\
  leaderboard_command (market 0 0.0001 []) (message "ana" []) no_args
    registered_a
  = (LeaderboardUnavailable, after_reads [ReadSolPrice] registered_a).
Proof.
  pose proof (@leaderboard_of_an_empty_chat (market 150 0.0001 [])
                (message "ana" []) no_args registered_a) as [H1 _].
  pose proof (@leaderboard_of_an_empty_chat (market 0 0.0001 [])
                (message "ana" []) no_args registered_a) as [_ [H2 _]].
  split.
  - apply (proj1 (H1 eq_refl)). reflexivity.
  - apply (proj1 (H2 eq_refl)).
Defined.

(** X16.  A new position shows up where it should.  After
    [handle_contract_address] has added a position, it is the last of its
    chat and the last of its sender in ledger order, so at any later market
    data the chat's leaderboard is not the "no picks" reply and the sender's
    share is not the "no picks for you" reply. *)
Theorem a_new_position_shows_up
  (e e' : env) (update asking : Update) (context context' : Context)
  (w : world) :
  let chat_id := effective_chat_id update in
  let user_id := effective_user_id update in
  let w' := snd (handle_contract_address e update context w) in
  outcome_of (fst (handle_contract_address e update context w)) = Done ->
  effective_chat_id asking = chat_id ->
  effective_user_id asking = user_id ->
  exists doc,
    mint_address doc = strip (message_text update) /\
    picks_of_chat chat_id w' = picks_of_chat chat_id w ++ [doc] /\
    picks_of_user chat_id user_id w'
      = picks_of_user chat_id user_id w ++ [doc] /\
    fst (leaderboard_command e' asking context' w') <> NoPicks /\
    fst (share_command e' asking context' w') <> NoPicksForUser.
Proof.
  intros chat_id user_id w' Hdone Hchat Huser.
  assert (Hw' : w' = add_pick (entry_of e update)
                       (after_reads
                          [ReadSolPrice;
                           ReadClosePrice (strip (message_text update))] w)).
  { unfold w'. revert Hdone. rewrite handle_contract_address_run.
    destruct (is_valid_solana_address _); cbn [negb]; [| discriminate].
    destruct (stored_pick _ _ w); [discriminate |].
    destruct (_ <=? _)%float; [discriminate |].
    destruct (_ <=? _)%float; [discriminate |]. reflexivity. }
  exists (entry_of e update).
  assert (Hc : picks_of_chat chat_id w'
               = picks_of_chat chat_id w ++ [entry_of e update]).
  { rewrite Hw'. unfold picks_of_chat, add_pick.
    cbn [picks_collection after_reads]. rewrite filter_app.
    cbn [filter entry_of p_chat_id]. fold chat_id.
    now rewrite Z.eqb_refl. }
  assert (Hu : picks_of_user chat_id user_id w'
               = picks_of_user chat_id user_id w ++ [entry_of e update]).
  { rewrite Hw'. unfold picks_of_user, add_pick.
    cbn [picks_collection after_reads]. rewrite filter_app.
    cbn [filter entry_of p_chat_id p_user_id]. fold chat_id user_id.
    now rewrite !Z.eqb_refl. }
  split; [reflexivity |]. split; [exact Hc |]. split; [exact Hu |].
  rewrite leaderboard_command_run, share_command_run, Hchat, Huser, Hc, Hu.
  split.
  - destruct (_ <=? _)%float; [cbn [fst]; discriminate |].
    destruct (picks_of_chat chat_id w); cbn [app fst]; discriminate.
  - destruct (picks_of_user chat_id user_id w);
      cbn [app]; destruct (_ <=? _)%float; cbn [fst];
      try discriminate; destruct (quote _); discriminate.
Qed.

Lemma a_new_position_shows_up_witness :
  fst (share_command (market 160 0.00012 []) (message "ana" []) no_args
         (shilled_a 0.0001))
  <> NoPicksForUser.
Proof.
  destruct (@a_new_position_shows_up
              (market 150 0.0001 []) (market 160 0.00012 [])
              (message "ana" mint_a) (message "ana" []) no_args no_args
              empty_world eq_refl eq_refl eq_refl)
    as [doc [_ [_ [_ [_ H]]]]].
  exact H.
Defined.

Lemma stores_after_reads (rs : list read) (w : world) chat_id key :
  stored_pick chat_id key (after_reads rs w) = stored_pick chat_id key w /\
  stored_wallet chat_id key (after_reads rs w) = stored_wallet chat_id key w.
Proof. split; reflexivity. Qed.

(** X17.  Repeating an update adds nothing: served twice in a row at the
    same market data, a text message or a registration leaves the two
    collections as the first time left them. *)
Theorem repeating_an_update_adds_nothing
  (e : env) (update : Update) (context : Context) (w : world) :
  let once := snd (handle_contract_address e update context w) in
  let twice := snd (handle_contract_address e update context once) in
  let once' := snd (register_wallet_command e update context w) in
  let twice' := snd (register_wallet_command e update context once') in
  (picks_collection twice = picks_collection once /\
   wallets_collection twice = wallets_collection once) /\
  (picks_collection twice' = picks_collection once' /\
   wallets_collection twice' = wallets_collection once').
Proof.
  cbv zeta. split.
  - rewrite (handle_contract_address_run e update context w).
    destruct (is_valid_solana_address (strip (message_text update)))
      eqn:Hv; cbn [negb snd].
    + destruct (stored_pick _ _ w) eqn:Hst; cbn [snd].
      * rewrite handle_contract_address_run, Hv, Hst. split; reflexivity.
      * destruct (sol_price_feed e <=? 0)%float eqn:Hsol; cbn [snd].
        -- rewrite handle_contract_address_run, Hv. cbn [negb].
           rewrite (proj1 (stores_after_reads _ _ _ _)), Hst, Hsol.
           split; reflexivity.
        -- destruct (close_price_feed e _ <=? 0)%float eqn:Hclose;
             cbn [snd].
           ++ rewrite handle_contract_address_run, Hv. cbn [negb].
              rewrite (proj1 (stores_after_reads _ _ _ _)), Hst, Hsol,
                Hclose.
              split; reflexivity.
           ++ rewrite handle_contract_address_run, Hv. cbn [negb].
              assert (Hnow : stored_pick (effective_chat_id update)
                               (strip (message_text update))
                               (add_pick (entry_of e update)
                                  (after_reads
                                     [ReadSolPrice;
                                      ReadClosePrice
                                        (strip (message_text update))] w))
                             = Some (entry_of e update)).
              { unfold stored_pick, add_pick.
                cbn [picks_collection after_reads].
                unfold stored_pick in Hst.
                rewrite (find_app_none _ _ _ Hst).
                cbn [find entry_of p_chat_id mint_address].
                now rewrite Z.eqb_refl, str_eqb_refl. }
              rewrite Hnow. split; reflexivity.
    + rewrite handle_contract_address_run, Hv. split; reflexivity.
  - rewrite (register_wallet_command_run e update context w).
    destruct (args context) as [| arg0 rest] eqn:Hargs; cbn [snd].
    + rewrite register_wallet_command_run, Hargs. split; reflexivity.
    + cbn zeta.
      destruct (is_valid_solana_address (strip arg0)) eqn:Hv;
        cbn [negb snd].
      * destruct (stored_wallet _ _ w) eqn:Hst; cbn [snd].
        -- rewrite register_wallet_command_run, Hargs. cbn zeta.
           rewrite Hv, Hst. split; reflexivity.
        -- destruct (sol_price_feed e <=? 0)%float eqn:Hsol; cbn [snd].
           ++ rewrite register_wallet_command_run, Hargs. cbn zeta.
              rewrite Hv. cbn [negb].
              rewrite (proj2 (stores_after_reads _ _ _ _)), Hst, Hsol.
              split; reflexivity.
           ++ rewrite register_wallet_command_run, Hargs. cbn zeta.
              rewrite Hv. cbn [negb].
              assert (Hnow : stored_wallet (effective_chat_id update)
                               (strip arg0)
                               (add_wallet
                                  (registration_of e update (strip arg0))
                                  (after_reads [ReadSolPrice] w))
                             = Some (registration_of e update (strip arg0))).
              { unfold stored_wallet, add_wallet.
                cbn [wallets_collection after_reads].
                unfold stored_wallet in Hst.
                rewrite (find_app_none _ _ _ Hst).
                cbn [find registration_of w_chat_id wallet_address].
                now rewrite Z.eqb_refl, str_eqb_refl. }
              rewrite Hnow. split; reflexivity.
      * rewrite register_wallet_command_run, Hargs. cbn zeta.
        rewrite Hv. split; reflexivity.
Qed.
